(** * KubeBlocks reconciliation core: horizontal scaling and object generation

    A shallow embedding of
    - [controllers/apps/operations/horizontal_scaling.go] (module [HScale]) and
    - [internal/controller/rsm/transformer_object_generation.go] (module [RSM]
      for the plan and the merge, module [Probe] for the pod template and the
      role probe, module [EnvConfig] for the env config map),
    with the properties of the specification stated and proved over it, and
    [dedupResources] of the lifecycle package (module [Lifecycle]).

    Conventions.
    - Go [int32] values are [Z] with the wrap-around of the machine type
      written out ([wrap32]).
    - Go maps are [gmap], Go [sets.Set[string]] is [gset string]; a nil slice
      and an empty slice are both the empty list (the code only ranges over
      slices and takes their length).
    - Go leaves the iteration order of maps and of [UnsortedList] open; the
      model iterates in the order of stdpp's [elements] / [map_to_list].
    - A Go function returning [(T, error)] returns [result T]; a nil-pointer
      dereference is the outcome [Panic]. *)

From stdpp Require Import gmap strings list fin_maps pretty.
From Stdlib Require Import ZArith Lia Ascii Sorted.

(** ** Outcomes of fallible code *)

Inductive error :=
| FatalError (msg : string)   (* intctrlutil.NewFatalError *)
| OtherError (msg : string).  (* any other, retryable error value *)

Inductive result (A : Type) :=
| Ok (a : A)
| Err (e : error)
| Panic.
Arguments Ok {A} a.
Arguments Err {A} e.
Arguments Panic {A}.

(** [result] is a monad; stdpp's [x ← r; k] sequences fallible calls the way
    Go's [if err != nil { return err }] does. *)
#[global] Instance result_ret : MRet result := λ A a, Ok a.
#[global] Instance result_bind : MBind result := λ A B k r,
  match r with
  | Ok a => k a
  | Err e => Err e
  | Panic => Panic
  end.

Definition isFatal {A} (r : result A) : bool :=
  match r with Err (FatalError _) => true | _ => false end.

(** ** 32-bit signed arithmetic *)

Definition wrap32 (z : Z) : Z := ((z + 2 ^ 31) `mod` 2 ^ 32 - 2 ^ 31)%Z.
Definition add32 (a b : Z) : Z := wrap32 (a + b).
Definition sub32 (a b : Z) : Z := wrap32 (a - b).
Definition int32 (z : Z) : Prop := (- 2 ^ 31 ≤ z < 2 ^ 31)%Z.

(** [strings.Join], and the double quote of the Go format strings. *)
Definition joinWith (sep : string) (l : list string) : string :=
  String.concat sep l.
Definition dq : string := String (Ascii.ascii_of_nat 34) EmptyString.

Module HScale.

(** ** Data model (apis/apps/v1alpha1, only what the handler reads) *)

Record InstanceTemplate := {
  tplName : string;
  tplReplicas : option Z;       (* *int32 *)
  tplOverrides : string;        (* the remaining fields, never inspected *)
}.

Record InstanceReplicasTemplate := {
  irtName : string;
  irtReplicaChanges : Z;
}.

Record ReplicaChanger := {
  rcReplicaChanges : option Z;  (* *int32 *)
  rcInstances : list InstanceReplicasTemplate;
}.

Record ScaleIn := {
  siReplicaChanger : ReplicaChanger;
  siOnlineInstancesToOffline : list string;
}.

Record ScaleOut := {
  soReplicaChanger : ReplicaChanger;
  soNewInstances : list InstanceTemplate;
  soOfflineInstancesToOnline : list string;
}.

Record HorizontalScaling := {
  hsComponentName : string;
  hsReplicas : option Z;        (* *int32, the absolute (overwrite) mode *)
  hsScaleOut : option ScaleOut; (* *ScaleOut *)
  hsScaleIn : option ScaleIn;   (* *ScaleIn *)
}.

Record LastComponentConfiguration := {
  lastReplicas : option Z;      (* *int32 *)
  lastInstances : list InstanceTemplate;
  lastOfflineInstances : list string;
}.

Record ClusterComponentSpec := {
  ccsName : string;
  ccsReplicas : Z;
  ccsInstances : list InstanceTemplate;
  ccsOfflineInstances : list string;
}.

Inductive ClusterPhase :=
| CreatingClusterPhase | RunningClusterPhase | UpdatingClusterPhase
| StoppingClusterPhase | StoppedClusterPhase | DeletingClusterPhase
| FailedClusterPhase | AbnormalClusterPhase.

Inductive OpsPhase :=
| OpsPendingPhase | OpsCreatingPhase | OpsRunningPhase | OpsCancellingPhase
| OpsSucceedPhase | OpsCancelledPhase | OpsFailedPhase | OpsAbortedPhase.

Inductive OpsType :=
| HorizontalScalingType | StartType | StopType | OtherOpsType (name : string).

Record Cluster := {
  clusterName : string;
  clusterPhase : ClusterPhase;
  clusterComponentSpecs : list ClusterComponentSpec;
}.

Record OpsRequest := {
  opsName : string;
  opsAnnotations : gmap string string;
  opsType : OpsType;
  opsHorizontalScalingList : list HorizontalScaling;
  opsPhase : OpsPhase;
  opsLastConfiguration : gmap string LastComponentConfiguration;
}.

Record OpsResource := {
  opsCluster : Cluster;
  opsRequest : OpsRequest;
}.

#[global] Instance InstanceTemplate_eq_dec : EqDecision InstanceTemplate.
Proof. solve_decision. Defined.
#[global] Instance InstanceReplicasTemplate_eq_dec : EqDecision InstanceReplicasTemplate.
Proof. solve_decision. Defined.
#[global] Instance OpsPhase_eq_dec : EqDecision OpsPhase.
Proof. solve_decision. Defined.
#[global] Instance ClusterPhase_eq_dec : EqDecision ClusterPhase.
Proof. solve_decision. Defined.
#[global] Instance OpsType_eq_dec : EqDecision OpsType.
Proof. solve_decision. Defined.

(** The zero value a Go map lookup yields for an absent component. *)
Definition zeroLastConfiguration : LastComponentConfiguration :=
  {| lastReplicas := None; lastInstances := []; lastOfflineInstances := [] |}.

Definition lastConfigurationOf (ops : OpsRequest) (comp : string)
  : LastComponentConfiguration :=
  default zeroLastConfiguration (opsLastConfiguration ops !! comp).

Definition withPhase (ops : OpsRequest) (p : OpsPhase) : OpsRequest :=
  {| opsName := opsName ops; opsAnnotations := opsAnnotations ops;
     opsType := opsType ops;
     opsHorizontalScalingList := opsHorizontalScalingList ops;
     opsPhase := p; opsLastConfiguration := opsLastConfiguration ops |}.

Definition withOpsPhase (opsRes : OpsResource) (p : OpsPhase) : OpsResource :=
  {| opsCluster := opsCluster opsRes;
     opsRequest := withPhase (opsRequest opsRes) p |}.

(** [*lastCompConfiguration.Replicas] *)
Definition derefReplicas (last : LastComponentConfiguration) : result Z :=
  match lastReplicas last with
  | Some r => Ok r
  | None => Panic
  end.

(** ** Collaborators that live outside the handler's file

    The handler calls these functions and constants of other packages; they
    are taken as an interface, and every property below holds for each of
    its implementations. *)

Class Collaborators := {
  (* intctrlcomp.GenerateAllPodNamesToSet: instance name ↦ template name *)
  GenerateAllPodNamesToSet :
    Z → list InstanceTemplate → list string → string → string →
    result (gmap string string);
  (* appsv1alpha1.GetInstanceTemplateName clusterName fullCompName insName *)
  GetInstanceTemplateName : string → string → string → string;
  (* OpsRequest.CountOfflineOrOnlineInstances, a method of the request *)
  CountOfflineOrOnlineInstances :
    OpsRequest → string → string → list string → gmap string Z;
  (* InstanceTemplate.GetReplicas *)
  GetReplicas : InstanceTemplate → Z;
  (* getMissingElementsInSetFromList *)
  getMissingElementsInSetFromList : gset string → list string → list string;
  (* getComponentSpecOrShardingTemplate; [None] is the nil pointer *)
  getComponentSpecOrShardingTemplate :
    Cluster → string → option ClusterComponentSpec;
  (* constant.HscaleValidatePolicyKey, constant.HscaleValidatePolicyStrict *)
  HscaleValidatePolicyKey : string;
  HscaleValidatePolicyStrict : string;
}.

Section Handler.
Context `{Collaborators}.

(** ** getExpectedCompValues and its parts *)

Definition withOnlineInstancesToOffline (si : ScaleIn) (l : list string) : ScaleIn :=
  {| siReplicaChanger := siReplicaChanger si; siOnlineInstancesToOffline := l |}.

Definition withOfflineInstancesToOnline (so : ScaleOut) (l : list string) : ScaleOut :=
  {| soReplicaChanger := soReplicaChanger so;
     soNewInstances := soNewInstances so;
     soOfflineInstancesToOnline := l |}.

(** The names to take offline / online named by the request; empty when the
    corresponding part of the request is nil. *)
Definition toOffline (hs : HorizontalScaling) : list string :=
  match hsScaleIn hs with
  | Some si => siOnlineInstancesToOffline si
  | None => []
  end.

Definition toOnline (hs : HorizontalScaling) : list string :=
  match hsScaleOut hs with
  | Some so => soOfflineInstancesToOnline so
  | None => []
  end.

(** The templates a request introduces, and the per-template changes it
    carries for scale-out and for scale-in. *)
Definition newInstancesOf (hs : HorizontalScaling) : list InstanceTemplate :=
  match hsScaleOut hs with
  | Some so => soNewInstances so
  | None => []
  end.

Definition scaleOutInstances (hs : HorizontalScaling)
  : list InstanceReplicasTemplate :=
  match hsScaleOut hs with
  | Some so => rcInstances (soReplicaChanger so)
  | None => []
  end.

Definition scaleInInstances (hs : HorizontalScaling)
  : list InstanceReplicasTemplate :=
  match hsScaleIn hs with
  | Some si => rcInstances (siReplicaChanger si)
  | None => []
  end.

(** The loops of [filterHorizontalScalingSpec]: insert into a fresh set the
    names that pass the test, then [UnsortedList]. *)
Definition keepNames (P : string → bool) (l : list string) : list string :=
  elements (foldl (λ (s : gset string) n, if P n then {[n]} ∪ s else s) ∅ l).

(** The part of [filterHorizontalScalingSpec] after the pod names are
    generated; it works on the deep copy its caller passes in. *)
Definition filterNames (podSet : gmap string string)
    (offlineInstances : gset string) (hs : HorizontalScaling)
  : HorizontalScaling :=
  let scaleIn :=
    match hsScaleIn hs with
    | Some si =>
        if bool_decide (0 < length (siOnlineInstancesToOffline si)) then
          Some (withOnlineInstancesToOffline si
                  (keepNames (λ n, bool_decide (is_Some (podSet !! n)))
                     (siOnlineInstancesToOffline si)))
        else Some si
    | None => None
    end in
  let scaleOut :=
    match hsScaleOut hs with
    | Some so =>
        if bool_decide (0 < length (soOfflineInstancesToOnline so)) then
          Some (withOfflineInstancesToOnline so
                  (keepNames (λ n, bool_decide (n ∈ offlineInstances))
                     (soOfflineInstancesToOnline so)))
        else Some so
    | None => None
    end in
  {| hsComponentName := hsComponentName hs; hsReplicas := hsReplicas hs;
     hsScaleOut := scaleOut; hsScaleIn := scaleIn |}.

Definition filterHorizontalScalingSpec (opsRes : OpsResource)
    (compReplicas : Z) (compInstanceTpls : list InstanceTemplate)
    (compOfflineInstances : list string) (hs : HorizontalScaling)
  : result HorizontalScaling :=
  let offlineInstances : gset string := list_to_set compOfflineInstances in
  podSet ← GenerateAllPodNamesToSet compReplicas compInstanceTpls
             compOfflineInstances (clusterName (opsCluster opsRes))
             (hsComponentName hs);
  Ok (filterNames podSet offlineInstances hs).

(** The closure [handleOfflineInstances]. *)
Definition handleOfflineInstances
    (baseInstanceNames comparedInstanceNames newOfflineInstances : list string)
  : list string :=
  let instanceNameSet : gset string := list_to_set comparedInstanceNames in
  foldl (λ acc instanceName,
           if bool_decide (instanceName ∈ instanceNameSet) then acc
           else acc ++ [instanceName])
        newOfflineInstances baseInstanceNames.

Definition getCompExpectedOfflineInstances
    (compOfflineInstances : list string) (hs : HorizontalScaling) : list string :=
  let off1 :=
    match hsScaleIn hs with
    | Some si =>
        if bool_decide (0 < length (siOnlineInstancesToOffline si)) then
          handleOfflineInstances (siOnlineInstancesToOffline si)
            compOfflineInstances compOfflineInstances
        else compOfflineInstances
    | None => compOfflineInstances
    end in
  match hsScaleOut hs with
  | Some so =>
      if bool_decide (0 < length (soOfflineInstancesToOnline so)) then
        handleOfflineInstances off1 (soOfflineInstancesToOnline so) []
      else off1
  | None => off1
  end.

(** The aggregate replica changes a request carries for scale-out and for
    scale-in, 0 where there is none. *)
Definition scaleOutChanges (hs : HorizontalScaling) : Z :=
  match hsScaleOut hs with
  | Some so => default 0%Z (rcReplicaChanges (soReplicaChanger so))
  | None => 0%Z
  end.

Definition scaleInChanges (hs : HorizontalScaling) : Z :=
  match hsScaleIn hs with
  | Some si => default 0%Z (rcReplicaChanges (siReplicaChanger si))
  | None => 0%Z
  end.

(** The closure [getSyncedInstancesAndReplicaChanges]. *)
Definition sumReplicas (tpls : list InstanceTemplate) : Z :=
  foldl (λ acc v, add32 acc (GetReplicas v)) 0%Z tpls.

Definition getSyncedInstancesAndReplicaChanges
    (offlineOrOnlineInsCountMap : gmap string Z) (replicaChanger : ReplicaChanger)
    (newInstances : list InstanceTemplate)
  : list InstanceReplicasTemplate * option Z :=
  let insTplMap : gset string :=
    list_to_set (irtName <$> rcInstances replicaChanger) in
  let all0 :=
    foldl (λ acc v, add32 acc (irtReplicaChanges v)) 0%Z
          (rcInstances replicaChanger) in
  let '(instances, all1) :=
    foldl (λ '(ins, acc) '(k, v),
             if bool_decide (k = "") then (ins, add32 acc v)
             else if bool_decide (k ∈ insTplMap) then (ins, acc)
             else (ins ++ [{| irtName := k; irtReplicaChanges := v |}],
                   add32 acc v))
          (rcInstances replicaChanger, all0)
          (map_to_list offlineOrOnlineInsCountMap) in
  let all2 := foldl (λ acc v, add32 acc (GetReplicas v)) all1 newInstances in
  let all3 :=
    match rcReplicaChanges replicaChanger with
    | Some r => r
    | None => all2
    end in
  (instances, Some all3).

(** [autoSyncReplicaChanges] writes through the [ScaleIn] and [ScaleOut]
    pointers of its argument; the model returns the request as it stands
    after the call.  The Go function always returns a nil error. *)
Definition autoSyncReplicaChanges (opsRes : OpsResource) (hs : HorizontalScaling)
  : HorizontalScaling :=
  let cn := clusterName (opsCluster opsRes) in
  let scaleIn :=
    match hsScaleIn hs with
    | Some si =>
        let offlineInsCountMap :=
          CountOfflineOrOnlineInstances (opsRequest opsRes) cn
            (hsComponentName hs) (siOnlineInstancesToOffline si) in
        let '(ins, rc) :=
          getSyncedInstancesAndReplicaChanges offlineInsCountMap
            (siReplicaChanger si) [] in
        Some {| siReplicaChanger :=
                  {| rcReplicaChanges := rc; rcInstances := ins |};
                siOnlineInstancesToOffline := siOnlineInstancesToOffline si |}
    | None => None
    end in
  let scaleOut :=
    match hsScaleOut hs with
    | Some so =>
        let onlineInsCountMap :=
          CountOfflineOrOnlineInstances (opsRequest opsRes) cn
            (hsComponentName hs) (soOfflineInstancesToOnline so) in
        let '(ins, rc) :=
          getSyncedInstancesAndReplicaChanges onlineInsCountMap
            (soReplicaChanger so) (soNewInstances so) in
        Some {| soReplicaChanger :=
                  {| rcReplicaChanges := rc; rcInstances := ins |};
                soNewInstances := soNewInstances so;
                soOfflineInstancesToOnline := soOfflineInstancesToOnline so |}
    | None => None
    end in
  {| hsComponentName := hsComponentName hs; hsReplicas := hsReplicas hs;
     hsScaleOut := scaleOut; hsScaleIn := scaleIn |}.

Definition getCompExpectReplicas (hs : HorizontalScaling) (compReplicas : Z) : Z :=
  match hsReplicas hs with
  | Some r => r
  | None =>
      let r1 :=
        match hsScaleOut hs with
        | Some so =>
            match rcReplicaChanges (soReplicaChanger so) with
            | Some c => add32 compReplicas c
            | None => compReplicas
            end
        | None => compReplicas
        end in
      match hsScaleIn hs with
      | Some si =>
          match rcReplicaChanges (siReplicaChanger si) with
          | Some c => sub32 r1 c
          | None => r1
          end
      | None => r1
      end
  end.

Definition withReplicas (t : InstanceTemplate) (r : Z) : InstanceTemplate :=
  {| tplName := tplName t; tplReplicas := Some r; tplOverrides := tplOverrides t |}.

(** [compInsTplSet]: template name ↦ index, a later duplicate overwriting an
    earlier one. *)
Definition indexByName (tpls : list InstanceTemplate) : gmap string nat :=
  foldl (λ m '(i, t), <[tplName t := i]> m) ∅ (imap pair tpls).

(** The closure [handleInstanceTplReplicaChanges]; the indices of
    [compInsTplSet] are in range of the slice it updates. *)
Definition handleInstanceTplReplicaChanges (compInsTplSet : gmap string nat)
    (instances : list InstanceReplicasTemplate) (isScaleIn : bool)
    (compInstanceTpls : list InstanceTemplate) : list InstanceTemplate :=
  foldl (λ tpls v,
           match compInsTplSet !! irtName v with
           | None => tpls
           | Some compInsIndex =>
               alter (λ t, withReplicas t
                             (if isScaleIn
                              then sub32 (GetReplicas t) (irtReplicaChanges v)
                              else add32 (GetReplicas t) (irtReplicaChanges v)))
                     compInsIndex tpls
           end)
        compInstanceTpls instances.

Definition getCompExpectedInstances (compInstanceTpls : list InstanceTemplate)
    (hs : HorizontalScaling) : list InstanceTemplate :=
  match hsReplicas hs with
  | Some _ => compInstanceTpls
  | None =>
      let compInsTplSet := indexByName compInstanceTpls in
      let tpls1 :=
        match hsScaleOut hs with
        | Some so =>
            handleInstanceTplReplicaChanges compInsTplSet
              (rcInstances (soReplicaChanger so)) false
              (compInstanceTpls ++ soNewInstances so)
        | None => compInstanceTpls
        end in
      match hsScaleIn hs with
      | Some si =>
          handleInstanceTplReplicaChanges compInsTplSet
            (rcInstances (siReplicaChanger si)) true tpls1
      | None => tpls1
      end
  end.

(** The baseline the calculation starts from: the live spec in absolute
    mode, the recorded last configuration otherwise. *)
Definition baseline (compSpec : ClusterComponentSpec)
    (last : LastComponentConfiguration) (hs : HorizontalScaling)
  : result (Z * list InstanceTemplate * list string) :=
  match hsReplicas hs with
  | Some _ =>
      Ok (ccsReplicas compSpec, ccsInstances compSpec,
          ccsOfflineInstances compSpec)
  | None =>
      r ← derefReplicas last ;
      Ok (r, lastInstances last, lastOfflineInstances last)
  end.

Definition getExpectedCompValues (opsRes : OpsResource)
    (compSpec : ClusterComponentSpec) (last : LastComponentConfiguration)
    (hs : HorizontalScaling)
  : result (Z * list InstanceTemplate * list string) :=
  '(compReplicas, compInstanceTpls, compOfflineInstances) ←
     baseline compSpec last hs ;
  filteredHorizontal ← filterHorizontalScalingSpec opsRes compReplicas
                         compInstanceTpls compOfflineInstances hs ;
  let expectOfflineInstances :=
    getCompExpectedOfflineInstances compOfflineInstances filteredHorizontal in
  let synced := autoSyncReplicaChanges opsRes filteredHorizontal in
  Ok (getCompExpectReplicas synced compReplicas,
      getCompExpectedInstances compInstanceTpls synced,
      expectOfflineInstances).


(** ** Validation *)

Definition collectOnlineAndOfflineAndNotExistInstances (instance : list string)
    (offlineInstances : gset string) (currPodSet : gmap string string)
  : gset string * gset string * gset string :=
  foldl (λ '(onlined, offlined, notExist) insName,
           if bool_decide (insName ∈ offlineInstances)
           then (onlined, {[insName]} ∪ offlined, notExist)
           else if bool_decide (is_Some (currPodSet !! insName))
           then ({[insName]} ∪ onlined, offlined, notExist)
           else (onlined, offlined, {[insName]} ∪ notExist))
        (∅, ∅, ∅) instance.

(** The three named results start as nil sets; a nil set has length 0 and
    [Union] on it yields the other operand. *)
Definition collecteAllTypeOfInstancesFromOps (hs : HorizontalScaling)
    (currPodSet : gmap string string) (offlineInstances : gset string)
  : gset string * gset string * gset string :=
  let '(onlinedInstanceFromScaleInOps, notExist1) :=
    match hsScaleIn hs with
    | Some si =>
        if bool_decide (0 < length (siOnlineInstancesToOffline si)) then
          let '(on, _, ne) :=
            collectOnlineAndOfflineAndNotExistInstances
              (siOnlineInstancesToOffline si) offlineInstances currPodSet in
          (on, if bool_decide (0 < size ne) then (∅ : gset string) ∪ ne else ∅)
        else (∅, ∅)
    | None => (∅, ∅)
    end in
  let '(offlinedInstanceFromScaleOutOps, notExist2) :=
    match hsScaleOut hs with
    | Some so =>
        if bool_decide (0 < length (soOfflineInstancesToOnline so)) then
          let '(_, off, ne) :=
            collectOnlineAndOfflineAndNotExistInstances
              (soOfflineInstancesToOnline so) offlineInstances currPodSet in
          (off, if bool_decide (0 < size ne) then notExist1 ∪ ne else notExist1)
        else (∅, notExist1)
    | None => (∅, notExist1)
    end in
  (onlinedInstanceFromScaleInOps, offlinedInstanceFromScaleOutOps, notExist2).

Definition msgDuplicates : string :=
  "instances specified in onlineInstancesToOffline has duplicates".
Definition msgNotOnline (pods : list string) : string :=
  "instances " +:+ dq +:+ joinWith ", " pods +:+ dq +:+
  " specified in onlineInstancesToOffline is not online or not exist".
Definition msgNotOffline (pods : list string) : string :=
  "instances " +:+ dq +:+ joinWith ", " pods +:+ dq +:+
  " specified in offlineInstancesToOnline is not offline or not exist".
Definition msgNotExist (pods : list string) : string :=
  "instances " +:+ dq +:+ joinWith ", " pods +:+ dq +:+
  " specified in the request is not exist".

Definition strictPolicyValidation (hs : HorizontalScaling)
    (onlinedInstanceFromScaleInOps offlinedInstanceFromScaleOutOps : gset string)
  : result unit :=
  let checkOut : result unit :=
    match hsScaleOut hs with
    | Some so =>
        let l := soOfflineInstancesToOnline so in
        if bool_decide (0 < length l) then
          if bool_decide (size offlinedInstanceFromScaleOutOps ≠ length l) then
            match getMissingElementsInSetFromList offlinedInstanceFromScaleOutOps l with
            | [] => Err (FatalError msgDuplicates)
            | unscalablePods => Err (FatalError (msgNotOffline unscalablePods))
            end
          else Ok ()
        else Ok ()
    | None => Ok ()
    end in
  match hsScaleIn hs with
  | Some si =>
      let l := siOnlineInstancesToOffline si in
      if bool_decide (0 < length l) then
        if bool_decide (size onlinedInstanceFromScaleInOps ≠ length l) then
          match getMissingElementsInSetFromList onlinedInstanceFromScaleInOps l with
          | [] => Err (FatalError msgDuplicates)
          | unscalablePods => Err (FatalError (msgNotOnline unscalablePods))
          end
        else checkOut
      else checkOut
  | None => checkOut
  end.

Definition validateHorizontalScalingWithPolicy (opsRes : OpsResource)
    (last : LastComponentConfiguration) (hs : HorizontalScaling) : result unit :=
  r ← derefReplicas last;
  currPodSet ← GenerateAllPodNamesToSet r (lastInstances last)
                 (lastOfflineInstances last) (clusterName (opsCluster opsRes))
                 (hsComponentName hs);
  let offlineInstances : gset string := list_to_set (lastOfflineInstances last) in
  let '(onlined, offlined, notExist) :=
    collecteAllTypeOfInstancesFromOps hs currPodSet offlineInstances in
  if bool_decide (0 < size notExist) then
    Err (FatalError (msgNotExist (elements notExist)))
  else
    match opsAnnotations (opsRequest opsRes) !! HscaleValidatePolicyKey with
    | Some policy =>
        if bool_decide (policy ≠ HscaleValidatePolicyStrict) then Ok ()
        else strictPolicyValidation hs onlined offlined
    | None => strictPolicyValidation hs onlined offlined
    end.

(** ** The created and the deleted instance sets *)

(** [podSet[k] = GetInstanceTemplateName(clusterName, fullCompName, k)] *)
Definition addPod (cn fullCompName : string) (m : gmap string string)
    (k : string) : gmap string string :=
  <[k := GetInstanceTemplateName cn fullCompName k]> m.

(** [for k := range a { if _, ok := b[k]; !ok { set[k] = ... } }] *)
Definition podsNotIn (cn fullCompName : string) (a b : gmap string string)
  : gmap string string :=
  foldl (λ m k, if bool_decide (is_Some (b !! k)) then m
                else addPod cn fullCompName m k)
        ∅ (elements (dom a)).

Definition getCreateAndDeletePodSet (opsRes : OpsResource)
    (last : LastComponentConfiguration) (currCompSpec : ClusterComponentSpec)
    (hs : HorizontalScaling) (fullCompName : string)
  : result (gmap string string * gmap string string) :=
  let cn := clusterName (opsCluster opsRes) in
  r ← derefReplicas last;
  lastPodSet ← GenerateAllPodNamesToSet r (lastInstances last)
                 (lastOfflineInstances last) cn fullCompName;
  '(expectReplicas, expectInstanceTpls, expectOfflineInstances) ←
     getExpectedCompValues opsRes currCompSpec last hs;
  currPodSet ← GenerateAllPodNamesToSet expectReplicas expectInstanceTpls
                 expectOfflineInstances cn fullCompName;
  let createPodSet0 := podsNotIn cn fullCompName currPodSet lastPodSet in
  let deletePodSet0 := podsNotIn cn fullCompName lastPodSet currPodSet in
  let deletePodSet :=
    match hsScaleIn hs with
    | Some si =>
        if bool_decide (0 < length (siOnlineInstancesToOffline si)) then
          foldl (addPod cn fullCompName) deletePodSet0
                (siOnlineInstancesToOffline si)
        else deletePodSet0
    | None => deletePodSet0
    end in
  let createPodSet :=
    match hsScaleOut hs with
    | Some so =>
        if bool_decide (0 < length (soOfflineInstancesToOnline so)) then
          foldl (addPod cn fullCompName) createPodSet0
                (soOfflineInstancesToOnline so)
        else createPodSet0
    | None => createPodSet0
    end in
  if bool_decide (opsPhase (opsRequest opsRes) = OpsCancellingPhase) then
    (* when cancelling this opsRequest, revert the changes. *)
    Ok (deletePodSet, createPodSet)
  else Ok (createPodSet, deletePodSet).

(** ** SaveLastConfiguration, Action and Cancel, per component

    [Action], [SaveLastConfiguration] and [Cancel] hand a closure to a helper
    of the package that runs it on each component the request names.  The
    closures are modelled; one that mutates [compSpec] returns the spec as
    it stands after the call together with the error. *)

(** The closure of [SaveLastConfiguration]. *)
Definition getLastComponentInfo (compSpec : ClusterComponentSpec)
  : LastComponentConfiguration :=
  {| lastReplicas := Some (ccsReplicas compSpec);
     lastInstances := ccsInstances compSpec;
     lastOfflineInstances := ccsOfflineInstances compSpec |}.

Definition msgConservation (comp : string) : string :=
  "the total number of replicas for the instance template can not greater than the number of replicas for component "
  +:+ dq +:+ comp +:+ dq +:+ " after horizontally scaling".

(** The closure [Action] passes to [updateClusterComponentsAndShardings]. *)
Definition Action_update (opsRes : OpsResource) (compSpec : ClusterComponentSpec)
    (hs : HorizontalScaling) : ClusterComponentSpec * result unit :=
  let lastCompConfiguration :=
    lastConfigurationOf (opsRequest opsRes) (hsComponentName hs) in
  match validateHorizontalScalingWithPolicy opsRes lastCompConfiguration hs with
  | Err e => (compSpec, Err e)
  | Panic => (compSpec, Panic)
  | Ok _ =>
      match getExpectedCompValues opsRes compSpec lastCompConfiguration hs with
      | Err e => (compSpec, Err e)
      | Panic => (compSpec, Panic)
      | Ok (replicas, instances, offlineInstances) =>
          let insReplicas := sumReplicas instances in
          if bool_decide (replicas < insReplicas)%Z then
            (compSpec, Err (FatalError (msgConservation (hsComponentName hs))))
          else
            ({| ccsName := ccsName compSpec; ccsReplicas := replicas;
                ccsInstances := instances;
                ccsOfflineInstances := offlineInstances |}, Ok ())
      end
  end.

(** The closure [Cancel] passes to [cancelComponentOps]. *)
Definition Cancel_revert (lastConfig : LastComponentConfiguration)
    (comp : ClusterComponentSpec) : result ClusterComponentSpec :=
  r ← derefReplicas lastConfig;
  Ok {| ccsName := ccsName comp; ccsReplicas := r;
        ccsInstances := lastInstances lastConfig;
        ccsOfflineInstances := lastOfflineInstances lastConfig |}.

(** ** Conflicts with earlier operations *)

Definition msgCreatedByOther (pod opsName : string) : string :=
  "instance " +:+ dq +:+ pod +:+ dq +:+
  " cannot be taken offline as it has been created by another running opsRequest "
  +:+ dq +:+ opsName +:+ dq.

(** The closure [getCreatedOrDeletedPodSet] of
    [checkIntersectionWithEarlierOps]. *)
Definition getCreatedOrDeletedPodSet (opsRes : OpsResource)
    (earlierOpsHScaling : HorizontalScaling) (ops : OpsRequest)
    (hScaling : HorizontalScaling)
  : result (gmap string string * gmap string string) :=
  let lastCompSnapshot :=
    lastConfigurationOf ops (hsComponentName earlierOpsHScaling) in
  match getComponentSpecOrShardingTemplate (opsCluster opsRes)
          (hsComponentName earlierOpsHScaling) with
  | None => Panic
  | Some compSpec =>
      '(r, ins, off) ← getExpectedCompValues opsRes compSpec lastCompSnapshot hScaling;
      getCreateAndDeletePodSet opsRes lastCompSnapshot
        {| ccsName := ccsName compSpec; ccsReplicas := r;
           ccsInstances := ins; ccsOfflineInstances := off |}
        hScaling (hsComponentName hScaling)
  end.

Definition checkIntersectionWithEarlierOps (opsRes : OpsResource)
    (earlierOps : OpsRequest) (currOpsHScaling earlierOpsHScaling : HorizontalScaling)
  : result unit :=
  '(createdPodSetForEarlier, _) ←
     getCreatedOrDeletedPodSet opsRes earlierOpsHScaling earlierOps earlierOpsHScaling;
  '(_, deletedPodSetForCurrent) ←
     getCreatedOrDeletedPodSet opsRes earlierOpsHScaling (opsRequest opsRes) currOpsHScaling;
  match filter (λ k, is_Some (createdPodSetForEarlier !! k))
               (elements (dom deletedPodSetForCurrent)) with
  | [] => Ok ()
  | deletedPod :: _ =>
      Err (FatalError (msgCreatedByOther deletedPod (opsName earlierOps)))
  end.

(** The loop of the closure [Action] passes to
    [abortEarlierOpsRequestWithSameKind].  The closure returns
    [(bool, error)]: [Ok b] is [(b, nil)] and [Err e] is [(false, e)]. *)
Fixpoint abortLoop (opsRes : OpsResource)
    (componentOpsSet : gmap string HorizontalScaling) (earlierOps : OpsRequest)
    (l : list HorizontalScaling) : result bool :=
  match l with
  | [] => Ok false
  | v :: rest =>
      match componentOpsSet !! hsComponentName v with
      | None => Ok false
      | Some currHorizontalScaling =>
          (* abort the opsRequest for overwrite replicas operation. *)
          if bool_decide (hsReplicas currHorizontalScaling ≠ None
                          ∨ hsReplicas v ≠ None) then Ok true
          (* if the earlier opsRequest is pending and not `Overwrite` operator, return false. *)
          else if bool_decide (opsPhase earlierOps = OpsPendingPhase) then Ok false
          else
            (* check if the instance to be taken offline was created by another opsRequest. *)
            _ ← checkIntersectionWithEarlierOps opsRes earlierOps
                  currHorizontalScaling v;
            abortLoop opsRes componentOpsSet earlierOps rest
      end
  end.

Definition Action_abortCondition (opsRes : OpsResource)
    (componentOpsSet : gmap string HorizontalScaling) (earlierOps : OpsRequest)
  : result bool :=
  if bool_decide (opsType earlierOps ∈ [StartType; StopType]) then Ok true
  else abortLoop opsRes componentOpsSet earlierOps
         (opsHorizontalScalingList earlierOps).

End Handler.

(** ** A sample implementation of the collaborators

    Used to run the handler on concrete requests.  Instances are named
    [<cluster>-<component>-<ordinal>] for the default template and
    [<cluster>-<component>-<template>-<ordinal>] for a named template, the
    ordinals counting up from 0 and skipping the names recorded offline. *)
Module Sample.

Definition workloadPrefix (cn comp : string) : string := cn +:+ "-" +:+ comp.

(** [s[:strings.LastIndex(s, sep)]] for the one-character separator. *)
Definition beforeLast (sep : Ascii.ascii) (s : string) : string :=
  let fix dropTo (l : list Ascii.ascii) : list Ascii.ascii :=
    match l with
    | [] => []
    | c :: l' => if bool_decide (c = sep) then l' else dropTo l'
    end in
  String.string_of_list_ascii (rev (dropTo (rev (String.list_ascii_of_string s)))).

Fixpoint stripPrefix (p s : string) : option string :=
  match p, s with
  | EmptyString, _ => Some s
  | String a p', String b s' =>
      if bool_decide (a = b) then stripPrefix p' s' else None
  | String _ _, EmptyString => None
  end.

Definition instanceTemplateName (cn comp ins : string) : string :=
  let compInsKey := beforeLast "-"%char ins in
  if bool_decide (compInsKey = workloadPrefix cn comp) then ""
  else default compInsKey (stripPrefix (workloadPrefix cn comp +:+ "-") compInsKey).

Definition replicasOf (t : InstanceTemplate) : Z := default 1%Z (tplReplicas t).

Fixpoint instanceNames (fuel : nat) (parent : string) (used : gset string)
    (count ordinal : nat) : list string :=
  match fuel, count with
  | S fuel', S count' =>
      let name := parent +:+ "-" +:+ pretty ordinal in
      if bool_decide (name ∈ used)
      then instanceNames fuel' parent used count (S ordinal)
      else name :: instanceNames fuel' parent used count' (S ordinal)
  | _, _ => []
  end.

Definition allPodNames (replicas : Z) (tpls : list InstanceTemplate)
    (offline : list string) (cn comp : string) : result (gmap string string) :=
  let parent := workloadPrefix cn comp in
  let used : gset string := list_to_set offline in
  let total := foldr (λ t acc, (replicasOf t + acc)%Z) 0%Z tpls in
  if bool_decide (replicas < total)%Z then
    Err (OtherError "the replicas of the instance templates exceed the component replicas")
  else
    let gen p n := instanceNames (Z.to_nat n + length offline) p used (Z.to_nat n) 0 in
    let names :=
      gen parent (replicas - total)%Z ++
      flat_map (λ t, gen (parent +:+ "-" +:+ tplName t) (replicasOf t)) tpls in
    Ok (list_to_map ((λ n, (n, instanceTemplateName cn comp n)) <$> names)).

Definition countInstances (cn comp : string) (names : list string) : gmap string Z :=
  foldl (λ m n, let t := instanceTemplateName cn comp n in
                <[t := add32 (default 0%Z (m !! t)) 1]> m) ∅ names.

#[local] Instance collaborators : Collaborators := {|
  GenerateAllPodNamesToSet := allPodNames;
  GetInstanceTemplateName := instanceTemplateName;
  CountOfflineOrOnlineInstances := λ _, countInstances;
  GetReplicas := replicasOf;
  getMissingElementsInSetFromList := λ s l, filter (λ x, x ∉ s) l;
  getComponentSpecOrShardingTemplate := λ c n,
    find (λ cs, bool_decide (ccsName cs = n)) (clusterComponentSpecs c);
  HscaleValidatePolicyKey := "apps.kubeblocks.io/hscale-validate-policy";
  HscaleValidatePolicyStrict := "strict";
|}.

(** A cluster [c] with one component [x] of three replicas, and requests
    against it. *)
Definition tpl (n : string) (r : Z) : InstanceTemplate :=
  {| tplName := n; tplReplicas := Some r; tplOverrides := "" |}.

Definition spec (r : Z) (tpls : list InstanceTemplate) (off : list string)
  : ClusterComponentSpec :=
  {| ccsName := "x"; ccsReplicas := r; ccsInstances := tpls;
     ccsOfflineInstances := off |}.

Definition cluster (cs : ClusterComponentSpec) : Cluster :=
  {| clusterName := "c"; clusterPhase := RunningClusterPhase;
     clusterComponentSpecs := [cs] |}.

Definition noChange : ReplicaChanger :=
  {| rcReplicaChanges := None; rcInstances := [] |}.

Definition scaleInNames (l : list string) : ScaleIn :=
  {| siReplicaChanger := noChange; siOnlineInstancesToOffline := l |}.

Definition scaleOutNames (l : list string) : ScaleOut :=
  {| soReplicaChanger := noChange; soNewInstances := [];
     soOfflineInstancesToOnline := l |}.

Definition scaleOutBy (n : Z) : ScaleOut :=
  {| soReplicaChanger := {| rcReplicaChanges := Some n; rcInstances := [] |};
     soNewInstances := []; soOfflineInstancesToOnline := [] |}.

Definition request (abs : option Z) (out : option ScaleOut) (inn : option ScaleIn)
  : HorizontalScaling :=
  {| hsComponentName := "x"; hsReplicas := abs; hsScaleOut := out;
     hsScaleIn := inn |}.

Definition ops (name : string) (policy : option string) (phase : OpsPhase)
    (hs : HorizontalScaling) (last : ClusterComponentSpec) : OpsRequest :=
  {| opsName := name;
     opsAnnotations :=
       match policy with
       | Some p => {[ "apps.kubeblocks.io/hscale-validate-policy" := p ]}
       | None => ∅
       end;
     opsType := HorizontalScalingType;
     opsHorizontalScalingList := [hs];
     opsPhase := phase;
     opsLastConfiguration := {[ "x" := getLastComponentInfo last ]} |}.

Definition resource (cs : ClusterComponentSpec) (o : OpsRequest) : OpsResource :=
  {| opsCluster := cluster cs; opsRequest := o |}.

(** The requests of the running examples. *)
Definition growBy1 : HorizontalScaling := request None (Some (scaleOutBy 1)) None.

Definition takeOffline (n : string) : HorizontalScaling :=
  request None None (Some (scaleInNames [n])).


Definition absoluteAndOffline : HorizontalScaling :=
  request (Some 3%Z) None (Some (scaleInNames ["c-x-2"])).

(** An absolute replica count, and [c-x-1] in both lists of names. *)
Definition absoluteBothLists : HorizontalScaling :=
  request (Some 3%Z) (Some (scaleOutNames ["c-x-1"]))
    (Some (scaleInNames ["c-x-1"])).

Definition offlineAndOnline : HorizontalScaling :=
  request None (Some (scaleOutNames ["c-x-1"])) (Some (scaleInNames ["c-x-1"])).

Definition swapInstances : HorizontalScaling :=
  request None (Some (scaleOutNames ["c-x-1"])) (Some (scaleInNames ["c-x-2"])).

(** Operation [a], running, grew the component from two to three replicas;
    operation [b] is admitted after it. *)
Definition opsA : OpsRequest :=
  ops "a" None OpsRunningPhase growBy1 (spec 2 [] []).

Definition opsB : OpsRequest :=
  ops "b" None OpsCreatingPhase (takeOffline "c-x-2") (spec 3 [] []).

End Sample.
End HScale.

Module RSM.

(** ** Managed objects (only the fields the transformer touches are split
    out; the rest of each object is carried along unread) *)

Abbreviation MetaMap := (option (gmap string string)).  (* [None] is the nil map *)

Definition lookupM (m : MetaMap) (k : string) : option string :=
  m ≫= (.!! k).

Record ObjectMeta := {
  Namespace : string;
  Name : string;
  Labels : MetaMap;
  Annotations : MetaMap;
  metaRest : string;            (* finalizers, owner references, versions *)
}.

Record PodTemplateSpec := {
  tplMeta : ObjectMeta;
  tplSpec : string;
}.

Record StatefulSetSpec := {
  Replicas : option Z;          (* *int32 *)
  Template : PodTemplateSpec;
  UpdateStrategy : string;
  stsSpecRest : string;         (* selector, service name, claim templates *)
}.

Record StatefulSet := {
  stsMeta : ObjectMeta;
  stsSpec : StatefulSetSpec;
  stsStatus : string;
}.

Record Service := {
  svcMeta : ObjectMeta;
  svcSpec : string;
  svcStatus : string;
}.

Record ConfigMap := {
  cmMeta : ObjectMeta;
  cmImmutable : option bool;
  Data : MetaMap;
  BinaryData : MetaMap;         (* map[string][]byte, the bytes as a string *)
}.

(** [client.Object]: the concrete kinds the transformer builds, and any
    other kind (the debug [Pod], ...). *)
Inductive Object :=
| ObjStatefulSet (o : StatefulSet)
| ObjService (o : Service)
| ObjConfigMap (o : ConfigMap)
| ObjOther (kind : string) (meta : ObjectMeta) (body : string).

Definition kindOf (o : Object) : string :=
  match o with
  | ObjStatefulSet _ => "StatefulSet"
  | ObjService _ => "Service"
  | ObjConfigMap _ => "ConfigMap"
  | ObjOther kind _ _ => kind
  end.

Definition metaOf (o : Object) : ObjectMeta :=
  match o with
  | ObjStatefulSet s => stsMeta s
  | ObjService s => svcMeta s
  | ObjConfigMap c => cmMeta c
  | ObjOther _ m _ => m
  end.

(** [reflect.TypeOf(oldObj) != reflect.TypeOf(newObj)], negated. *)
Definition sameType (a b : Object) : bool :=
  match a, b with
  | ObjStatefulSet _, ObjStatefulSet _ => true
  | ObjService _, ObjService _ => true
  | ObjConfigMap _, ObjConfigMap _ => true
  | ObjOther k _ _, ObjOther k' _ _ => bool_decide (k = k')
  | _, _ => false
  end.

Definition isConfigMap (o : Object) : bool :=
  match o with ObjConfigMap _ => true | _ => false end.

(** [a] where it has a value, [b] elsewhere. *)
Definition orElse (a b : option string) : option string :=
  match a with Some v => Some v | None => b end.

(** ** copyAndMerge *)

Definition withLabels (m : ObjectMeta) (l : MetaMap) : ObjectMeta :=
  {| Namespace := Namespace m; Name := Name m; Labels := l;
     Annotations := Annotations m; metaRest := metaRest m |}.

Definition withAnnotations (m : ObjectMeta) (a : MetaMap) : ObjectMeta :=
  {| Namespace := Namespace m; Name := Name m; Labels := Labels m;
     Annotations := a; metaRest := metaRest m |}.

(** The closure [mergeMetadataMap(originalMap, targetMap)]; every call passes
    the address of a field as [targetMap], so the pointer itself is never
    nil.  The result is the map [*targetMap] holds after the call. *)
Definition mergeMetadataMap (originalMap targetMap : MetaMap) : MetaMap :=
  match originalMap with
  | None => targetMap
  | Some original =>
      Some (map_fold (λ k v (t : gmap string string),
                        if bool_decide (is_Some (t !! k)) then t
                        else <[k := v]> t)
                     (default ∅ targetMap) original)
  end.

(** The closures [copyAndMergeSts], [copyAndMergeSvc] and [copyAndMergeCm]
    write into both of their arguments; each returns the object it returns
    in Go, and its second argument as it stands after the call. *)
Definition copyAndMergeSts (oldSts newSts : StatefulSet)
  : StatefulSet * StatefulSet :=
  let newLabels := mergeMetadataMap (Labels (stsMeta oldSts))
                     (Labels (stsMeta newSts)) in
  let newTplAnnotations :=
    mergeMetadataMap (Annotations (tplMeta (Template (stsSpec oldSts))))
      (Annotations (tplMeta (Template (stsSpec newSts)))) in
  let newTemplate :=
    {| tplMeta := withAnnotations (tplMeta (Template (stsSpec newSts)))
                    newTplAnnotations;
       tplSpec := tplSpec (Template (stsSpec newSts)) |} in
  let newSts' :=
    {| stsMeta := withLabels (stsMeta newSts) newLabels;
       stsSpec := {| Replicas := Replicas (stsSpec newSts);
                     Template := newTemplate;
                     UpdateStrategy := UpdateStrategy (stsSpec newSts);
                     stsSpecRest := stsSpecRest (stsSpec newSts) |};
       stsStatus := stsStatus newSts |} in
  let oldSts' :=
    {| stsMeta := withLabels (stsMeta oldSts) newLabels;
       stsSpec := {| Replicas := Replicas (stsSpec newSts);
                     Template := newTemplate;
                     UpdateStrategy := UpdateStrategy (stsSpec newSts);
                     stsSpecRest := stsSpecRest (stsSpec oldSts) |};
       stsStatus := stsStatus oldSts |} in
  (oldSts', newSts').

Definition copyAndMergeSvc (oldSvc newSvc : Service) : Service * Service :=
  let newAnnotations := mergeMetadataMap (Annotations (svcMeta oldSvc))
                          (Annotations (svcMeta newSvc)) in
  ({| svcMeta := withAnnotations (svcMeta oldSvc) newAnnotations;
      svcSpec := svcSpec newSvc; svcStatus := svcStatus oldSvc |},
   {| svcMeta := withAnnotations (svcMeta newSvc) newAnnotations;
      svcSpec := svcSpec newSvc; svcStatus := svcStatus newSvc |}).

Definition copyAndMergeCm (oldCm newCm : ConfigMap) : ConfigMap * ConfigMap :=
  ({| cmMeta := cmMeta oldCm; cmImmutable := cmImmutable oldCm;
      Data := Data newCm; BinaryData := BinaryData newCm |}, newCm).

(** The kinds [copyAndMerge] has a case for. *)
Definition handledKind (o : Object) : bool :=
  match o with ObjOther _ _ _ => false | _ => true end.

(** Objects live on a heap and are passed by pointer.  A map-valued field is
    held by value in its object: two objects sharing one map is not
    modelled. *)
Abbreviation loc := positive.
Abbreviation heap := (gmap positive Object).

(** [copyAndMerge(oldObj, newObj)]: the heap after the call and the pointer
    returned, [None] for nil.  A pointer that is not on the heap is the nil
    interface: one nil argument differs in type from the other and nil is
    returned; two nil arguments pass the test of the types, and
    [DeepCopyObject] panics. *)
Definition copyAndMerge (h : heap) (oldObj newObj : loc)
  : result (heap * option loc) :=
  match h !! oldObj, h !! newObj with
  | Some o, Some n =>
      if negb (sameType o n) then Ok (h, None)
      else
        let targetObj := fresh (dom h) in
        let h1 := <[targetObj := o]> h in           (* oldObj.DeepCopyObject() *)
        match n, o with
        | ObjStatefulSet ns, ObjStatefulSet os =>
            let '(t, ns') := copyAndMergeSts os ns in
            Ok (<[targetObj := ObjStatefulSet t]>
                  (<[newObj := ObjStatefulSet ns']> h1), Some targetObj)
        | ObjService ns, ObjService os =>
            let '(t, ns') := copyAndMergeSvc os ns in
            Ok (<[targetObj := ObjService t]>
                  (<[newObj := ObjService ns']> h1), Some targetObj)
        | ObjConfigMap nc, ObjConfigMap oc =>
            let '(t, nc') := copyAndMergeCm oc nc in
            Ok (<[targetObj := ObjConfigMap t]>
                  (<[newObj := ObjConfigMap nc']> h1), Some targetObj)
        | _, _ => Ok (h1, Some newObj)
        end
  | None, None => Panic
  | _, _ => Ok (h, None)
  end.

(** The object [copyAndMerge] returns, as a value: what [Transform] hands to
    the client as the new state of an update. *)
Definition mergedObject (o n : Object) : option Object :=
  if negb (sameType o n) then None
  else
    match n, o with
    | ObjStatefulSet ns, ObjStatefulSet os =>
        Some (ObjStatefulSet (copyAndMergeSts os ns).1)
    | ObjService ns, ObjService os => Some (ObjService (copyAndMergeSvc os ns).1)
    | ObjConfigMap nc, ObjConfigMap oc =>
        Some (ObjConfigMap (copyAndMergeCm oc nc).1)
    | _, _ => Some n
    end.

(** ** Transform: the diff of the snapshots and the plan *)

(** Modelled from the spec: [model.GetGVKName] is not part of this file; the
    key of a managed object is its kind, namespace and name
    (ManagedObjectKey). *)
Definition GVKNObjKey : Type := string * string * string.

Definition GetGVKName (o : Object) : GVKNObjKey :=
  (kindOf o, Namespace (metaOf o), Name (metaOf o)).

(** The calls [Transform] issues to the graph client. *)
Inductive Action :=
| Create (obj : Object)
| Update (oldObj : Object) (newObj : option Object)
| Delete (obj : Object)
| DependOn (obj : Object) (deps : list (option Object)).

(** The objects generated from the current spec (the builders are outside
    this model). *)
Record Generated := {
  svc : option Service;         (* nil when the spec has no service *)
  altSvs : list Service;
  headLessSvc : Service;
  envConfig : ConfigMap;
  sts : StatefulSet;
  debugPod : option Object;     (* built in debug mode only *)
}.

Definition objectsOf (g : Generated) : list Object :=
  [ObjService (headLessSvc g); ObjConfigMap (envConfig g); ObjStatefulSet (sts g)]
  ++ option_list (debugPod g)
  ++ option_list (ObjService <$> svc g)
  ++ (ObjService <$> altSvs g).

Definition newSnapshotOf (objects : list Object) : gmap GVKNObjKey Object :=
  foldl (λ m object, <[GetGVKName object := object]> m) ∅ objects.

Section Diff.
Context (oldSnapshot newSnapshot : gmap GVKNObjKey Object).

Definition oldNameSet : gset GVKNObjKey := dom oldSnapshot.
Definition newNameSet : gset GVKNObjKey := dom newSnapshot.
Definition createSet : gset GVKNObjKey := newNameSet ∖ oldNameSet.
Definition updateSet : gset GVKNObjKey := newNameSet ∩ oldNameSet.
Definition deleteSet : gset GVKNObjKey := oldNameSet ∖ newNameSet.

Definition createNewObjects : list Action :=
  omap (λ name, Create <$> newSnapshot !! name) (elements createSet).

Definition updateObjects : list Action :=
  omap (λ name,
          oldObj ← oldSnapshot !! name;
          newObj ← newSnapshot !! name;
          Some (Update oldObj (mergedObject oldObj newObj)))
       (elements updateSet).

(** [compatibilityMode] is [viper.GetBool(FeatureGateRSMCompatibilityMode)]. *)
Definition deleteOrphanObjects (compatibilityMode : bool) : list Action :=
  omap (λ name,
          obj ← oldSnapshot !! name;
          if compatibilityMode && isConfigMap obj then None  (* continue *)
          else Some (Delete obj))
       (elements deleteSet).

End Diff.

Definition handleDependencies (g : Generated) : list Action :=
  [DependOn (ObjStatefulSet (sts g))
     [ObjService <$> svc g; Some (ObjService (headLessSvc g));
      Some (ObjConfigMap (envConfig g))]].

(** [Transform] once the objects are generated and owned and the cache
    snapshot is read; [deleting] is [model.IsObjectDeleting(rsmOrig)]. *)
Definition Transform (deleting compatibilityMode : bool) (g : Generated)
    (oldSnapshot : gmap GVKNObjKey Object) : list Action :=
  if deleting then []
  else
    let newSnapshot := newSnapshotOf (objectsOf g) in
    createNewObjects oldSnapshot newSnapshot
    ++ updateObjects oldSnapshot newSnapshot
    ++ deleteOrphanObjects oldSnapshot newSnapshot compatibilityMode
    ++ handleDependencies g.

(** ** Sample objects *)
Module Sample.

Definition meta (name : string) (labels annotations : MetaMap) : ObjectMeta :=
  {| Namespace := "ns"; Name := name; Labels := labels;
     Annotations := annotations; metaRest := "owned" |}.

Definition oldCm : ConfigMap :=
  {| cmMeta := meta "env" (Some {[ "a" := "1" ]}) None; cmImmutable := None;
     Data := Some {[ "k" := "old" ]}; BinaryData := None |}.

Definition newCm : ConfigMap :=
  {| cmMeta := meta "env" (Some {[ "b" := "2" ]}) None; cmImmutable := None;
     Data := Some {[ "k" := "new" ]}; BinaryData := None |}.

Definition podTemplate (annotations : MetaMap) (spec : string) : PodTemplateSpec :=
  {| tplMeta := {| Namespace := ""; Name := ""; Labels := None;
                   Annotations := annotations; metaRest := "" |};
     tplSpec := spec |}.

Definition oldSts : StatefulSet :=
  {| stsMeta := meta "db" (Some {[ "a" := "1"; "g" := "7" ]})
                  (Some {[ "note" := "kept" ]});
     stsSpec := {| Replicas := Some 3%Z;
                   Template := podTemplate (Some {[ "restart" := "t0" ]}) "image:1";
                   UpdateStrategy := "RollingUpdate";
                   stsSpecRest := "selector" |};
     stsStatus := "ready 3" |}.

Definition newSts : StatefulSet :=
  {| stsMeta := meta "db" (Some {[ "g" := "8" ]}) None;
     stsSpec := {| Replicas := Some 5%Z;
                   Template := podTemplate None "image:2";
                   UpdateStrategy := "OnDelete";
                   stsSpecRest := "selector" |};
     stsStatus := "" |}.

Definition oldPod : Object :=
  ObjOther "Pod" (meta "debug" (Some {[ "a" := "1" ]}) None) "old".
Definition newPod : Object := ObjOther "Pod" (meta "debug" None None) "new".

Definition headless : Service :=
  {| svcMeta := meta "db-headless" None None; svcSpec := "ports";
     svcStatus := "" |}.

Definition generated : Generated :=
  {| svc := None; altSvs := []; headLessSvc := headless; envConfig := newCm;
     sts := newSts; debugPod := None |}.

(** The observed snapshot: the workload, its env config map, and a config
    map and a service that are no longer generated. *)
Definition orphanCm : ConfigMap :=
  {| cmMeta := meta "legacy" None None; cmImmutable := None;
     Data := None; BinaryData := None |}.

Definition orphanSvc : Service :=
  {| svcMeta := meta "db-old" None None; svcSpec := "ports"; svcStatus := "" |}.

Definition observed : gmap GVKNObjKey Object :=
  newSnapshotOf [ObjStatefulSet oldSts; ObjConfigMap oldCm;
                 ObjConfigMap orphanCm; ObjService orphanSvc].

Definition stsHeap : heap :=
  {[ 1%positive := ObjStatefulSet oldSts; 2%positive := ObjStatefulSet newSts ]}.
Definition cmHeap : heap :=
  {[ 1%positive := ObjConfigMap oldCm; 2%positive := ObjConfigMap newCm ]}.
Definition podHeap : heap :=
  {[ 1%positive := oldPod; 2%positive := newPod ]}.

End Sample.

End RSM.

(** * The pod template of the workload
    ([internal/controller/rsm/transformer_object_generation.go],
    [buildStsPodTemplate] and the functions that inject the role probe) *)
Module Probe.

(** ** Data model (k8s.io/api/core/v1 and the workloads API, only the fields
    the injection reads or writes; the rest of a container is carried
    along) *)

Inductive EnvVarSource :=
| FieldRef (fieldPath : string)
| OtherSource (source : string).

Record EnvVar := {
  envName : string;
  envValue : string;
  envValueFrom : option EnvVarSource;
}.

Inductive EnvFromSource :=
| ConfigMapRef (name : string) (optional : option bool)
| OtherEnvFrom (source : string).

Record ContainerPort := {
  cpName : string;
  cpHostPort : Z;               (* int32 *)
  cpContainerPort : Z;          (* int32 *)
  cpProtocol : string;
}.

(** [corev1.Probe] with an exec handler. *)
Record ExecProbe := {
  execCommand : list string;
  InitialDelaySeconds : Z;
  TimeoutSeconds : Z;
  PeriodSeconds : Z;
  SuccessThreshold : Z;
  FailureThreshold : Z;
}.

Record VolumeMount := {
  vmName : string;
  MountPath : string;
}.

Record Container := {
  Name : string;
  Image : string;
  ImagePullPolicy : string;
  Command : list string;
  Env : list EnvVar;
  EnvFrom : list EnvFromSource;
  Ports : list ContainerPort;
  VolumeMounts : list VolumeMount;
  ReadinessProbe : option ExecProbe;   (* nil or set *)
  containerRest : string;
}.

Inductive Volume :=
| EmptyDirVolume (name : string)
| OtherVolume (name source : string).

Record PodTemplateSpec := {
  Volumes : list Volume;
  InitContainers : list Container;
  Containers : list Container;
  templateRest : string;
}.

Record Action := {
  actImage : string;
  actCommand : list string;
}.

Record RoleProbe := {
  ProbeActions : list Action;
  rpInitialDelaySeconds : Z;
  rpTimeoutSeconds : Z;
  rpPeriodSeconds : Z;
  rpSuccessThreshold : Z;
  rpFailureThreshold : Z;
  RoleUpdateMechanism : string;
}.

Record CredentialVar := {
  cvValue : string;
  cvValueFrom : option EnvVarSource;
}.

Record Credential := {
  Username : CredentialVar;
  Password : CredentialVar;
}.

Record ReplicatedStateMachine := {
  rsmRoleProbe : option RoleProbe;      (* Spec.RoleProbe *)
  rsmCredential : option Credential;    (* Spec.Credential *)
  rsmTemplate : PodTemplateSpec;        (* Spec.Template *)
  rsmService : string;                  (* Spec.Service, read by findSvcPort only *)
}.

(** The settings read through viper; an unset string is empty, an unset
    integer is 0. *)
Record Settings := {
  ROLE_PROBE_AGENT_IMAGE : string;
  ROLE_PROBE_SERVICE_PORT : Z;
  ROLE_PROBE_GRPC_PORT : Z;
}.

(** ** What this file takes from the rest of the package: its constants,
    and [findSvcPort].  [grpcHealthProbeArgs p] stands for
    [fmt.Sprintf(grpcHealthProbeArgsFormat, p)]. *)
Class Package := {
  actionSvcPortBase : Z;
  usernameCredentialVarName : string;
  passwordCredentialVarName : string;
  defaultRoleProbeAgentImage : string;
  defaultRoleProbeDaemonPort : Z;
  defaultRoleProbeGRPCPort : Z;
  actionSvcListVarName : string;
  servicePortVarName : string;
  RoleUpdateMechanismVarName : string;
  roleProbeTimeoutVarName : string;
  KBEnvPodName : string;
  KBEnvNamespace : string;
  KBEnvPodUID : string;
  KBEnvNodeName : string;
  grpcHealthProbeBinaryPath : string;
  grpcHealthProbeArgs : Z → string;
  roleProbeBinaryName : string;
  roleProbeContainerName : string;
  roleProbeGRPCPortName : string;
  roleAgentVolumeName : string;
  roleAgentVolumeMountPath : string;
  roleAgentName : string;
  roleAgentInstallerName : string;
  shell2httpImage : string;
  shell2httpBinaryPath : string;
  shell2httpServePath : string;
  defaultActionImage : string;
  findSvcPort : ReplicatedStateMachine → Z;
}.

Definition PullIfNotPresent : string := "IfNotPresent".

(** [json.Marshal] of a [[]int32]: a nil slice is [null]. *)
Definition jsonInt32s (l : list Z) : string :=
  match l with
  | [] => "null"
  | _ => "[" +:+ joinWith "," (pretty <$> l) +:+ "]"
  end.

Definition withContainers (t : PodTemplateSpec) (cs : list Container)
  : PodTemplateSpec :=
  {| Volumes := Volumes t; InitContainers := InitContainers t;
     Containers := cs; templateRest := templateRest t |}.

Section Injection.
Context `{Package}.

(** ** Ports *)

(** [findAllUsedPorts]: the container port and the host port of every port
    of every container, in order. *)
Definition findAllUsedPorts (template : PodTemplateSpec) : list Z :=
  foldl (λ allUsedPorts container,
           foldl (λ allUsedPorts port,
                    allUsedPorts ++ [cpContainerPort port; cpHostPort port])
                 allUsedPorts (Ports container))
        [] (Containers template).

(** The inner loop of [findNextAvailablePort]. *)
Fixpoint available (port : Z) (allUsedPorts : list Z) : bool :=
  match allUsedPorts with
  | [] => true
  | usedPort :: rest =>
      if bool_decide (port = usedPort) then false else available port rest
  end.

(** [for port := base + 1; port < 65535; port++]: the ports tried are those
    from [base + 1] (in int32) up to 65534, in order; the first one that is
    available is returned, and 0 when there is none. *)
Definition findNextAvailablePort (base : Z) (allUsedPorts : list Z) : Z :=
  let first := add32 base 1 in
  default 0%Z
    (snd <$> list_find (λ port, available port allUsedPorts = true)
               (seqZ first (65535 - first))).

(** The loop of [injectRoleProbeContainer] over the probe actions: the
    state is [svcPort] and the slice [actionSvcPorts]. *)
Definition actionSvcPortsOf (probeActions : list Action) (allUsedPorts : list Z)
  : list Z :=
  snd (foldl (λ '(svcPort, actionSvcPorts) _,
                let svcPort := findNextAvailablePort svcPort allUsedPorts in
                (svcPort, actionSvcPorts ++ [svcPort]))
             (actionSvcPortBase, []) probeActions).

(** ** Environment *)

Definition credentialEnvOf (credential : option Credential) : list EnvVar :=
  match credential with
  | Some credential =>
      [ {| envName := usernameCredentialVarName;
           envValue := cvValue (Username credential);
           envValueFrom := cvValueFrom (Username credential) |};
        {| envName := passwordCredentialVarName;
           envValue := cvValue (Password credential);
           envValueFrom := cvValueFrom (Password credential) |} ]
  | None => []
  end.

Definition plainEnv (name value : string) : EnvVar :=
  {| envName := name; envValue := value; envValueFrom := None |}.

Definition fieldEnv (name fieldPath : string) : EnvVar :=
  {| envName := name; envValue := ""; envValueFrom := Some (FieldRef fieldPath) |}.

(** The variable [env] of [injectRoleProbeAgentContainer]. *)
Definition agentEnv (rsm : ReplicatedStateMachine) (roleProbe : RoleProbe)
    (actionSvcList : string) (credentialEnv : list EnvVar) : list EnvVar :=
  let env := credentialEnv in
  let env := env ++ [plainEnv actionSvcListVarName actionSvcList] in
  let env :=
    match rsmCredential rsm with
    | Some credential =>
        (* for compatibility with old probe env var names *)
        env ++ [ {| envName := "KB_SERVICE_USER";
                    envValue := cvValue (Username credential);
                    envValueFrom := cvValueFrom (Username credential) |};
                 {| envName := "KB_SERVICE_PASSWORD";
                    envValue := cvValue (Password credential);
                    envValueFrom := cvValueFrom (Password credential) |} ]
    | None => env
    end in
  (* find service port of the db engine *)
  let servicePort := findSvcPort rsm in
  let env :=
    if bool_decide (0 < servicePort)%Z then
      env ++ [ plainEnv servicePortVarName (pretty servicePort);
               plainEnv "KB_SERVICE_PORT" (pretty servicePort) ]
    else env in
  (* inject role update mechanism env *)
  let env := env ++ [plainEnv RoleUpdateMechanismVarName
                       (RoleUpdateMechanism roleProbe)] in
  (* inject role probe timeout env *)
  let env := env ++ [plainEnv roleProbeTimeoutVarName
                       (pretty (rpTimeoutSeconds roleProbe))] in
  (* lorry related envs *)
  env ++ [ fieldEnv KBEnvPodName "metadata.name";
           fieldEnv KBEnvNamespace "metadata.namespace";
           fieldEnv KBEnvPodUID "metadata.uid";
           fieldEnv KBEnvNodeName "spec.nodeName" ].

(** [slices.IndexFunc(containerEnv, func(v) bool { return v.Name == e.Name }) >= 0] *)
Definition hasEnv (containerEnv : list EnvVar) (e : EnvVar) : bool :=
  existsb (λ v, bool_decide (envName v = envName e)) containerEnv.

(** The loop that adds the variables of [env] to the variables of the role
    probe container. *)
Definition mergeEnv (containerEnv env : list EnvVar) : list EnvVar :=
  foldl (λ containerEnv e,
           if hasEnv containerEnv e then containerEnv    (* continue *)
           else containerEnv ++ [e])
        containerEnv env.

(** ** injectProbeActionContainer *)

Definition agentVolumeMount : VolumeMount :=
  {| vmName := roleAgentVolumeName; MountPath := roleAgentVolumeMountPath |}.

Definition agentPath : string :=
  joinWith "/" [roleAgentVolumeMountPath; roleAgentName].

Definition initContainer : Container :=
  {| Name := roleAgentInstallerName; Image := shell2httpImage;
     ImagePullPolicy := PullIfNotPresent;
     Command := ["cp"; shell2httpBinaryPath; agentPath];
     Env := []; EnvFrom := []; Ports := [];
     VolumeMounts := [agentVolumeMount]; ReadinessProbe := None;
     containerRest := "" |}.

Definition actionContainer (i : nat) (action : Action) (port : Z)
    (credentialEnv : list EnvVar) : Container :=
  let image := if bool_decide (String.length (actImage action) = 0%nat)
               then defaultActionImage else actImage action in
  {| Name := "action-" +:+ pretty i; Image := image;
     ImagePullPolicy := PullIfNotPresent;
     Command := [agentPath; "-port"; pretty port; "-export-all-vars"; "-form";
                 shell2httpServePath; joinWith " " (actCommand action)];
     Env := credentialEnv; EnvFrom := []; Ports := [];
     VolumeMounts := [agentVolumeMount]; ReadinessProbe := None;
     containerRest := "" |}.

(** The loop over the probe actions, from index [i] on; [actionSvcPorts[i]]
    out of range panics. *)
Fixpoint injectActionContainers (i : nat) (actions : list Action)
    (actionSvcPorts : list Z) (credentialEnv : list EnvVar)
    (containers : list Container) : result (list Container) :=
  match actions with
  | [] => Ok containers
  | action :: rest =>
      match actionSvcPorts !! i with
      | None => Panic
      | Some port =>
          injectActionContainers (S i) rest actionSvcPorts credentialEnv
            (containers ++ [actionContainer i action port credentialEnv])
      end
  end.

Definition injectProbeActionContainer (rsm : ReplicatedStateMachine)
    (template : PodTemplateSpec) (actionSvcPorts : list Z)
    (credentialEnv : list EnvVar) : result PodTemplateSpec :=
  match rsmRoleProbe rsm with
  | None => Ok template
  | Some roleProbe =>
      containers ← injectActionContainers 0 (ProbeActions roleProbe)
                     actionSvcPorts credentialEnv (Containers template);
      Ok {| Volumes := Volumes template ++ [EmptyDirVolume roleAgentVolumeName];
            InitContainers := InitContainers template ++ [initContainer];
            Containers := containers;
            templateRest := templateRest template |}
  end.

(** ** injectRoleProbeAgentContainer *)

(** The condition under which [tryToGetRoleProbeContainer] returns a
    container. *)
Definition canProbeRole (image : string) (container : Container) : bool :=
  bool_decide (Image container = image)
  && match Command container with
     | [] => false
     | c :: _ => bool_decide (c = roleProbeBinaryName)
     end
  && match ReadinessProbe container with None => true | Some _ => false end.

(** The first such container, with its index: the pointer
    [&template.Spec.Containers[i]]. *)
Definition tryToGetRoleProbeContainer (image : string)
    (containers : list Container) : option (nat * Container) :=
  list_find (λ c, canProbeRole image c = true) containers.

Definition readinessProbeOf (roleProbe : RoleProbe) (port : Z) : ExecProbe :=
  {| execCommand := [grpcHealthProbeBinaryPath; grpcHealthProbeArgs port];
     InitialDelaySeconds := rpInitialDelaySeconds roleProbe;
     TimeoutSeconds := rpTimeoutSeconds roleProbe;
     PeriodSeconds := rpPeriodSeconds roleProbe;
     SuccessThreshold := rpSuccessThreshold roleProbe;
     FailureThreshold := rpFailureThreshold roleProbe |}.

(** The container with its readiness probe and its environment updated. *)
Definition updateRoleProbeContainer (container : Container)
    (readinessProbe : ExecProbe) (env : list EnvVar) : Container :=
  {| Name := Name container; Image := Image container;
     ImagePullPolicy := ImagePullPolicy container;
     Command := Command container;
     Env := mergeEnv (Env container) env;
     EnvFrom := EnvFrom container; Ports := Ports container;
     VolumeMounts := VolumeMounts container;
     ReadinessProbe := Some readinessProbe;
     containerRest := containerRest container |}.

Definition newRoleProbeContainer (image : string) (probeDaemonPort probeGRPCPort : Z)
    (readinessProbe : ExecProbe) (env : list EnvVar) : Container :=
  {| Name := roleProbeContainerName; Image := image;
     ImagePullPolicy := PullIfNotPresent;
     Command := [roleProbeBinaryName; "--port"; pretty probeDaemonPort;
                 "--grpcport"; pretty probeGRPCPort];
     Env := env; EnvFrom := [];
     Ports := [ {| cpName := roleProbeContainerName; cpHostPort := 0;
                   cpContainerPort := wrap32 probeDaemonPort;
                   cpProtocol := "TCP" |};
                {| cpName := roleProbeGRPCPortName; cpHostPort := 0;
                   cpContainerPort := wrap32 probeGRPCPort;
                   cpProtocol := "TCP" |} ];
     VolumeMounts := []; ReadinessProbe := Some readinessProbe;
     containerRest := "" |}.

(** The image of the role probe agent: the setting, or the default. *)
Definition agentImage (settings : Settings) : string :=
  if bool_decide (String.length (ROLE_PROBE_AGENT_IMAGE settings) = 0%nat)
  then defaultRoleProbeAgentImage else ROLE_PROBE_AGENT_IMAGE settings.

Definition injectRoleProbeAgentContainer (settings : Settings)
    (rsm : ReplicatedStateMachine) (template : PodTemplateSpec)
    (actionSvcList : string) (credentialEnv : list EnvVar)
  : result PodTemplateSpec :=
  match rsmRoleProbe rsm with
  | None => Ok template
  | Some roleProbe =>
      let image := agentImage settings in
      let probeDaemonPort :=
        if bool_decide (ROLE_PROBE_SERVICE_PORT settings = 0%Z)
        then defaultRoleProbeDaemonPort
        else ROLE_PROBE_SERVICE_PORT settings in
      let probeGRPCPort :=
        if bool_decide (ROLE_PROBE_GRPC_PORT settings = 0%Z)
        then defaultRoleProbeGRPCPort
        else ROLE_PROBE_GRPC_PORT settings in
      let env := agentEnv rsm roleProbe actionSvcList credentialEnv in
      match tryToGetRoleProbeContainer image (Containers template) with
      | Some (i, container) =>
          (* if role probe container exists, update the readiness probe, env
             and serving container port *)
          (* presume the second port is the grpc port. *)
          match Ports container !! 1%nat with
          | None => Panic           (* container.Ports[1] out of range *)
          | Some grpcPort =>
              Ok (withContainers template
                    (<[i := updateRoleProbeContainer container
                              (readinessProbeOf roleProbe
                                 (cpContainerPort grpcPort)) env]>
                       (Containers template)))
          end
      | None =>
          (* if role probe container doesn't exist, create a new one *)
          Ok (withContainers template
                (Containers template
                 ++ [newRoleProbeContainer image probeDaemonPort probeGRPCPort
                       (readinessProbeOf roleProbe probeGRPCPort) env]))
      end
  end.

(** ** injectRoleProbeContainer and buildStsPodTemplate *)

Definition injectRoleProbeContainer (settings : Settings)
    (rsm : ReplicatedStateMachine) (template : PodTemplateSpec)
  : result PodTemplateSpec :=
  match rsmRoleProbe rsm with
  | None => Ok template
  | Some roleProbe =>
      let credentialEnv := credentialEnvOf (rsmCredential rsm) in
      let allUsedPorts := findAllUsedPorts template in
      let actionSvcPorts :=
        actionSvcPortsOf (ProbeActions roleProbe) allUsedPorts in
      template ← injectProbeActionContainer rsm template actionSvcPorts
                   credentialEnv;
      let actionSvcList := jsonInt32s actionSvcPorts in
      injectRoleProbeAgentContainer settings rsm template actionSvcList
        credentialEnv
  end.

(** inject env ConfigMap into workload pods only *)
Definition withEnvConfig (envConfigName : string) (container : Container)
  : Container :=
  {| Name := Name container; Image := Image container;
     ImagePullPolicy := ImagePullPolicy container;
     Command := Command container; Env := Env container;
     EnvFrom := EnvFrom container ++ [ConfigMapRef envConfigName (Some false)];
     Ports := Ports container; VolumeMounts := VolumeMounts container;
     ReadinessProbe := ReadinessProbe container;
     containerRest := containerRest container |}.

(** The template [buildStsPodTemplate] returns; [envConfigName] is
    [envConfig.Name]. *)
Definition buildStsPodTemplate (settings : Settings)
    (rsm : ReplicatedStateMachine) (envConfigName : string)
  : result PodTemplateSpec :=
  let template := rsmTemplate rsm in
  let template :=
    withContainers template
      (withEnvConfig envConfigName <$> Containers template) in
  injectRoleProbeContainer settings rsm template.

End Injection.

(** ** Sample values of the constants, and a workload *)
Module Sample.

#[local] Instance package : Package := {|
  actionSvcPortBase := 36500;
  usernameCredentialVarName := "KB_RSM_USERNAME";
  passwordCredentialVarName := "KB_RSM_PASSWORD";
  defaultRoleProbeAgentImage := "apecloud/kubeblocks-tools:latest";
  defaultRoleProbeDaemonPort := 7373;
  defaultRoleProbeGRPCPort := 50001;
  actionSvcListVarName := "KB_RSM_ACTION_SVC_LIST";
  servicePortVarName := "KB_RSM_SERVICE_PORT";
  RoleUpdateMechanismVarName := "KB_RSM_ROLE_UPDATE_MECHANISM";
  roleProbeTimeoutVarName := "KB_RSM_ROLE_PROBE_TIMEOUT";
  KBEnvPodName := "KB_POD_NAME";
  KBEnvNamespace := "KB_NAMESPACE";
  KBEnvPodUID := "KB_POD_UID";
  KBEnvNodeName := "KB_NODENAME";
  grpcHealthProbeBinaryPath := "/bin/grpc_health_probe";
  grpcHealthProbeArgs := λ p, "-addr=:" +:+ pretty p;
  roleProbeBinaryName := "lorry";
  roleProbeContainerName := "kb-role-probe";
  roleProbeGRPCPortName := "probe-grpc-port";
  roleAgentVolumeName := "role-agent";
  roleAgentVolumeMountPath := "/role-probe";
  roleAgentName := "agent";
  roleAgentInstallerName := "role-agent-installer";
  shell2httpImage := "msoap/shell2http:1.16.0";
  shell2httpBinaryPath := "/app/shell2http";
  shell2httpServePath := "/role";
  defaultActionImage := "busybox:latest";
  findSvcPort := λ _, 3306%Z;
|}.

Definition port (name : string) (containerPort hostPort : Z) : ContainerPort :=
  {| cpName := name; cpHostPort := hostPort; cpContainerPort := containerPort;
     cpProtocol := "TCP" |}.

Definition container (name image : string) (command : list string)
    (env : list EnvVar) (ports : list ContainerPort) : Container :=
  {| Name := name; Image := image; ImagePullPolicy := "Always";
     Command := command; Env := env; EnvFrom := []; Ports := ports;
     VolumeMounts := []; ReadinessProbe := None; containerRest := "" |}.

Definition mysql : Container :=
  container "mysql" "mysql:8" ["mysqld"] [plainEnv "KB_POD_NAME" "fixed"]
    [port "mysql" 3306 0; port "x" 36501 36502].

(** A container that can do the role probe job, with its two ports, and one
    with a single port. *)
Definition lorry : Container :=
  container "lorry" "apecloud/kubeblocks-tools:latest" ["lorry"; "--port"; "3501"]
    [plainEnv "KB_RSM_SERVICE_PORT" "1"] [port "http" 3501 0; port "grpc" 50002 0].

Definition lorry1 : Container :=
  container "lorry" "apecloud/kubeblocks-tools:latest" ["lorry"] []
    [port "http" 3501 0].

Definition template (cs : list Container) : PodTemplateSpec :=
  {| Volumes := []; InitContainers := []; Containers := cs;
     templateRest := "" |}.

Definition roleProbe (actions : list Action) : RoleProbe :=
  {| ProbeActions := actions; rpInitialDelaySeconds := 0; rpTimeoutSeconds := 1;
     rpPeriodSeconds := 2; rpSuccessThreshold := 1; rpFailureThreshold := 2;
     RoleUpdateMechanism := "DirectAPIServerEventUpdate" |}.

Definition action (cmd : string) : Action :=
  {| actImage := ""; actCommand := [cmd] |}.

Definition rsm (cs : list Container) (actions : list Action)
  : ReplicatedStateMachine :=
  {| rsmRoleProbe := Some (roleProbe actions); rsmCredential := None;
     rsmTemplate := template cs; rsmService := "" |}.

Definition settings : Settings :=
  {| ROLE_PROBE_AGENT_IMAGE := ""; ROLE_PROBE_SERVICE_PORT := 0;
     ROLE_PROBE_GRPC_PORT := 0 |}.

End Sample.

End Probe.

(** * The data of the env config map
    ([internal/controller/rsm/transformer_object_generation.go],
    [buildEnvConfigData]) *)
Module EnvConfig.

Record MemberStatus := {
  PodName : string;
  IsLeader : bool;
  CanVote : bool;
}.

Record ReplicatedStateMachine := {
  Name : string;
  UID : string;
  Labels : gmap string string;          (* a missing key reads as the empty string *)
  Replicas : option Z;                  (* Spec.Replicas, *int32 *)
  MembersStatus : list MemberStatus;    (* Status.MembersStatus *)
}.

(** What the function takes from the rest of the repository, and
    [strings.ToUpper]. *)
Class Package := {
  KBPrefix : string;
  AppComponentLabelKey : string;
  defaultPodName : string;
  getHeadlessSvcName : ReplicatedStateMachine → string;
  ToUpper : string → string;
}.

(** The last byte of a string (used to tell keys apart). *)
Fixpoint lastChar (s : string) : option Ascii.ascii :=
  match s with
  | EmptyString => None
  | String c EmptyString => Some c
  | String _ rest => lastChar rest
  end.

Section Build.
Context `{Package}.

(** The closure [generateReplicaEnv(prefix)], on the map [envData];
    [replicas] is [int( *set.Spec.Replicas)]. *)
Definition generateReplicaEnv (set : ReplicatedStateMachine) (replicas : Z)
    (prefix : string) (envData : gmap string string) : gmap string string :=
  let svcName := getHeadlessSvcName set in
  foldl (λ envData i,
           let hostNameTplKey := (prefix +:+ pretty i) +:+ "_HOSTNAME" in
           let hostNameTplValue := (Name set +:+ "-") +:+ pretty i in
           <[hostNameTplKey := (hostNameTplValue +:+ ".") +:+ svcName]> envData)
        envData (seqZ 0 replicas).

(** The loop of [generateMemberEnv]: the state is the map and the string
    [followers]. *)
Definition memberStep (prefix : string)
    (st : gmap string string * string) (memberStatus : MemberStatus)
  : gmap string string * string :=
  let '(envData, followers) := st in
  if bool_decide (PodName memberStatus = ""
                  ∨ PodName memberStatus = defaultPodName)
  then (envData, followers)                                   (* continue *)
  else if IsLeader memberStatus
  then (<[prefix +:+ "LEADER" := PodName memberStatus]> envData, followers)
  else if CanVote memberStatus
  then (envData,
        (if bool_decide (0 < String.length followers)%nat
         then followers +:+ "," else followers)
        +:+ PodName memberStatus)
  else (envData, followers).

(** The closure [generateMemberEnv(prefix)]: build member related envs from
    set.Status.MembersStatus. *)
Definition generateMemberEnv (set : ReplicatedStateMachine) (prefix : string)
    (envData : gmap string string) : gmap string string :=
  let '(envData, followers) :=
    foldl (memberStep prefix) (envData, "") (MembersStatus set) in
  if bool_decide (followers ≠ "") then
    <[prefix +:+ "FOLLOWERS" := followers]> envData
  else envData.

Definition buildEnvConfigData (set : ReplicatedStateMachine)
  : result (gmap string string) :=
  let envData : gmap string string := ∅ in
  let uid := UID set in
  match Replicas set with
  | None => Panic                       (* *set.Spec.Replicas *)
  | Some replicas =>
      let strReplicas := pretty replicas in
      let prefix := KBPrefix +:+ "_RSM_" in
      let envData := <[prefix +:+ "N" := strReplicas]> envData in
      let envData := generateReplicaEnv set replicas prefix envData in
      let envData := generateMemberEnv set prefix envData in
      (* set owner uid to let pod know if the owner is recreated *)
      let envData := <[prefix +:+ "OWNER_UID" := uid]> envData in
      if bool_decide (String.length uid < 4)%nat then
        Panic                           (* uid[len(uid)-4:] *)
      else
        let envData :=
          <[prefix +:+ "OWNER_UID_SUFFIX8"
            := String.substring (String.length uid - 4) 4 uid]> envData in
        (* have backward compatible handling for env generated in version
           prior 0.6.0 *)
        let prefix := KBPrefix +:+ "_" in
        let envData := <[prefix +:+ "REPLICA_COUNT" := strReplicas]> envData in
        let envData := generateReplicaEnv set replicas prefix envData in
        let envData := generateMemberEnv set prefix envData in
        let envData := <[prefix +:+ "CLUSTER_UID" := uid]> envData in
        (* have backward compatible handling for CM key with 'compDefName'
           being part of the key name, prior 0.5.0 *)
        let componentDefName :=
          default "" (Labels set !! AppComponentLabelKey) in
        let prefixWithCompDefName :=
          (prefix +:+ ToUpper componentDefName) +:+ "_" in
        let envData :=
          <[prefixWithCompDefName +:+ "N" := strReplicas]> envData in
        let envData :=
          generateReplicaEnv set replicas prefixWithCompDefName envData in
        let envData := generateMemberEnv set prefixWithCompDefName envData in
        let envData :=
          <[prefixWithCompDefName +:+ "CLUSTER_UID" := uid]> envData in
        Ok envData
  end.

End Build.

(** ** Sample values and a workload of three members *)
Module Sample.

#[local] Instance package : Package := {|
  KBPrefix := "KB";
  AppComponentLabelKey := "apps.kubeblocks.io/component-name";
  defaultPodName := "Unknown";
  getHeadlessSvcName := λ set, Name set +:+ "-headless";
  ToUpper := λ s, s;
|}.

Definition member (pod : string) (leader vote : bool) : MemberStatus :=
  {| PodName := pod; IsLeader := leader; CanVote := vote |}.

Definition set (uid : string) : ReplicatedStateMachine :=
  {| Name := "db"; UID := uid;
     Labels := {[ "apps.kubeblocks.io/component-name" := "MYSQL" ]};
     Replicas := Some 3%Z;
     MembersStatus := [member "db-0" true true; member "db-1" false true;
                       member "Unknown" false true; member "db-2" false true] |}.

End Sample.

End EnvConfig.

(** * De-duplication of resources ([dedupResources] of the lifecycle
    package) *)
Module Lifecycle.

Section Dedup.
(** [client.Object] compared with [reflect.DeepEqual]. *)
Context {Object : Type} `{EqDecision Object}.

(** The inner loop: [resource] is deeply equal to one of [objects]. *)
Fixpoint contains (objects : list Object) (resource : Object) : bool :=
  match objects with
  | [] => false
  | object :: rest =>
      if bool_decide (resource = object) then true else contains rest resource
  end.

Definition dedupResources (resources : list Object) : list Object :=
  foldl (λ objects resource,
           if contains objects resource then objects
           else objects ++ [resource])
        [] resources.

End Dedup.

End Lifecycle.
(** * Properties of the horizontal-scaling handler *)

#[local] Set Warnings "-clear-no-such-hyp".

Section HScaleProperties.
Import HScale.
Context `{Collaborators}.

(** ** 32-bit arithmetic *)

Lemma wrap32_id z : int32 z → wrap32 z = z.
Proof.
  unfold int32, wrap32. intros Hz.
  rewrite Z.mod_small; lia.
Qed.

Lemma wrap32_range z : int32 (wrap32 z).
Proof.
  unfold int32, wrap32.
  pose proof (Z.mod_pos_bound (z + 2 ^ 31) (2 ^ 32)) as Hb. lia.
Qed.

Lemma wrap32_wrap32_add a b : wrap32 (wrap32 a + b) = wrap32 (a + b).
Proof.
  unfold wrap32. f_equal.
  replace ((a + 2 ^ 31) `mod` 2 ^ 32 - 2 ^ 31 + b + 2 ^ 31)%Z
    with ((a + 2 ^ 31) `mod` 2 ^ 32 + b)%Z by lia.
  rewrite Zplus_mod_idemp_l. f_equal. lia.
Qed.

Lemma sub32_add32 a b c : sub32 (add32 a b) c = wrap32 (a + b - c).
Proof.
  unfold sub32, add32.
  replace (wrap32 (a + b) - c)%Z with (wrap32 (a + b) + - c)%Z by lia.
  rewrite wrap32_wrap32_add. f_equal; lia.
Qed.

(** When nothing overflows, the 32-bit sum of the template replicas is their
    sum. *)
Lemma sumReplicas_from_exact (tpls : list InstanceTemplate) (acc : Z) :
  Forall (λ t, 0 ≤ GetReplicas t)%Z tpls →
  (0 ≤ acc)%Z →
  (acc + foldr (λ t s, GetReplicas t + s) 0 tpls < 2 ^ 31)%Z →
  foldl (λ a v, add32 a (GetReplicas v)) acc tpls
  = (acc + foldr (λ t s, GetReplicas t + s) 0 tpls)%Z.
Proof.
  intros Hpos. revert acc.
  induction Hpos as [|t tpls Ht Hpos IH]; intros acc Hacc Hlt; simpl in *.
  - lia.
  - assert (0 ≤ foldr (λ t s, GetReplicas t + s) 0 tpls)%Z as Hrest.
    { clear -Hpos. induction Hpos; simpl; lia. }
    unfold add32 at 2. rewrite wrap32_id by (unfold int32; lia).
    rewrite IH by lia. lia.
Qed.

Lemma sumReplicas_exact (tpls : list InstanceTemplate) :
  Forall (λ t, 0 ≤ GetReplicas t)%Z tpls →
  (foldr (λ t s, GetReplicas t + s) 0 tpls < 2 ^ 31)%Z →
  sumReplicas tpls = foldr (λ t s, (GetReplicas t + s)%Z) 0%Z tpls.
Proof.
  intros Hpos Hlt. unfold sumReplicas.
  rewrite sumReplicas_from_exact by (done || lia). lia.
Qed.

(** ** C1: replica conservation at the Action step *)


(** ** The phase and the live spec in the expected topology *)

Lemma autoSyncReplicaChanges_phase opsRes p hs :
  (∀ ops q cn comp l,
     CountOfflineOrOnlineInstances (withPhase ops q) cn comp l
     = CountOfflineOrOnlineInstances ops cn comp l) →
  autoSyncReplicaChanges (withOpsPhase opsRes p) hs
  = autoSyncReplicaChanges opsRes hs.
Proof.
  intros Hcount. unfold autoSyncReplicaChanges.
  cbn [withOpsPhase opsCluster opsRequest].
  destruct (hsScaleIn hs), (hsScaleOut hs); by rewrite ?Hcount.
Qed.

Lemma getExpectedCompValues_phase opsRes p compSpec last hs :
  (∀ ops q cn comp l,
     CountOfflineOrOnlineInstances (withPhase ops q) cn comp l
     = CountOfflineOrOnlineInstances ops cn comp l) →
  getExpectedCompValues (withOpsPhase opsRes p) compSpec last hs
  = getExpectedCompValues opsRes compSpec last hs.
Proof.
  intros Hcount.
  unfold getExpectedCompValues, filterHorizontalScalingSpec.
  cbn [withOpsPhase opsCluster].
  destruct (baseline compSpec last hs) as [[[r i] o]| |]; simpl; [|done..].
  destruct (GenerateAllPodNamesToSet r i o _ _) as [podSet| |];
    simpl; [|done..].
  by rewrite autoSyncReplicaChanges_phase.
Qed.

(** In delta mode the live spec is not read. *)
Lemma getExpectedCompValues_delta opsRes compSpec compSpec' last hs :
  hsReplicas hs = None →
  getExpectedCompValues opsRes compSpec last hs
  = getExpectedCompValues opsRes compSpec' last hs.
Proof.
  intros Hdelta. unfold getExpectedCompValues, baseline. by rewrite Hdelta.
Qed.

(** ** The expected topology *)

Lemma filterNames_replicas pods offs hs :
  hsReplicas (filterNames pods offs hs) = hsReplicas hs.
Proof. reflexivity. Qed.

Lemma filterNames_no_names pods offs hs :
  toOffline hs = [] → toOnline hs = [] → filterNames pods offs hs = hs.
Proof.
  unfold toOffline, toOnline, filterNames. destruct hs as [n a so si]; simpl.
  intros Hin Hout. f_equal.
  - destruct so as [so|]; [|done]. simpl in *. by rewrite Hout.
  - destruct si as [si|]; [|done]. simpl in *. by rewrite Hin.
Qed.

Lemma getCompExpectedOfflineInstances_no_names off hs :
  toOffline hs = [] → toOnline hs = [] →
  getCompExpectedOfflineInstances off hs = off.
Proof.
  unfold toOffline, toOnline, getCompExpectedOfflineInstances.
  destruct (hsScaleIn hs) as [si|], (hsScaleOut hs) as [so|]; simpl;
    intros Hin Hout; by rewrite ?Hin, ?Hout.
Qed.

Lemma getSynced_changes m rc news :
  (getSyncedInstancesAndReplicaChanges m rc news).2
  = Some (default (default 0%Z (getSyncedInstancesAndReplicaChanges m rc news).2)
            (rcReplicaChanges rc)).
Proof.
  unfold getSyncedInstancesAndReplicaChanges.
  destruct (foldl _ _ _) as [ins all1]. simpl.
  by destruct (rcReplicaChanges rc).
Qed.

Lemma autoSync_replicas opsRes hs :
  hsReplicas (autoSyncReplicaChanges opsRes hs) = hsReplicas hs.
Proof. reflexivity. Qed.

(** An aggregate the request states is the aggregate after the sync. *)
Lemma autoSync_scaleOutChanges opsRes hs so c :
  hsScaleOut hs = Some so → rcReplicaChanges (soReplicaChanger so) = Some c →
  scaleOutChanges (autoSyncReplicaChanges opsRes hs) = c.
Proof.
  intros Hso Hc. unfold scaleOutChanges, autoSyncReplicaChanges. simpl.
  rewrite Hso.
  destruct (getSyncedInstancesAndReplicaChanges _ _ _) as [ins rc] eqn:E.
  simpl. pose proof (getSynced_changes
    (CountOfflineOrOnlineInstances (opsRequest opsRes)
       (clusterName (opsCluster opsRes)) (hsComponentName hs)
       (soOfflineInstancesToOnline so))
    (soReplicaChanger so) (soNewInstances so)) as Hs.
  rewrite E, Hc in Hs. simpl in Hs. by rewrite Hs.
Qed.

Lemma autoSync_scaleInChanges opsRes hs si c :
  hsScaleIn hs = Some si → rcReplicaChanges (siReplicaChanger si) = Some c →
  scaleInChanges (autoSyncReplicaChanges opsRes hs) = c.
Proof.
  intros Hsi Hc. unfold scaleInChanges, autoSyncReplicaChanges. simpl.
  rewrite Hsi.
  destruct (getSyncedInstancesAndReplicaChanges _ _ _) as [ins rc] eqn:E.
  simpl. pose proof (getSynced_changes
    (CountOfflineOrOnlineInstances (opsRequest opsRes)
       (clusterName (opsCluster opsRes)) (hsComponentName hs)
       (siOnlineInstancesToOffline si))
    (siReplicaChanger si) []) as Hs.
  rewrite E, Hc in Hs. simpl in Hs. by rewrite Hs.
Qed.

Lemma filterNames_scaleOut_changer pods offs hs so :
  hsScaleOut hs = Some so →
  ∃ so', hsScaleOut (filterNames pods offs hs) = Some so'
         ∧ soReplicaChanger so' = soReplicaChanger so.
Proof.
  intros Hso. unfold filterNames. simpl. rewrite Hso.
  case_bool_decide; eauto.
Qed.

Lemma filterNames_scaleIn_changer pods offs hs si :
  hsScaleIn hs = Some si →
  ∃ si', hsScaleIn (filterNames pods offs hs) = Some si'
         ∧ siReplicaChanger si' = siReplicaChanger si.
Proof.
  intros Hsi. unfold filterNames. simpl. rewrite Hsi.
  case_bool_decide; eauto.
Qed.

Lemma getCompExpectReplicas_delta hs base :
  hsReplicas hs = None → int32 base →
  getCompExpectReplicas hs base
  = wrap32 (base + scaleOutChanges hs - scaleInChanges hs).
Proof.
  intros Hdelta Hbase.
  unfold getCompExpectReplicas, scaleOutChanges, scaleInChanges.
  rewrite Hdelta.
  destruct (hsScaleOut hs) as [so|], (hsScaleIn hs) as [si|]; simpl;
    repeat match goal with
      | |- context [rcReplicaChanges ?x] => destruct (rcReplicaChanges x); simpl
      end;
    rewrite ?sub32_add32; unfold add32, sub32;
    rewrite ?(wrap32_id base) by done;
    try (f_equal; lia);
    try (rewrite <- (wrap32_id base) at 1 by done; f_equal; lia).
Qed.

(** X26.  The expected values as [getExpectedCompValues] computes them.
    With an absolute replica count the result has that count and the
    instance templates of the current spec, the last configuration not
    being read; its offline instances are those of the current spec when
    the request names no instance, and are computed from them and the
    filtered lists of the request otherwise.  In delta mode the baseline is
    the last configuration, the live spec is not read, and the expected
    replica count is the baseline plus the scale-out replica changes minus
    the scale-in replica changes, in 32-bit arithmetic, an aggregate the
    request states being used as it is. *)
Theorem X26_expected_values_by_mode
    (opsRes : OpsResource) (compSpec : ClusterComponentSpec)
    (last : LastComponentConfiguration) (hs : HorizontalScaling) :
  let cn := clusterName (opsCluster opsRes) in
  (∀ n pods,
     hsReplicas hs = Some n →
     GenerateAllPodNamesToSet (ccsReplicas compSpec) (ccsInstances compSpec)
       (ccsOfflineInstances compSpec) cn (hsComponentName hs) = Ok pods →
     let filtered :=
       filterNames pods (list_to_set (ccsOfflineInstances compSpec)) hs in
     getExpectedCompValues opsRes compSpec last hs
     = Ok (n, ccsInstances compSpec,
           getCompExpectedOfflineInstances (ccsOfflineInstances compSpec)
             filtered)
     ∧ (toOffline hs = [] → toOnline hs = [] →
        getExpectedCompValues opsRes compSpec last hs
        = Ok (n, ccsInstances compSpec, ccsOfflineInstances compSpec)))
  ∧ (∀ base pods,
       hsReplicas hs = None →
       lastReplicas last = Some base → int32 base →
       GenerateAllPodNamesToSet base (lastInstances last)
         (lastOfflineInstances last) cn (hsComponentName hs) = Ok pods →
       let filtered :=
         filterNames pods (list_to_set (lastOfflineInstances last)) hs in
       let synced := autoSyncReplicaChanges opsRes filtered in
       getExpectedCompValues opsRes compSpec last hs
       = Ok (wrap32 (base + scaleOutChanges synced - scaleInChanges synced),
             getCompExpectedInstances (lastInstances last) synced,
             getCompExpectedOfflineInstances (lastOfflineInstances last)
               filtered)
       ∧ (∀ so c, hsScaleOut hs = Some so →
                  rcReplicaChanges (soReplicaChanger so) = Some c →
                  scaleOutChanges synced = c)
       ∧ (∀ si c, hsScaleIn hs = Some si →
                  rcReplicaChanges (siReplicaChanger si) = Some c →
                  scaleInChanges synced = c)
       ∧ (hsScaleOut hs = None → scaleOutChanges synced = 0%Z)
       ∧ (hsScaleIn hs = None → scaleInChanges synced = 0%Z)).
Proof.
  intros cn. split.
  - intros n pods Habs Hgen filtered.
    assert (getExpectedCompValues opsRes compSpec last hs
            = Ok (n, ccsInstances compSpec,
                  getCompExpectedOfflineInstances
                    (ccsOfflineInstances compSpec) filtered)) as Hres.
    { unfold getExpectedCompValues, baseline, filterHorizontalScalingSpec.
      rewrite Habs. simpl. fold cn. rewrite Hgen. simpl.
      unfold getCompExpectReplicas, getCompExpectedInstances.
      by rewrite !autoSync_replicas, !filterNames_replicas, Habs. }
    split; [done|]. intros Hin Hout. rewrite Hres. subst filtered.
    rewrite filterNames_no_names by done.
    by rewrite getCompExpectedOfflineInstances_no_names.
  - intros base pods Hdelta Hbase Hrange Hgen filtered synced.
    split; [|split; [|split; [|split]]].
    + unfold getExpectedCompValues, baseline, filterHorizontalScalingSpec,
        derefReplicas.
      rewrite Hdelta, Hbase. simpl. fold cn. rewrite Hgen. simpl.
      fold filtered. fold synced.
      by rewrite getCompExpectReplicas_delta.
    + intros so c Hso Hc.
      destruct (filterNames_scaleOut_changer pods
                  (list_to_set (lastOfflineInstances last)) hs so Hso)
        as (so' & Hso' & Hrc).
      eapply autoSync_scaleOutChanges; [exact Hso'|]. by rewrite Hrc.
    + intros si c Hsi Hc.
      destruct (filterNames_scaleIn_changer pods
                  (list_to_set (lastOfflineInstances last)) hs si Hsi)
        as (si' & Hsi' & Hrc).
      eapply autoSync_scaleInChanges; [exact Hsi'|]. by rewrite Hrc.
    + intros Hso. subst synced filtered.
      unfold scaleOutChanges, autoSyncReplicaChanges, filterNames. simpl.
      by rewrite Hso.
    + intros Hsi. subst synced filtered.
      unfold scaleInChanges, autoSyncReplicaChanges, filterNames. simpl.
      by rewrite Hsi.
Qed.

(** ** C3: conflicts with an earlier operation *)





(** ** C9: validation under the strict and the permissive policy *)

Lemma size_list_to_set_le (l : list string) :
  size (list_to_set l : gset string) ≤ length l.
Proof.
  induction l as [|a l IH].
  - by rewrite list_to_set_nil, size_empty.
  - rewrite list_to_set_cons, size_union_alt, size_singleton. cbn [length].
    assert (size (list_to_set l ∖ {[a]} : gset string)
            ≤ size (list_to_set l : gset string)) as Hsub
      by (apply subseteq_size; set_solver).
    lia.
Qed.

Lemma size_list_to_set_NoDup (l : list string) :
  size (list_to_set l : gset string) = length l → NoDup l.
Proof.
  induction l as [|a l IH]; [constructor|].
  rewrite list_to_set_cons, size_union_alt, size_singleton. cbn [length].
  intros Hsz.
  pose proof (size_list_to_set_le l) as Hle.
  assert (size (list_to_set l ∖ {[a]} : gset string)
          ≤ size (list_to_set l : gset string)) as Hsub
    by (apply subseteq_size; set_solver).
  assert (size (list_to_set l ∖ {[a]} : gset string) = size (list_to_set l : gset string))
    as Heq by lia.
  constructor; [|apply IH; lia].
  intros Hin.
  assert ((list_to_set l ∖ {[a]} : gset string) = list_to_set l) as Hsame.
  { apply set_subseteq_size_eq; [set_solver|lia]. }
  assert (a ∈ (list_to_set l : gset string)) as Ha by by apply elem_of_list_to_set.
  rewrite <- Hsame in Ha. set_solver.
Qed.

(** A set holding the names of [l] that satisfy [P] has the length of [l]
    exactly when [l] has no duplicate and all of its names satisfy [P]: the
    test of [strictPolicyValidation]. *)
Lemma size_named_eq_length (X : gset string) (l : list string) (P : string → Prop) :
  (∀ n, n ∈ X ↔ n ∈ l ∧ P n) →
  size X = length l ↔ NoDup l ∧ ∀ n, n ∈ l → P n.
Proof.
  intros HX.
  assert (X ⊆ list_to_set l) as Hsub.
  { intros n Hn. apply elem_of_list_to_set. by apply HX. }
  split.
  - intros Hsz. pose proof (size_list_to_set_le l) as Hle.
    pose proof (subseteq_size _ _ Hsub) as Hle'.
    split; [apply size_list_to_set_NoDup; lia|].
    assert (X = list_to_set l) as -> by (apply set_subseteq_size_eq; [done|lia]).
    intros n Hn. apply HX. by apply elem_of_list_to_set.
  - intros [Hnd Hall].
    assert (X = list_to_set l) as ->.
    { apply set_eq. intros n. rewrite HX, elem_of_list_to_set. naive_solver. }
    by apply size_list_to_set.
Qed.

Lemma guarded_union (X ne : gset string) :
  (if bool_decide (0 < size ne) then X ∪ ne else X) = X ∪ ne.
Proof.
  case_bool_decide as Hsz; [done|].
  assert (ne = ∅) as -> by (apply leibniz_equiv, size_empty_iff; lia).
  set_solver.
Qed.

Lemma collect_from_spec (l : list string) (offs : gset string)
    (pods : gmap string string) (on0 off0 ne0 : gset string) :
  ∃ on off ne,
    foldl (λ '(onlined, offlined, notExist) insName,
             if bool_decide (insName ∈ offs)
             then (onlined, {[insName]} ∪ offlined, notExist)
             else if bool_decide (is_Some (pods !! insName))
             then ({[insName]} ∪ onlined, offlined, notExist)
             else (onlined, offlined, {[insName]} ∪ notExist))
          (on0, off0, ne0) l = (on, off, ne)
    ∧ (∀ n, n ∈ on ↔ (n ∈ on0 ∨ (n ∈ l ∧ (n ∉ offs) ∧ is_Some (pods !! n))))
    ∧ (∀ n, n ∈ off ↔ (n ∈ off0 ∨ (n ∈ l ∧ n ∈ offs)))
    ∧ (∀ n, n ∈ ne ↔ (n ∈ ne0 ∨ (n ∈ l ∧ (n ∉ offs) ∧ (pods !! n) = None))).
Proof.
  revert on0 off0 ne0.
  induction l as [|a l IH]; intros on0 off0 ne0; simpl.
  - exists on0, off0, ne0. set_solver.
  - case_bool_decide as Hoff; [|case_bool_decide as Hpod].
    + destruct (IH on0 ({[a]} ∪ off0) ne0) as (on & off & ne & -> & Hon & Hof & Hne).
      exists on, off, ne. split; [done|]. split; [|split]; intros n.
      * rewrite Hon. set_solver.
      * rewrite Hof. set_solver.
      * rewrite Hne. set_solver.
    + destruct (IH ({[a]} ∪ on0) off0 ne0) as (on & off & ne & -> & Hon & Hof & Hne).
      exists on, off, ne. split; [done|]. split; [|split]; intros n.
      * rewrite Hon. set_solver.
      * rewrite Hof. set_solver.
      * rewrite Hne. rewrite elem_of_cons. split; [naive_solver|].
        intros [?|[[->|?] [? Hn]]]; [by left| |right; done].
        rewrite Hn in Hpod. by destruct Hpod.
    + destruct (IH on0 off0 ({[a]} ∪ ne0)) as (on & off & ne & -> & Hon & Hof & Hne).
      exists on, off, ne. split; [done|]. split; [|split]; intros n.
      * rewrite Hon. rewrite elem_of_cons. split; [naive_solver|].
        intros [?|[[->|?] [? Hn]]]; [by left|done|right; done].
      * rewrite Hof. set_solver.
      * rewrite Hne. rewrite elem_of_union, elem_of_singleton, elem_of_cons.
        split; [|naive_solver].
        intros [[->|?]|?]; [|by left|naive_solver].
        right. split; [by left|]. split; [done|].
        by apply eq_None_not_Some.
Qed.

Lemma collect_spec l offs pods :
  ∃ on off ne,
    collectOnlineAndOfflineAndNotExistInstances l offs pods = (on, off, ne)
    ∧ (∀ n, n ∈ on ↔ n ∈ l ∧ (n ∉ offs) ∧ is_Some (pods !! n))
    ∧ (∀ n, n ∈ off ↔ n ∈ l ∧ n ∈ offs)
    ∧ (∀ n, n ∈ ne ↔ n ∈ l ∧ (n ∉ offs) ∧ (pods !! n) = None).
Proof.
  destruct (collect_from_spec l offs pods ∅ ∅ ∅)
    as (on & off & ne & Heq & Hon & Hof & Hne).
  exists on, off, ne. split; [done|].
  split; [|split]; intros n; [rewrite Hon|rewrite Hof|rewrite Hne]; set_solver.
Qed.

Lemma collecteAll_spec hs (pods : gmap string string) (offs : gset string) :
  ∃ on off ne,
    collecteAllTypeOfInstancesFromOps hs pods offs = (on, off, ne)
    ∧ (∀ n, n ∈ on ↔ n ∈ toOffline hs ∧ (n ∉ offs) ∧ is_Some (pods !! n))
    ∧ (∀ n, n ∈ off ↔ n ∈ toOnline hs ∧ n ∈ offs)
    ∧ (∀ n, n ∈ ne ↔ (n ∈ toOffline hs ∨ n ∈ toOnline hs)
                     ∧ (n ∉ offs) ∧ (pods !! n) = None).
Proof.
  unfold collecteAllTypeOfInstancesFromOps, toOffline, toOnline.
  assert (∀ l : list string, ¬ 0 < length l → l = []) as Hnil.
  { intros [|??] ?; [done|simpl in *; lia]. }
  destruct (hsScaleIn hs) as [si|], (hsScaleOut hs) as [so|].
  all: try (destruct (collect_spec (siOnlineInstancesToOffline si) offs pods)
              as (on1 & off1 & ne1 & E1 & Hon1 & Hof1 & Hne1); rewrite E1).
  all: try (destruct (collect_spec (soOfflineInstancesToOnline so) offs pods)
              as (on2 & off2 & ne2 & E2 & Hon2 & Hof2 & Hne2); rewrite E2).
  all: rewrite ?guarded_union.
  all: repeat case_bool_decide.
  all: repeat match goal with
         | Hl : ¬ 0 < length _ |- _ => apply Hnil in Hl; rewrite Hl
         | Hs : ¬ 0 < size ?X |- _ =>
             assert (X = ∅) by (apply leibniz_equiv, size_empty_iff; lia);
             clear Hs; subst X
         end.
  all: eexists _, _, _; (split; [reflexivity|]).
  all: (split; [|split]); intros n.
  all: repeat match goal with
         | Hx : ∀ n : string, _ |- _ => specialize (Hx n)
         end.
  all: rewrite ?elem_of_union, ?elem_of_empty, ?elem_of_nil in *.
  all: tauto.
Qed.

Lemma length_pos_nil (l : list string) : ¬ 0 < length l → l = [].
Proof. destruct l; [done|simpl; lia]. Qed.

(** [strictPolicyValidation] on the sets validation computes. *)
Lemma strictPolicyValidation_spec hs (on off : gset string)
    (Pon Poff : string → Prop) :
  (∀ n, n ∈ on ↔ n ∈ toOffline hs ∧ Pon n) →
  (∀ n, n ∈ off ↔ n ∈ toOnline hs ∧ Poff n) →
  let good := (NoDup (toOffline hs) ∧ ∀ n, n ∈ toOffline hs → Pon n)
              ∧ (NoDup (toOnline hs) ∧ ∀ n, n ∈ toOnline hs → Poff n) in
  (good → strictPolicyValidation hs on off = Ok ())
  ∧ (¬ good → ∃ msg, strictPolicyValidation hs on off = Err (FatalError msg))
  ∧ (strictPolicyValidation hs on off = Ok () → good).
Proof.
  intros Hon Hoff good.
  pose proof (size_named_eq_length on (toOffline hs) Pon Hon) as Hin.
  pose proof (size_named_eq_length off (toOnline hs) Poff Hoff) as Hout.
  assert (strictPolicyValidation hs on off
          = if bool_decide (size on ≠ length (toOffline hs)) then
              match getMissingElementsInSetFromList on (toOffline hs) with
              | [] => Err (FatalError msgDuplicates)
              | pods => Err (FatalError (msgNotOnline pods))
              end
            else if bool_decide (size off ≠ length (toOnline hs)) then
              match getMissingElementsInSetFromList off (toOnline hs) with
              | [] => Err (FatalError msgDuplicates)
              | pods => Err (FatalError (msgNotOffline pods))
              end
            else Ok ()) as ->.
  { assert (∀ (X : gset string) (l : list string) (P : string → Prop),
              (∀ n, n ∈ X ↔ n ∈ l ∧ P n) → l = [] → size X = length l) as Hempty.
    { intros X l P HX ->. simpl. apply size_empty_iff.
      intros n. rewrite HX. set_solver. }
    assert (∀ (X : gset string) (l : list string) (P : string → Prop)
              (A B : result unit),
              (∀ n, n ∈ X ↔ n ∈ l ∧ P n) →
              (if bool_decide (0 < length l)
               then if bool_decide (size X ≠ length l) then A else B else B)
              = (if bool_decide (size X ≠ length l) then A else B)) as Hguard.
    { intros X l P A B HX. case_bool_decide as Hl; [done|].
      apply length_pos_nil in Hl.
      rewrite (bool_decide_eq_false_2 (size X ≠ length l)); [done|].
      intros Hne. apply Hne. by eapply Hempty. }
    unfold strictPolicyValidation.
    revert Hon Hoff. unfold toOffline, toOnline.
    destruct (hsScaleIn hs) as [si|], (hsScaleOut hs) as [so|];
      intros Hon Hoff; cbn zeta.
    - rewrite (Hguard off _ Poff) by done. by rewrite (Hguard on _ Pon).
    - rewrite (Hguard on _ Pon) by done.
      rewrite (bool_decide_eq_false_2 (size off ≠ length [])); [done|].
      intros Hne. apply Hne. by eapply Hempty.
    - rewrite (Hguard off _ Poff) by done.
      rewrite (bool_decide_eq_false_2 (size on ≠ length [])); [done|].
      intros Hne. apply Hne. by eapply Hempty.
    - rewrite (bool_decide_eq_false_2 (size on ≠ length [])).
      2:{ intros Hne. apply Hne. by eapply Hempty. }
      rewrite (bool_decide_eq_false_2 (size off ≠ length [])); [done|].
      intros Hne. apply Hne. by eapply Hempty. }
  split; [|split].
  - intros [Hgi Hgo]. apply Hin in Hgi. apply Hout in Hgo.
    rewrite (bool_decide_eq_false_2 (size on ≠ _)) by (by intros ?).
    by rewrite (bool_decide_eq_false_2 (size off ≠ _)) by (by intros ?).
  - intros Hbad. case_bool_decide as H1.
    + destruct (getMissingElementsInSetFromList on _); eauto.
    + case_bool_decide as H2.
      * destruct (getMissingElementsInSetFromList off _); eauto.
      * exfalso. apply Hbad. split; [apply Hin|apply Hout].
        -- destruct (decide (size on = length (toOffline hs))); [done|].
           by destruct H1.
        -- destruct (decide (size off = length (toOnline hs))); [done|].
           by destruct H2.
  - case_bool_decide as H1;
      [by destruct (getMissingElementsInSetFromList on _)|].
    case_bool_decide as H2;
      [by destruct (getMissingElementsInSetFromList off _)|].
    intros _. split; [apply Hin|apply Hout].
    + destruct (decide (size on = length (toOffline hs))); [done|].
      by destruct H1.
    + destruct (decide (size off = length (toOnline hs))); [done|].
      by destruct H2.
Qed.

Lemma validation_outcomes
    (opsRes : OpsResource) (last : LastComponentConfiguration)
    (hs : HorizontalScaling) (r : Z) (pods : gmap string string) :
  lastReplicas last = Some r →
  GenerateAllPodNamesToSet r (lastInstances last) (lastOfflineInstances last)
    (clusterName (opsCluster opsRes)) (hsComponentName hs) = Ok pods →
  let offline n := n ∈ lastOfflineInstances last in
  let online n := (n ∉ lastOfflineInstances last) ∧ is_Some (pods !! n) in
  let named n := n ∈ toOffline hs ∨ n ∈ toOnline hs in
  let policy := opsAnnotations (opsRequest opsRes) !! HscaleValidatePolicyKey in
  let v := validateHorizontalScalingWithPolicy opsRes last hs in
  ((∃ n, named n ∧ ¬ offline n ∧ ¬ online n) →
   ∃ msg, v = Err (FatalError msg))
  ∧ ((∀ n, named n → offline n ∨ online n) →
     (∀ p, policy = Some p → p ≠ HscaleValidatePolicyStrict → v = Ok ())
     ∧ (policy = None ∨ policy = Some HscaleValidatePolicyStrict →
        let good :=
          (NoDup (toOffline hs) ∧ ∀ n, n ∈ toOffline hs → online n)
          ∧ (NoDup (toOnline hs) ∧ ∀ n, n ∈ toOnline hs → offline n) in
        (good → v = Ok ()) ∧ (¬ good → ∃ msg, v = Err (FatalError msg)))).
Proof.
  intros Hr Hgen offline online named policy v.
  subst v. unfold validateHorizontalScalingWithPolicy, derefReplicas.
  rewrite Hr. simpl. rewrite Hgen. simpl.
  destruct (collecteAll_spec hs pods (list_to_set (lastOfflineInstances last)))
    as (on & off & ne & -> & Hon & Hoff & Hne).
  assert (∀ n, n ∈ ne ↔ named n ∧ ¬ offline n ∧ ¬ online n) as Hne'.
  { intros n. rewrite Hne. unfold named, offline, online.
    rewrite elem_of_list_to_set. split.
    - intros (? & ? & Hn). split; [done|]. split; [done|].
      intros [_ Hs]. rewrite Hn in Hs. by destruct Hs.
    - intros (? & Hnoff & Hnon). split; [done|]. split; [done|].
      apply eq_None_not_Some. intros Hs. apply Hnon. by split. }
  split.
  - intros (n & Hn). apply Hne' in Hn.
    rewrite bool_decide_eq_true_2; [eauto|].
    assert (size ne ≠ 0); [|lia].
    intros Hz. apply size_empty_iff in Hz. set_solver.
  - intros Hexist.
    rewrite bool_decide_eq_false_2.
    2:{ assert (ne = ∅) as ->; [|rewrite size_empty; lia].
        apply set_eq. intros n. rewrite Hne'. split; [|set_solver].
        intros (Hnamed & Hnoff & Hnon).
        destruct (Hexist n Hnamed); done. }
    fold policy.
    assert (∀ n, n ∈ on ↔ n ∈ toOffline hs ∧ online n) as Hon'.
    { intros n. rewrite Hon. unfold online. by rewrite elem_of_list_to_set. }
    assert (∀ n, n ∈ off ↔ n ∈ toOnline hs ∧ offline n) as Hoff'.
    { intros n. rewrite Hoff. unfold offline. by rewrite elem_of_list_to_set. }
    pose proof (strictPolicyValidation_spec hs on off online offline Hon' Hoff')
      as (Hs1 & Hs2 & _).
    pose proof (conj Hs1 Hs2) as Hstrict.
    split.
    + intros p -> Hp. by rewrite bool_decide_eq_true_2.
    + intros [->| ->]; [exact Hstrict|].
      by rewrite bool_decide_eq_false_2 by (by intros Hp; apply Hp).
Qed.

(** Under the strict policy a request that is found valid names online
    instances to take offline and offline instances to take online. *)
Lemma validate_strict_Ok (opsRes : OpsResource)
    (last : LastComponentConfiguration) (hs : HorizontalScaling)
    (r : Z) (pods : gmap string string) :
  lastReplicas last = Some r →
  GenerateAllPodNamesToSet r (lastInstances last) (lastOfflineInstances last)
    (clusterName (opsCluster opsRes)) (hsComponentName hs) = Ok pods →
  (opsAnnotations (opsRequest opsRes) !! HscaleValidatePolicyKey = None
   ∨ opsAnnotations (opsRequest opsRes) !! HscaleValidatePolicyKey
     = Some HscaleValidatePolicyStrict) →
  validateHorizontalScalingWithPolicy opsRes last hs = Ok () →
  (∀ n, n ∈ toOffline hs →
        (n ∉ lastOfflineInstances last) ∧ is_Some (pods !! n))
  ∧ (∀ n, n ∈ toOnline hs → n ∈ lastOfflineInstances last).
Proof.
  intros Hr Hgen Hpol.
  unfold validateHorizontalScalingWithPolicy, derefReplicas.
  rewrite Hr. simpl. rewrite Hgen. simpl.
  destruct (collecteAll_spec hs pods (list_to_set (lastOfflineInstances last)))
    as (on & off & ne & -> & Hon & Hoff & Hne).
  case_bool_decide; [intros [=]|].
  assert (∀ n, n ∈ on ↔ n ∈ toOffline hs
               ∧ ((n ∉ lastOfflineInstances last) ∧ is_Some (pods !! n)))
    as Hon'.
  { intros n. rewrite Hon. by rewrite elem_of_list_to_set. }
  assert (∀ n, n ∈ off ↔ n ∈ toOnline hs ∧ n ∈ lastOfflineInstances last)
    as Hoff'.
  { intros n. rewrite Hoff. by rewrite elem_of_list_to_set. }
  destruct (strictPolicyValidation_spec hs on off _ _ Hon' Hoff')
    as (_ & _ & Hinv).
  assert (strictPolicyValidation hs on off = Ok () →
          (∀ n, n ∈ toOffline hs →
                (n ∉ lastOfflineInstances last) ∧ is_Some (pods !! n))
          ∧ (∀ n, n ∈ toOnline hs → n ∈ lastOfflineInstances last)) as Hfin.
  { intros Hok. destruct (Hinv Hok) as [[_ ?] [_ ?]]. by split. }
  destruct Hpol as [-> | ->]; [done|].
  by rewrite bool_decide_eq_false_2 by (by intros Hp; apply Hp).
Qed.

(** C9.  With the instance names of the last configuration derived as
    [pods], an instance is offline when the last configuration lists it
    offline, online when it is not listed offline and is one of [pods], and
    it exists when it is one or the other.  Under both policies a request
    naming an instance that does not exist fails with a fatal error.  When
    every named instance exists: under a policy annotation other than the
    strict one the request is valid; with no annotation, or the strict one,
    it is valid when [onlineInstancesToOffline] has no duplicate and names
    online instances only and [offlineInstancesToOnline] has no duplicate
    and names offline instances only, and fails with a fatal error
    otherwise. *)
Theorem C9_validation_policy
    (opsRes : OpsResource) (last : LastComponentConfiguration)
    (hs : HorizontalScaling) (r : Z) (pods : gmap string string) :
  lastReplicas last = Some r →
  GenerateAllPodNamesToSet r (lastInstances last) (lastOfflineInstances last)
    (clusterName (opsCluster opsRes)) (hsComponentName hs) = Ok pods →
  let offline n := n ∈ lastOfflineInstances last in
  let online n := (n ∉ lastOfflineInstances last) ∧ is_Some (pods !! n) in
  let named n := n ∈ toOffline hs ∨ n ∈ toOnline hs in
  let policy := opsAnnotations (opsRequest opsRes) !! HscaleValidatePolicyKey in
  let v := validateHorizontalScalingWithPolicy opsRes last hs in
  ((∃ n, named n ∧ ¬ offline n ∧ ¬ online n) →
   ∃ msg, v = Err (FatalError msg))
  ∧ ((∀ n, named n → offline n ∨ online n) →
     (∀ p, policy = Some p → p ≠ HscaleValidatePolicyStrict → v = Ok ())
     ∧ (policy = None ∨ policy = Some HscaleValidatePolicyStrict →
        let good :=
          (NoDup (toOffline hs) ∧ ∀ n, n ∈ toOffline hs → online n)
          ∧ (NoDup (toOnline hs) ∧ ∀ n, n ∈ toOnline hs → offline n) in
        (good → v = Ok ()) ∧ (¬ good → ∃ msg, v = Err (FatalError msg)))).
Proof. apply validation_outcomes. Qed.

(** ** C8: the created and the deleted instance sets *)

Lemma dom_foldl_addPod cn full (m : gmap string string) (l : list string) :
  dom (foldl (addPod cn full) m l) = dom m ∪ list_to_set l.
Proof.
  revert m. induction l as [|k l IH]; intros m; simpl.
  - set_solver.
  - rewrite IH. unfold addPod. rewrite dom_insert_L. set_solver.
Qed.

Lemma dom_podsNotIn cn full (a b : gmap string string) :
  dom (podsNotIn cn full a b) = dom a ∖ dom b.
Proof.
  unfold podsNotIn.
  assert (∀ (l : list string) (m : gmap string string),
            dom (foldl (λ m k, if bool_decide (is_Some (b !! k)) then m
                               else addPod cn full m k) m l)
            = dom m ∪ (list_to_set l ∖ dom b)) as Hfold.
  { induction l as [|k l IH]; intros m; simpl; [set_solver|].
    rewrite IH. case_bool_decide as Hk.
    - apply elem_of_dom in Hk. set_solver.
    - rewrite <- elem_of_dom in Hk. unfold addPod. rewrite dom_insert_L.
      set_solver. }
  rewrite Hfold, dom_empty_L, list_to_set_elements_L. set_solver.
Qed.

Lemma dom_named_pods cn full (m : gmap string string) (l : list string) :
  dom (if bool_decide (0 < length l) then foldl (addPod cn full) m l else m)
  = dom m ∪ list_to_set l.
Proof.
  case_bool_decide as Hl; [apply dom_foldl_addPod|].
  apply length_pos_nil in Hl. subst l. set_solver.
Qed.

(** What a successful [getCreateAndDeletePodSet] has computed. *)
Lemma getCreateAndDeletePodSet_Ok opsRes last cur hs full created deleted :
  getCreateAndDeletePodSet opsRes last cur hs full = Ok (created, deleted) →
  ∃ r lastPodSet er ei eo currPodSet,
    lastReplicas last = Some r
    ∧ GenerateAllPodNamesToSet r (lastInstances last)
        (lastOfflineInstances last) (clusterName (opsCluster opsRes)) full
      = Ok lastPodSet
    ∧ getExpectedCompValues opsRes cur last hs = Ok (er, ei, eo)
    ∧ GenerateAllPodNamesToSet er ei eo (clusterName (opsCluster opsRes)) full
      = Ok currPodSet
    ∧ let C := (dom currPodSet ∖ dom lastPodSet) ∪ list_to_set (toOnline hs) in
      let D := (dom lastPodSet ∖ dom currPodSet) ∪ list_to_set (toOffline hs) in
      if bool_decide (opsPhase (opsRequest opsRes) = OpsCancellingPhase)
      then dom created = D ∧ dom deleted = C
      else dom created = C ∧ dom deleted = D.
Proof.
  unfold getCreateAndDeletePodSet, derefReplicas.
  destruct (lastReplicas last) as [r|]; simpl; [|intros [=]].
  destruct (GenerateAllPodNamesToSet r _ _ _ _) as [lastPodSet| |] eqn:Hl;
    simpl; [|intros [=]..].
  destruct (getExpectedCompValues _ _ _ _) as [[[er ei] eo]| |] eqn:He;
    simpl; [|intros [=]..].
  destruct (GenerateAllPodNamesToSet er _ _ _ _) as [currPodSet| |] eqn:Hc;
    simpl; [|intros [=]..].
  intros Hres. exists r, lastPodSet, er, ei, eo, currPodSet.
  do 4 (split; [done|]).
  assert (∀ (o : option (list string)) (m : gmap string string),
            dom (match o with
                 | Some l => if bool_decide (0 < length l)
                             then foldl (addPod (clusterName (opsCluster opsRes)) full) m l
                             else m
                 | None => m
                 end)
            = dom m ∪ list_to_set (default [] o)) as Hnamed.
  { intros [l|] m; simpl; [apply dom_named_pods|set_solver]. }
  assert (dom (match hsScaleIn hs with
               | Some si =>
                   if bool_decide (0 < length (siOnlineInstancesToOffline si))
                   then foldl (addPod (clusterName (opsCluster opsRes)) full)
                          (podsNotIn (clusterName (opsCluster opsRes)) full
                             lastPodSet currPodSet)
                          (siOnlineInstancesToOffline si)
                   else podsNotIn (clusterName (opsCluster opsRes)) full
                          lastPodSet currPodSet
               | None => podsNotIn (clusterName (opsCluster opsRes)) full
                           lastPodSet currPodSet
               end)
          = (dom lastPodSet ∖ dom currPodSet) ∪ list_to_set (toOffline hs))
    as HD.
  { unfold toOffline. destruct (hsScaleIn hs) as [si|].
    - by rewrite dom_named_pods, dom_podsNotIn.
    - rewrite dom_podsNotIn. set_solver. }
  assert (dom (match hsScaleOut hs with
               | Some so =>
                   if bool_decide (0 < length (soOfflineInstancesToOnline so))
                   then foldl (addPod (clusterName (opsCluster opsRes)) full)
                          (podsNotIn (clusterName (opsCluster opsRes)) full
                             currPodSet lastPodSet)
                          (soOfflineInstancesToOnline so)
                   else podsNotIn (clusterName (opsCluster opsRes)) full
                          currPodSet lastPodSet
               | None => podsNotIn (clusterName (opsCluster opsRes)) full
                           currPodSet lastPodSet
               end)
          = (dom currPodSet ∖ dom lastPodSet) ∪ list_to_set (toOnline hs))
    as HC.
  { unfold toOnline. destruct (hsScaleOut hs) as [so|].
    - by rewrite dom_named_pods, dom_podsNotIn.
    - rewrite dom_podsNotIn. set_solver. }
  cbn zeta.
  destruct (bool_decide (opsPhase (opsRequest opsRes) = OpsCancellingPhase));
    injection Hres as <- <-; by rewrite HC, HD.
Qed.

(** C8, as the code has it.  Let [lastPodSet] be the instances derived
    from the last configuration and [currPodSet] those derived from the
    expected topology.  The created set is the instances of [currPodSet]
    that [lastPodSet] does not have, together with every instance the
    request names in [offlineInstancesToOnline]; the deleted set is the
    instances of [lastPodSet] that [currPodSet] does not have, together
    with every instance named in [onlineInstancesToOffline] (the two
    swapped while Cancelling).  The two sets are disjoint exactly when no
    instance is named in both lists, no instance to bring online is dropped
    by the change of topology, and no instance to take offline is added by
    it.  For the component the request names, a request that strict
    validation accepts has disjoint sets, the derivation of instance names
    never yielding an instance that is recorded offline. *)
Theorem C8_created_deleted_sets
    (opsRes : OpsResource) (last : LastComponentConfiguration)
    (cur : ClusterComponentSpec) (hs : HorizontalScaling) (full : string)
    (created deleted : gmap string string) :
  getCreateAndDeletePodSet opsRes last cur hs full = Ok (created, deleted) →
  (∃ (r : Z) (lastPodSet : gmap string string) (er : Z)
     (ei : list InstanceTemplate) (eo : list string)
     (currPodSet : gmap string string),
     lastReplicas last = Some r
     ∧ GenerateAllPodNamesToSet r (lastInstances last)
         (lastOfflineInstances last) (clusterName (opsCluster opsRes)) full
       = Ok lastPodSet
     ∧ getExpectedCompValues opsRes cur last hs = Ok (er, ei, eo)
     ∧ GenerateAllPodNamesToSet er ei eo (clusterName (opsCluster opsRes)) full
       = Ok currPodSet
     ∧ (let C := (dom currPodSet ∖ dom lastPodSet)
                 ∪ list_to_set (toOnline hs) in
        let D := (dom lastPodSet ∖ dom currPodSet)
                 ∪ list_to_set (toOffline hs) in
        if bool_decide (opsPhase (opsRequest opsRes) = OpsCancellingPhase)
        then dom created = D ∧ dom deleted = C
        else dom created = C ∧ dom deleted = D)
     ∧ (dom created ## dom deleted ↔
        (∀ n, n ∈ toOnline hs → n ∈ toOffline hs → False)
        ∧ (∀ n, n ∈ toOnline hs → n ∈ dom lastPodSet → n ∈ dom currPodSet)
        ∧ (∀ n, n ∈ toOffline hs → n ∈ dom currPodSet → n ∈ dom lastPodSet)))
  ∧ ((∀ r ins off cn comp m n,
        GenerateAllPodNamesToSet r ins off cn comp = Ok m →
        n ∈ off → m !! n = None) →
     full = hsComponentName hs →
     (opsAnnotations (opsRequest opsRes) !! HscaleValidatePolicyKey = None
      ∨ opsAnnotations (opsRequest opsRes) !! HscaleValidatePolicyKey
        = Some HscaleValidatePolicyStrict) →
     validateHorizontalScalingWithPolicy opsRes last hs = Ok () →
     dom created ## dom deleted).
Proof.
  intros Hres.
  destruct (getCreateAndDeletePodSet_Ok _ _ _ _ _ _ _ Hres)
    as (r & lastPodSet & er & ei & eo & currPodSet & Hr & Hl & He & Hc & Hdom).
  cbn zeta in Hdom.
  assert (dom created ## dom deleted ↔
          (∀ n, n ∈ toOnline hs → n ∈ toOffline hs → False)
          ∧ (∀ n, n ∈ toOnline hs → n ∈ dom lastPodSet → n ∈ dom currPodSet)
          ∧ (∀ n, n ∈ toOffline hs → n ∈ dom currPodSet → n ∈ dom lastPodSet))
    as Hiff.
  { assert (∀ n (X : gset string), Decision (n ∈ X)) as Hdec by apply _.
    destruct (bool_decide _); destruct Hdom as [-> ->].
    all: rewrite elem_of_disjoint.
    all: setoid_rewrite elem_of_union.
    all: setoid_rewrite elem_of_difference.
    all: setoid_rewrite elem_of_list_to_set.
    all: split.
    all: try (intros Hd; split; [|split]; intros n ? ?;
              [ eapply (Hd n); tauto
              | destruct (decide (n ∈ dom currPodSet)); [done|];
                exfalso; eapply (Hd n); tauto
              | destruct (decide (n ∈ dom lastPodSet)); [done|];
                exfalso; eapply (Hd n); tauto ]).
    all: intros (H1 & H2 & H3) n [[? ?]|?] [[? ?]|?];
           try done; eauto. }
  split.
  - exists r, lastPodSet, er, ei, eo, currPodSet.
    do 4 (split; [done|]). by split.
  - intros Hgen -> Hpol Hvalid.
    destruct (validate_strict_Ok opsRes last hs r lastPodSet Hr Hl Hpol Hvalid)
      as [Hoff Hon].
    apply Hiff. split; [|split].
    + intros n Hn1 Hn2. apply Hon in Hn1. apply Hoff in Hn2 as [Hn2 _]. done.
    + intros n Hn Hd. apply Hon in Hn.
      apply elem_of_dom in Hd as [x Hx].
      by rewrite (Hgen _ _ _ _ _ _ n Hl Hn) in Hx.
    + intros n Hn _. apply Hoff in Hn as [_ Hn]. by apply elem_of_dom.
Qed.

(** ** Cancelling an accepted request *)

Lemma Action_update_Ok opsRes compSpec hs spec' :
  Action_update opsRes compSpec hs = (spec', Ok ()) →
  let last := lastConfigurationOf (opsRequest opsRes) (hsComponentName hs) in
  validateHorizontalScalingWithPolicy opsRes last hs = Ok ()
  ∧ getExpectedCompValues opsRes compSpec last hs
    = Ok (ccsReplicas spec', ccsInstances spec', ccsOfflineInstances spec')
  ∧ ccsName spec' = ccsName compSpec.
Proof.
  unfold Action_update.
  destruct (validateHorizontalScalingWithPolicy _ _ _) as [[]|e|];
    [|intros [=]..].
  destruct (getExpectedCompValues _ _ _ _) as [[[r i] o]|e|]; [|intros [=]..].
  case_bool_decide; intros [= <-]; done.
Qed.

(** With an absolute replica count the last configuration is not read. *)
Lemma getExpectedCompValues_absolute opsRes compSpec last last' hs n :
  hsReplicas hs = Some n →
  getExpectedCompValues opsRes compSpec last hs
  = getExpectedCompValues opsRes compSpec last' hs.
Proof.
  intros Habs. unfold getExpectedCompValues, baseline. by rewrite Habs.
Qed.

(** An absolute request that names no instance: the expected values, when
    there are any, are the count of the request and the templates and the
    offline instances of the live spec. *)
Lemma getExpectedCompValues_absolute_no_names opsRes compSpec last hs n v :
  hsReplicas hs = Some n → toOffline hs = [] → toOnline hs = [] →
  getExpectedCompValues opsRes compSpec last hs = Ok v →
  v = (n, ccsInstances compSpec, ccsOfflineInstances compSpec).
Proof.
  intros Habs Hin Hout.
  unfold getExpectedCompValues, baseline, filterHorizontalScalingSpec.
  rewrite Habs. simpl.
  destruct (GenerateAllPodNamesToSet _ _ _ _ _) as [pods| |]; simpl;
    [|intros [=]..].
  intros [= <-].
  unfold getCompExpectReplicas, getCompExpectedInstances.
  rewrite !autoSync_replicas, !filterNames_replicas, Habs.
  rewrite filterNames_no_names by done.
  by rewrite getCompExpectedOfflineInstances_no_names.
Qed.

(** X25.  Cancelling an accepted request.  Let [C] be the configuration
    recorded as the last configuration and [C'] the spec Action has made of
    it.  The revert writes [C] back, field for field.  For a delta request,
    and for a request with an absolute replica count that names no
    instance, the created and the deleted instance sets computed while
    Cancelling, from the reverted spec, are the sets computed before the
    cancellation, from [C'], swapped.  (The count of named instances per
    template, a method of the request, is assumed not to read the
    phase.) *)
Theorem X25_cancel_round_trip
    (opsRes : OpsResource) (C C' : ClusterComponentSpec)
    (hs : HorizontalScaling) (full : string) (p : OpsPhase)
    (created deleted : gmap string string)
    (Hcount : ∀ ops q cn comp l,
        CountOfflineOrOnlineInstances (withPhase ops q) cn comp l
        = CountOfflineOrOnlineInstances ops cn comp l) :
  Action_update opsRes C hs = (C', Ok ()) →
  Cancel_revert (getLastComponentInfo C) C' = Ok C
  ∧ (p ≠ OpsCancellingPhase →
     hsReplicas hs = None ∨ (toOffline hs = [] ∧ toOnline hs = []) →
     getCreateAndDeletePodSet (withOpsPhase opsRes p)
       (getLastComponentInfo C) C' hs full
     = Ok (created, deleted) →
     getCreateAndDeletePodSet (withOpsPhase opsRes OpsCancellingPhase)
       (getLastComponentInfo C) C hs full
     = Ok (deleted, created)).
Proof.
  intros Hact.
  destruct (Action_update_Ok _ _ _ _ Hact) as (_ & Hexp & Hname).
  split.
  { unfold Cancel_revert, getLastComponentInfo. simpl.
    destruct C; simpl in *. by rewrite Hname. }
  intros Hp Hmode Hpre.
  set (last := getLastComponentInfo C) in *.
  assert (getExpectedCompValues (withOpsPhase opsRes OpsCancellingPhase)
            C last hs
          = getExpectedCompValues (withOpsPhase opsRes p) C' last hs)
    as Heq.
  { rewrite !getExpectedCompValues_phase by done.
    destruct (hsReplicas hs) as [n|] eqn:Habs.
    - destruct Hmode as [?|[Hin Hout]]; [done|].
      rewrite (getExpectedCompValues_absolute opsRes C _ last hs n Habs)
        in Hexp.
      pose proof (getExpectedCompValues_absolute_no_names _ _ _ _ _ _
                    Habs Hin Hout Hexp) as Hv.
      injection Hv as Hr Hi Ho.
      destruct (getCreateAndDeletePodSet_Ok _ _ _ _ _ _ _ Hpre)
        as (r & lastPodSet & er & ei & eo & currPodSet & _ & _ & He & _).
      rewrite getExpectedCompValues_phase in He by done.
      rewrite He, Hexp.
      rewrite (getExpectedCompValues_absolute_no_names _ _ _ _ _ _
                 Habs Hin Hout He).
      by rewrite Hr, Hi, Ho.
    - by apply getExpectedCompValues_delta. }
  clear Hexp Hact. revert Hpre. unfold getCreateAndDeletePodSet. rewrite Heq.
  clear Heq.
  cbn [withOpsPhase opsCluster opsRequest withPhase opsPhase].
  destruct (derefReplicas last) as [r| |]; simpl; [|done..].
  destruct (GenerateAllPodNamesToSet r _ _ _ _) as [lastPodSet| |];
    simpl; [|done..].
  destruct (getExpectedCompValues _ _ _ _) as [[[er ei] eo]| |];
    simpl; [|done..].
  destruct (GenerateAllPodNamesToSet er _ _ _ _) as [currPodSet| |];
    simpl; [|done..].
  rewrite (bool_decide_eq_false_2 (p = OpsCancellingPhase)) by done.
  by intros [= <- <-].
Qed.

End HScaleProperties.

(** ** The handler on concrete requests

    A cluster [c] with one component [x]; instances are named by the sample
    collaborators of [HScale.Sample]. *)

Section HScaleExamples.
Import HScale HScale.Sample.

Lemma sample_names_not_used fuel parent (used : gset string) count ordinal n :
  n ∈ instanceNames fuel parent used count ordinal → n ∉ used.
Proof.
  revert count ordinal.
  induction fuel as [|fuel IH]; intros count ordinal; simpl.
  - by intros ?%elem_of_nil.
  - destruct count as [|count]; [by intros ?%elem_of_nil|].
    case_bool_decide as Hused; [apply IH|].
    intros [->|Hin]%elem_of_cons; [done|]. by eapply IH.
Qed.

Lemma sample_generator_skips_offline r ins off cn comp m n :
  allPodNames r ins off cn comp = Ok m → n ∈ off → m !! n = None.
Proof.
  unfold allPodNames. case_bool_decide; [intros [=]|].
  intros [= <-] Hoff. apply not_elem_of_list_to_map_1.
  rewrite <- list_fmap_compose. simpl. rewrite list_fmap_id.
  intros [Hin|Hin]%elem_of_app.
  - apply sample_names_not_used in Hin. apply Hin. by apply elem_of_list_to_set.
  - apply list_elem_of_In, in_flat_map in Hin as (t & _ & Hin).
    apply list_elem_of_In, sample_names_not_used in Hin.
    apply Hin. by apply elem_of_list_to_set.
Qed.

#[local] Existing Instance collaborators.


Ltac in_list := cbn; repeat constructor.

Ltac not_in_list :=
  let Hn := fresh in
  intros Hn; cbn in Hn;
  repeat (apply elem_of_cons in Hn as [Hn|Hn]; [discriminate|]);
  by apply elem_of_nil in Hn.


(** Taking [c-x-2] offline and cancelling: the spec is back at three
    replicas, and the instance to delete has become the instance to
    create. *)
Lemma X25_cancel_round_trip_witness :
  Cancel_revert (getLastComponentInfo (spec 3 [] [])) (spec 2 [] ["c-x-2"])
  = Ok (spec 3 [] [])
  ∧ getCreateAndDeletePodSet
      (withOpsPhase (resource (spec 3 [] []) opsB) OpsCancellingPhase)
      (getLastComponentInfo (spec 3 [] [])) (spec 3 [] [])
      (takeOffline "c-x-2") "x"
    = Ok ({[ "c-x-2" := "" ]}, ∅).
Proof.
  destruct (X25_cancel_round_trip (H:=collaborators)
              (resource (spec 3 [] []) opsB) (spec 3 [] [])
              (spec 2 [] ["c-x-2"]) (takeOffline "c-x-2") "x" OpsRunningPhase
              ∅ {[ "c-x-2" := "" ]} (λ _ _ _ _ _, eq_refl))
    as [Hrevert Hswap]; [vm_compute; reflexivity|].
  split; [exact Hrevert|].
  apply Hswap; [discriminate|by left|vm_compute; reflexivity].
Defined.

(** C2.  The claim on a request with an absolute replica count in which
    [c-x-1] is both to take offline and to bring online, under a policy
    that is not the strict one.  The last configuration is three replicas,
    nothing offline.  Action accepts the request and records [c-x-1]
    offline.  Before the cancellation the sets computed from that spec are
    [{c-x-1}] to create and [{c-x-1}] to delete.  The cancellation restores
    the last configuration; the sets then computed while Cancelling, from
    the restored spec, are [{c-x-1}] and [{c-x-1, c-x-3}]: not the sets of
    before, swapped. *)
Lemma C2_cancel_after_absolute_request :
  let C := spec 3 [] [] in
  let C' := spec 3 [] ["c-x-1"] in
  let request := ops "b" (Some "ignore") OpsRunningPhase absoluteBothLists C in
  let last := getLastComponentInfo C in
  hsReplicas absoluteBothLists = Some 3%Z
  ∧ Action_update (resource C request) C absoluteBothLists = (C', Ok ())
  ∧ getCreateAndDeletePodSet (resource C' request) last C' absoluteBothLists
      "x"
    = Ok ({[ "c-x-1" := "" ]}, {[ "c-x-1" := "" ]})
  ∧ Cancel_revert last C' = Ok C
  ∧ getCreateAndDeletePodSet
      (withOpsPhase (resource C request) OpsCancellingPhase) last C
      absoluteBothLists "x"
    = Ok ({[ "c-x-1" := "" ]}, {[ "c-x-1" := ""; "c-x-3" := "" ]})
  ∧ ({[ "c-x-1" := ""; "c-x-3" := "" ]} : gmap string string)
    ≠ {[ "c-x-1" := "" ]}.
Proof.
  cbv zeta. split; [reflexivity|].
  split; [vm_compute; reflexivity|].
  split; [vm_compute; reflexivity|].
  split; [reflexivity|].
  split; [vm_compute; reflexivity|].
  intros Heq. apply (f_equal (λ m : gmap string string, m !! "c-x-3")) in Heq.
  vm_compute in Heq. discriminate.
Qed.



(** C4.  The claim on a request with an absolute replica count that also
    names an instance to take offline, on a component of three replicas
    with nothing offline.  The expected replicas are the count of the
    request and the templates are those of the current spec, the two
    functions that compute them returning early on an absolute count; the
    expected offline instances are not those of the current spec: the
    function that computes them has no such test and applies the list of
    the request, and Action writes the result into the spec. *)
Lemma C4_absolute_mode_offline_instances :
  let C := spec 3 [] [] in
  let request := ops "b" None OpsCreatingPhase absoluteAndOffline C in
  hsReplicas absoluteAndOffline = Some 3%Z
  ∧ toOffline absoluteAndOffline = ["c-x-2"]
  ∧ ccsOfflineInstances C = []
  ∧ getExpectedCompValues (resource C request) C (getLastComponentInfo C)
      absoluteAndOffline
    = Ok (3%Z, [], ["c-x-2"])
  ∧ Action_update (resource C request) C absoluteAndOffline
    = (spec 3 [] ["c-x-2"], Ok ())
  ∧ (∀ compReplicas,
       getCompExpectReplicas absoluteAndOffline compReplicas = 3%Z)
  ∧ (∀ compInstanceTpls,
       getCompExpectedInstances compInstanceTpls absoluteAndOffline
       = compInstanceTpls)
  ∧ getCompExpectedOfflineInstances [] absoluteAndOffline = ["c-x-2"].
Proof.
  cbv zeta. split; [reflexivity|]. split; [reflexivity|].
  split; [reflexivity|].
  split; [vm_compute; reflexivity|].
  split; [vm_compute; reflexivity|].
  split; [reflexivity|]. split; [reflexivity|].
  vm_compute. reflexivity.
Qed.

(** The two modes on concrete requests. *)
Lemma X26_expected_values_by_mode_witness :
  getExpectedCompValues
    (resource (spec 3 [] [])
       (ops "b" None OpsCreatingPhase absoluteAndOffline (spec 3 [] [])))
    (spec 3 [] []) zeroLastConfiguration absoluteAndOffline
  = Ok (3%Z, [], ["c-x-2"])
  ∧ getExpectedCompValues (resource (spec 5 [] []) opsA) (spec 5 [] [])
      (getLastComponentInfo (spec 2 [] [])) growBy1
    = Ok (3%Z, [], []).
Proof.
  split.
  - pose proof (X26_expected_values_by_mode (H:=collaborators)
                  (resource (spec 3 [] [])
                     (ops "b" None OpsCreatingPhase absoluteAndOffline
                        (spec 3 [] [])))
                  (spec 3 [] []) zeroLastConfiguration absoluteAndOffline)
      as Hc.
    cbv zeta in Hc. destruct Hc as [Habs _].
    etrans; [refine (proj1 (Habs 3%Z _ eq_refl _)); vm_compute; reflexivity|].
    vm_compute. reflexivity.
  - pose proof (X26_expected_values_by_mode (H:=collaborators) (resource (spec 5 [] []) opsA)
                  (spec 5 [] []) (getLastComponentInfo (spec 2 [] [])) growBy1)
      as Hc.
    cbv zeta in Hc. destruct Hc as [_ Hdelta].
    etrans; [refine (proj1 (Hdelta 2%Z _ eq_refl eq_refl _ _))|].
    + unfold int32. lia.
    + vm_compute. reflexivity.
    + vm_compute. reflexivity.
Defined.

(** Under the permissive policy the request [offlineAndOnline] is accepted,
    and [c-x-1] is then both to create and to delete. *)
Lemma C8_counterexample :
  ∃ created deleted,
    Action_update
      (resource (spec 3 [] [])
         (ops "b" (Some "ignore") OpsRunningPhase offlineAndOnline (spec 3 [] [])))
      (spec 3 [] []) offlineAndOnline
    = (spec 2 [] ["c-x-1"], Ok ())
    ∧ getCreateAndDeletePodSet
        (resource (spec 2 [] ["c-x-1"])
           (ops "b" (Some "ignore") OpsRunningPhase offlineAndOnline (spec 3 [] [])))
        (getLastComponentInfo (spec 3 [] [])) (spec 2 [] ["c-x-1"])
        offlineAndOnline "x"
      = Ok (created, deleted)
    ∧ "c-x-1" ∈ dom created ∧ "c-x-1" ∈ dom deleted.
Proof.
  exists {[ "c-x-1" := "" ]}, {[ "c-x-1" := "" ]}.
  split; [vm_compute; reflexivity|].
  split; [vm_compute; reflexivity|].
  split; apply elem_of_dom; eexists; vm_compute; reflexivity.
Qed.

(** With [c-x-1] offline, bringing it online and taking [c-x-2] offline
    passes strict validation; the sets are [{c-x-1}] and [{c-x-2}]. *)
Lemma C8_created_deleted_sets_witness :
  dom ({[ "c-x-1" := "" ]} : gmap string string)
  ## dom ({[ "c-x-2" := "" ]} : gmap string string).
Proof.
  refine (proj2 (C8_created_deleted_sets (H:=collaborators)
                   (resource (spec 3 [] ["c-x-1"])
                      (ops "b" None OpsRunningPhase swapInstances
                         (spec 3 [] ["c-x-1"])))
                   (getLastComponentInfo (spec 3 [] ["c-x-1"]))
                   (spec 3 [] ["c-x-2"]) swapInstances "x"
                   {[ "c-x-1" := "" ]} {[ "c-x-2" := "" ]} _) _ _ _ _).
  - vm_compute. reflexivity.
  - exact sample_generator_skips_offline.
  - reflexivity.
  - left. vm_compute. reflexivity.
  - vm_compute. reflexivity.
Defined.

Lemma C9_validation_policy_witness :
  validateHorizontalScalingWithPolicy
    (resource (spec 3 [] ["c-x-1"])
       (ops "b" None OpsCreatingPhase swapInstances (spec 3 [] ["c-x-1"])))
    (getLastComponentInfo (spec 3 [] ["c-x-1"])) swapInstances
  = Ok ()
  ∧ ∃ msg,
      validateHorizontalScalingWithPolicy
        (resource (spec 3 [] [])
           (ops "b" (Some "ignore") OpsCreatingPhase (takeOffline "c-x-9")
              (spec 3 [] [])))
        (getLastComponentInfo (spec 3 [] [])) (takeOffline "c-x-9")
      = Err (FatalError msg).
Proof.
  split.
  - refine (proj1 (proj2 (proj2
              (C9_validation_policy (H:=collaborators)
                 (resource (spec 3 [] ["c-x-1"])
                    (ops "b" None OpsCreatingPhase swapInstances
                       (spec 3 [] ["c-x-1"])))
                 (getLastComponentInfo (spec 3 [] ["c-x-1"])) swapInstances
                 3%Z {[ "c-x-0" := ""; "c-x-2" := ""; "c-x-3" := "" ]}
                 eq_refl _) _) _) _).
    + vm_compute. reflexivity.
    + intros n [Hn|Hn]; apply list_elem_of_singleton in Hn as ->.
      * right. split; [not_in_list|]. eexists. vm_compute. reflexivity.
      * left. in_list.
    + left. vm_compute. reflexivity.
    + split; split.
      * apply NoDup_singleton.
      * intros n Hn. apply list_elem_of_singleton in Hn as ->.
        split; [not_in_list|]. eexists. vm_compute. reflexivity.
      * apply NoDup_singleton.
      * intros n Hn. apply list_elem_of_singleton in Hn as ->. in_list.
  - refine (proj1 (C9_validation_policy (H:=collaborators)
                     (resource (spec 3 [] [])
                        (ops "b" (Some "ignore") OpsCreatingPhase
                           (takeOffline "c-x-9") (spec 3 [] [])))
                     (getLastComponentInfo (spec 3 [] [])) (takeOffline "c-x-9")
                     3%Z {[ "c-x-0" := ""; "c-x-1" := ""; "c-x-2" := "" ]}
                     eq_refl _) _).
    + vm_compute. reflexivity.
    + exists "c-x-9". split; [left; in_list|].
      split; [not_in_list|].
      intros [_ [v Hv]]. vm_compute in Hv. discriminate.
Defined.

End HScaleExamples.

(** * Properties of the object-generation transformer *)

Section RSMProperties.
Import RSM.

(** ** C5 and C7: the diff and the plan *)

Lemma diff_sets_partition (oldSnapshot newSnapshot : gmap GVKNObjKey Object) :
  createSet oldSnapshot newSnapshot ## updateSet oldSnapshot newSnapshot
  ∧ createSet oldSnapshot newSnapshot ## deleteSet oldSnapshot newSnapshot
  ∧ updateSet oldSnapshot newSnapshot ## deleteSet oldSnapshot newSnapshot
  ∧ createSet oldSnapshot newSnapshot ∪ updateSet oldSnapshot newSnapshot
    ∪ deleteSet oldSnapshot newSnapshot
    = dom oldSnapshot ∪ dom newSnapshot.
Proof.
  unfold createSet, updateSet, deleteSet, oldNameSet, newNameSet.
  repeat split; try set_solver.
  apply set_eq. intros k.
  destruct (decide (k ∈ dom oldSnapshot)), (decide (k ∈ dom newSnapshot));
    set_solver.
Qed.

Lemma elem_of_createNewObjects oldSnapshot newSnapshot obj :
  Create obj ∈ createNewObjects oldSnapshot newSnapshot
  ↔ ∃ k, k ∈ dom newSnapshot ∖ dom oldSnapshot ∧ newSnapshot !! k = Some obj.
Proof.
  unfold createNewObjects. rewrite list_elem_of_omap.
  split.
  - intros (k & Hk & Hf). apply elem_of_elements in Hk.
    destruct (newSnapshot !! k) as [o|] eqn:Hn; simplify_eq/=. eauto.
  - intros (k & Hk & Hn). exists k. split; [by apply elem_of_elements|].
    by rewrite Hn.
Qed.

Lemma elem_of_updateObjects oldSnapshot newSnapshot o n :
  Update o n ∈ updateObjects oldSnapshot newSnapshot
  ↔ ∃ k newObj, k ∈ dom newSnapshot ∩ dom oldSnapshot
                ∧ oldSnapshot !! k = Some o ∧ newSnapshot !! k = Some newObj
                ∧ n = mergedObject o newObj.
Proof.
  unfold updateObjects. rewrite list_elem_of_omap.
  split.
  - intros (k & Hk & Hf). apply elem_of_elements in Hk.
    destruct (oldSnapshot !! k) as [o'|] eqn:Ho; simplify_eq/=.
    destruct (newSnapshot !! k) as [n'|] eqn:Hn; simplify_eq/=.
    exists k, n'. eauto.
  - intros (k & n' & Hk & Ho & Hn & ->). exists k.
    split; [by apply elem_of_elements|]. by rewrite Ho, Hn.
Qed.

Lemma elem_of_deleteOrphanObjects oldSnapshot newSnapshot compat obj :
  Delete obj ∈ deleteOrphanObjects oldSnapshot newSnapshot compat
  ↔ ∃ k, k ∈ dom oldSnapshot ∖ dom newSnapshot ∧ oldSnapshot !! k = Some obj
         ∧ compat && isConfigMap obj = false.
Proof.
  unfold deleteOrphanObjects. rewrite list_elem_of_omap.
  split.
  - intros (k & Hk & Hf). apply elem_of_elements in Hk.
    destruct (oldSnapshot !! k) as [o'|] eqn:Ho; simplify_eq/=.
    destruct (compat && isConfigMap o') eqn:Hc; simplify_eq/=. eauto.
  - intros (k & Hk & Ho & Hc). exists k.
    split; [by apply elem_of_elements|]. rewrite Ho. simpl. by rewrite Hc.
Qed.

(** The calls of one kind in the plan come from the loop of that kind. *)
Lemma Transform_creates compat g oldSnapshot obj :
  Create obj ∈ Transform false compat g oldSnapshot
  ↔ Create obj ∈ createNewObjects oldSnapshot (newSnapshotOf (objectsOf g)).
Proof.
  unfold Transform, handleDependencies. rewrite !elem_of_app.
  split; [|by left].
  intros [?|[Hin|[Hin|Hin]]]; [done|exfalso..].
  - unfold updateObjects in Hin. apply list_elem_of_omap in Hin as (k & _ & Hf).
    destruct (oldSnapshot !! k); simplify_eq/=.
    destruct (newSnapshotOf (objectsOf g) !! k); simplify_eq/=.
  - unfold deleteOrphanObjects in Hin.
    apply list_elem_of_omap in Hin as (k & _ & Hf).
    destruct (oldSnapshot !! k) as [o|]; simplify_eq/=.
    destruct (compat && isConfigMap o); simplify_eq/=.
  - apply list_elem_of_singleton in Hin. discriminate.
Qed.

Lemma Transform_updates compat g oldSnapshot o n :
  Update o n ∈ Transform false compat g oldSnapshot
  ↔ Update o n ∈ updateObjects oldSnapshot (newSnapshotOf (objectsOf g)).
Proof.
  unfold Transform, handleDependencies. rewrite !elem_of_app.
  split; [|by right; left].
  intros [Hin|[?|[Hin|Hin]]]; [exfalso|done|exfalso..].
  - unfold createNewObjects in Hin.
    apply list_elem_of_omap in Hin as (k & _ & Hf).
    destruct (newSnapshotOf (objectsOf g) !! k); simplify_eq/=.
  - unfold deleteOrphanObjects in Hin.
    apply list_elem_of_omap in Hin as (k & _ & Hf).
    destruct (oldSnapshot !! k) as [o'|]; simplify_eq/=.
    destruct (compat && isConfigMap o'); simplify_eq/=.
  - apply list_elem_of_singleton in Hin. discriminate.
Qed.

Lemma Transform_deletes compat g oldSnapshot obj :
  Delete obj ∈ Transform false compat g oldSnapshot
  ↔ Delete obj ∈ deleteOrphanObjects oldSnapshot
                   (newSnapshotOf (objectsOf g)) compat.
Proof.
  unfold Transform, handleDependencies. rewrite !elem_of_app.
  split; [|by right; right; left].
  intros [Hin|[Hin|[?|Hin]]]; [exfalso..|done|exfalso].
  - unfold createNewObjects in Hin.
    apply list_elem_of_omap in Hin as (k & _ & Hf).
    destruct (newSnapshotOf (objectsOf g) !! k); simplify_eq/=.
  - unfold updateObjects in Hin. apply list_elem_of_omap in Hin as (k & _ & Hf).
    destruct (oldSnapshot !! k); simplify_eq/=.
    destruct (newSnapshotOf (objectsOf g) !! k); simplify_eq/=.
  - apply list_elem_of_singleton in Hin. discriminate.
Qed.

(** C5.  The create, update and delete sets are [desired ∖ observed],
    [desired ∩ observed] and [observed ∖ desired]; they are pairwise
    disjoint and together hold every key of either snapshot, so every key
    is in exactly one of them.  The plan follows the sets: an object is
    created exactly when its key is only desired, updated (with the merge
    of the observed and the desired object) exactly when its key is in
    both, and, the compatibility mode being off, deleted exactly when its
    key is only observed. *)
Theorem C5_diff_is_set_algebra
    (compat : bool) (g : Generated) (oldSnapshot : gmap GVKNObjKey Object) :
  let newSnapshot := newSnapshotOf (objectsOf g) in
  (createSet oldSnapshot newSnapshot = dom newSnapshot ∖ dom oldSnapshot
   ∧ updateSet oldSnapshot newSnapshot = dom newSnapshot ∩ dom oldSnapshot
   ∧ deleteSet oldSnapshot newSnapshot = dom oldSnapshot ∖ dom newSnapshot)
  ∧ (createSet oldSnapshot newSnapshot ## updateSet oldSnapshot newSnapshot
     ∧ createSet oldSnapshot newSnapshot ## deleteSet oldSnapshot newSnapshot
     ∧ updateSet oldSnapshot newSnapshot ## deleteSet oldSnapshot newSnapshot
     ∧ createSet oldSnapshot newSnapshot ∪ updateSet oldSnapshot newSnapshot
       ∪ deleteSet oldSnapshot newSnapshot
       = dom oldSnapshot ∪ dom newSnapshot)
  ∧ (∀ obj, Create obj ∈ Transform false compat g oldSnapshot
            ↔ ∃ k, k ∈ dom newSnapshot ∖ dom oldSnapshot
                   ∧ newSnapshot !! k = Some obj)
  ∧ (∀ o n, Update o n ∈ Transform false compat g oldSnapshot
            ↔ ∃ k newObj, k ∈ dom newSnapshot ∩ dom oldSnapshot
                          ∧ oldSnapshot !! k = Some o
                          ∧ newSnapshot !! k = Some newObj
                          ∧ n = mergedObject o newObj)
  ∧ (∀ obj, Delete obj ∈ Transform false false g oldSnapshot
            ↔ ∃ k, k ∈ dom oldSnapshot ∖ dom newSnapshot
                   ∧ oldSnapshot !! k = Some obj).
Proof.
  intros newSnapshot. split; [done|]. split; [apply diff_sets_partition|].
  split; [|split].
  - intros obj. rewrite Transform_creates. apply elem_of_createNewObjects.
  - intros o n. rewrite Transform_updates. apply elem_of_updateObjects.
  - intros obj. rewrite Transform_deletes, elem_of_deleteOrphanObjects.
    simpl. naive_solver.
Qed.

(** C7.  With the compatibility mode on, the objects deleted are exactly
    the observed objects that are no longer desired and are not config
    maps: no delete call is issued for a config map, and every other member
    of the delete set is deleted. *)
Theorem C7_compatibility_exclusion
    (g : Generated) (oldSnapshot : gmap GVKNObjKey Object) :
  let newSnapshot := newSnapshotOf (objectsOf g) in
  (∀ obj, Delete obj ∈ Transform false true g oldSnapshot
          ↔ ∃ k, k ∈ deleteSet oldSnapshot newSnapshot
                 ∧ oldSnapshot !! k = Some obj ∧ isConfigMap obj = false)
  ∧ (∀ cm, Delete (ObjConfigMap cm) ∉ Transform false true g oldSnapshot)
  ∧ (∀ k, k ∈ deleteSet oldSnapshot newSnapshot →
          ∃ obj, oldSnapshot !! k = Some obj
                 ∧ (Delete obj ∈ Transform false true g oldSnapshot
                    ↔ isConfigMap obj = false)).
Proof.
  intros newSnapshot.
  assert (∀ obj, Delete obj ∈ Transform false true g oldSnapshot
                 ↔ ∃ k, k ∈ deleteSet oldSnapshot newSnapshot
                        ∧ oldSnapshot !! k = Some obj
                        ∧ isConfigMap obj = false) as Hdel.
  { intros obj. rewrite Transform_deletes, elem_of_deleteOrphanObjects.
    done. }
  split; [done|]. split.
  - intros cm Hin. apply Hdel in Hin as (k & _ & _ & Hcm). done.
  - intros k Hk.
    assert (k ∈ dom oldSnapshot) as [obj Hobj]%elem_of_dom.
    { unfold deleteSet, oldNameSet in Hk. set_solver. }
    exists obj. split; [done|]. rewrite Hdel. split.
    + intros (k' & _ & _ & ?). done.
    + intros Hcm. eauto.
Qed.

(** ** C6 and C10: copyAndMerge *)

Lemma merge_fold_lookup (original t0 : gmap string string) (k : string) :
  map_fold (λ k v (t : gmap string string),
              if bool_decide (is_Some (t !! k)) then t else <[k := v]> t)
           t0 original !! k
  = orElse (t0 !! k) (original !! k).
Proof.
  apply (map_fold_weak_ind
           (λ (r : gmap string string) (m : gmap string string),
              r !! k = orElse (t0 !! k) (m !! k))).
  - rewrite lookup_empty. by destruct (t0 !! k).
  - intros i x m r Hi IH. case_bool_decide as Hr.
    + rewrite IH. destruct (decide (i = k)) as [->|Hne].
      * rewrite IH in Hr. rewrite Hi in Hr. rewrite lookup_insert_eq.
        destruct (t0 !! k); [done|]. simpl in Hr. by destruct Hr.
      * by rewrite lookup_insert_ne.
    + destruct (decide (i = k)) as [->|Hne].
      * rewrite !lookup_insert_eq.
        rewrite IH, Hi in Hr. destruct (t0 !! k); [|done].
        destruct Hr. by eexists.
      * by rewrite !lookup_insert_ne.
Qed.

(** The merged map has the value of the target where the target has one,
    and the value of the original elsewhere. *)
Lemma mergeMetadataMap_lookup (originalMap targetMap : MetaMap) (k : string) :
  lookupM (mergeMetadataMap originalMap targetMap) k
  = orElse (lookupM targetMap k) (lookupM originalMap k).
Proof.
  unfold mergeMetadataMap, lookupM.
  destruct originalMap as [original|]; simpl.
  - rewrite merge_fold_lookup. destruct targetMap as [t|]; simpl; [done|].
    by rewrite lookup_empty.
  - by destruct (targetMap ≫= _).
Qed.

Lemma mergeMetadataMap_same (m : MetaMap) : mergeMetadataMap m m = m.
Proof.
  destruct m as [m|]; [|done]. unfold mergeMetadataMap. simpl. f_equal.
  apply map_eq. intros k. rewrite merge_fold_lookup. by destruct (m !! k).
Qed.

Lemma copyAndMergeSts_same (s : StatefulSet) : (copyAndMergeSts s s).2 = s.
Proof.
  destruct s as [[ns nm l a r] [rep [[tns tnm tl ta tr] tspec] us rest] st].
  unfold copyAndMergeSts, withLabels, withAnnotations. simpl.
  by rewrite !mergeMetadataMap_same.
Qed.

Lemma copyAndMergeSvc_same (s : Service) : (copyAndMergeSvc s s).2 = s.
Proof.
  destruct s as [[ns nm l a r] spec st].
  unfold copyAndMergeSvc, withAnnotations. simpl.
  by rewrite !mergeMetadataMap_same.
Qed.

(** The heap [copyAndMerge] leaves for two objects of one type. *)
Lemma copyAndMerge_same_type (h : heap) (oldObj newObj : loc) (o n : Object) :
  h !! oldObj = Some o → h !! newObj = Some n → sameType o n = true →
  ∃ h' r,
    copyAndMerge h oldObj newObj = Ok (h', Some r)
    ∧ h' !! oldObj = Some o
    ∧ (∀ l, l ∈ dom h → l ≠ newObj → h' !! l = h !! l)
    ∧ (handledKind n = false → r = newObj ∧ h' !! newObj = Some n)
    ∧ (handledKind n = true → (r ∉ dom h) ∧ h' !! r = mergedObject o n).
Proof.
  intros Ho Hn Hty. unfold copyAndMerge, mergedObject. rewrite Ho, Hn, Hty.
  simpl.
  pose proof (is_fresh (dom h)) as Hfresh.
  assert (oldObj ≠ fresh (dom h)) as Hof.
  { intros Heq. apply Hfresh. rewrite <- Heq. by apply elem_of_dom. }
  assert (newObj ≠ fresh (dom h)) as Hnf.
  { intros Heq. apply Hfresh. rewrite <- Heq. by apply elem_of_dom. }
  assert (∀ l, l ∈ dom h → fresh (dom h) ≠ l) as Hlf.
  { intros l Hl Heq. apply Hfresh. by rewrite Heq. }
  destruct n as [ns|ns|nc|kind nm nb], o as [os|os|oc|kind' om ob];
    try discriminate Hty; simpl.
  - eexists _, _. split; [reflexivity|]. split; [|split; [|split]].
    + rewrite lookup_insert_ne by done.
      destruct (decide (oldObj = newObj)) as [->|Hne].
      * rewrite lookup_insert_eq. simplify_eq.
        exact (f_equal (λ x, Some (ObjStatefulSet x)) (copyAndMergeSts_same _)).
      * by rewrite !lookup_insert_ne.
    + intros l Hl Hne. by rewrite !lookup_insert_ne by (done || by apply Hlf).
    + discriminate.
    + intros _. split; [done|]. by rewrite lookup_insert_eq.
  - eexists _, _. split; [reflexivity|]. split; [|split; [|split]].
    + rewrite lookup_insert_ne by done.
      destruct (decide (oldObj = newObj)) as [->|Hne].
      * rewrite lookup_insert_eq. simplify_eq.
        exact (f_equal (λ x, Some (ObjService x)) (copyAndMergeSvc_same _)).
      * by rewrite !lookup_insert_ne.
    + intros l Hl Hne. by rewrite !lookup_insert_ne by (done || by apply Hlf).
    + discriminate.
    + intros _. split; [done|]. by rewrite lookup_insert_eq.
  - eexists _, _. split; [reflexivity|]. split; [|split; [|split]].
    + rewrite lookup_insert_ne by done.
      destruct (decide (oldObj = newObj)) as [->|Hne].
      * rewrite lookup_insert_eq. by simplify_eq.
      * by rewrite !lookup_insert_ne.
    + intros l Hl Hne. by rewrite !lookup_insert_ne by (done || by apply Hlf).
    + discriminate.
    + intros _. split; [done|]. by rewrite lookup_insert_eq.
  - eexists _, _. split; [reflexivity|]. split; [|split; [|split]].
    + by rewrite lookup_insert_ne.
    + intros l Hl Hne. by rewrite lookup_insert_ne by (by apply Hlf).
    + intros _. split; [done|]. by rewrite lookup_insert_ne.
    + discriminate.
Qed.

(** C6, as the code has it.  Objects of different types merge to nil.  For
    two stateful sets the labels and the annotations of the pod template
    are merged key by key, the new value winning and an old key that the
    new map lacks being kept; the rest of the template, the replica count
    and the update strategy are the new ones; everything else, the
    annotations of the object among it, is the old one's.  For two services
    the annotations are merged in that way and the spec is the new one; the
    labels and the rest stay the old ones.  For two config maps the data
    and the binary data are the new ones and all metadata stays the old
    one's, labels and annotations included. *)
Theorem C6_copyAndMerge_fields
    (h : heap) (oldObj newObj : loc) (o n : Object) :
  h !! oldObj = Some o → h !! newObj = Some n →
  (sameType o n = false → copyAndMerge h oldObj newObj = Ok (h, None))
  ∧ (∀ os ns, o = ObjStatefulSet os → n = ObjStatefulSet ns →
     ∃ h' t m,
       copyAndMerge h oldObj newObj = Ok (h', Some t)
       ∧ h' !! t = Some (ObjStatefulSet m)
       ∧ (∀ k, lookupM (Labels (stsMeta m)) k
               = orElse (lookupM (Labels (stsMeta ns)) k)
                   (lookupM (Labels (stsMeta os)) k))
       ∧ (∀ k, lookupM (Annotations (tplMeta (Template (stsSpec m)))) k
               = orElse
                   (lookupM (Annotations (tplMeta (Template (stsSpec ns)))) k)
                   (lookupM (Annotations (tplMeta (Template (stsSpec os)))) k))
       ∧ (tplSpec (Template (stsSpec m)) = tplSpec (Template (stsSpec ns))
          ∧ Labels (tplMeta (Template (stsSpec m)))
            = Labels (tplMeta (Template (stsSpec ns)))
          ∧ Replicas (stsSpec m) = Replicas (stsSpec ns)
          ∧ UpdateStrategy (stsSpec m) = UpdateStrategy (stsSpec ns))
       ∧ (Namespace (stsMeta m) = Namespace (stsMeta os)
          ∧ Name (stsMeta m) = Name (stsMeta os)
          ∧ Annotations (stsMeta m) = Annotations (stsMeta os)
          ∧ metaRest (stsMeta m) = metaRest (stsMeta os)
          ∧ stsSpecRest (stsSpec m) = stsSpecRest (stsSpec os)
          ∧ stsStatus m = stsStatus os))
  ∧ (∀ os ns, o = ObjService os → n = ObjService ns →
     ∃ h' t m,
       copyAndMerge h oldObj newObj = Ok (h', Some t)
       ∧ h' !! t = Some (ObjService m)
       ∧ (∀ k, lookupM (Annotations (svcMeta m)) k
               = orElse (lookupM (Annotations (svcMeta ns)) k)
                   (lookupM (Annotations (svcMeta os)) k))
       ∧ svcSpec m = svcSpec ns
       ∧ (Namespace (svcMeta m) = Namespace (svcMeta os)
          ∧ Name (svcMeta m) = Name (svcMeta os)
          ∧ Labels (svcMeta m) = Labels (svcMeta os)
          ∧ metaRest (svcMeta m) = metaRest (svcMeta os)
          ∧ svcStatus m = svcStatus os))
  ∧ (∀ oc nc, o = ObjConfigMap oc → n = ObjConfigMap nc →
     ∃ h' t m,
       copyAndMerge h oldObj newObj = Ok (h', Some t)
       ∧ h' !! t = Some (ObjConfigMap m)
       ∧ (Data m = Data nc ∧ BinaryData m = BinaryData nc)
       ∧ (cmMeta m = cmMeta oc ∧ cmImmutable m = cmImmutable oc)).
Proof.
  intros Ho Hn. split; [|split; [|split]].
  - intros Hty. unfold copyAndMerge. by rewrite Ho, Hn, Hty.
  - intros os ns -> ->. unfold copyAndMerge. rewrite Ho, Hn. simpl.
    eexists _, _, _. split; [reflexivity|].
    split; [by rewrite lookup_insert_eq|]. simpl.
    split; [intros k; apply mergeMetadataMap_lookup|].
    split; [intros k; apply mergeMetadataMap_lookup|]. done.
  - intros os ns -> ->. unfold copyAndMerge. rewrite Ho, Hn. simpl.
    eexists _, _, _. split; [reflexivity|].
    split; [by rewrite lookup_insert_eq|]. simpl.
    split; [intros k; apply mergeMetadataMap_lookup|]. done.
  - intros oc nc -> ->. unfold copyAndMerge. rewrite Ho, Hn. simpl.
    eexists _, _, _. split; [reflexivity|].
    split; [by rewrite lookup_insert_eq|]. done.
Qed.

(** C10.  For two objects of one type that is not StatefulSet, Service or
    ConfigMap, the pointer returned is the new object's and the new object
    is as it was.  For the three handled kinds the pointer returned is a
    fresh one, holding the merged object.  In every case the old object is
    afterwards what it was before, and so is every object on the heap other
    than the new one. *)
Theorem C10_copyAndMerge_pointers
    (h : heap) (oldObj newObj : loc) (o n : Object) :
  h !! oldObj = Some o → h !! newObj = Some n → sameType o n = true →
  ∃ h' r,
    copyAndMerge h oldObj newObj = Ok (h', Some r)
    ∧ h' !! oldObj = Some o
    ∧ (∀ l, l ∈ dom h → l ≠ newObj → h' !! l = h !! l)
    ∧ (handledKind n = false → r = newObj ∧ h' !! newObj = Some n)
    ∧ (handledKind n = true → (r ∉ dom h) ∧ h' !! r = mergedObject o n).
Proof. apply copyAndMerge_same_type. Qed.

End RSMProperties.

(** ** The merge on concrete objects *)

Section RSMExamples.
Import RSM RSM.Sample.

(** Two config maps: the new label [b] is not in the merged object, whose
    labels are the old ones. *)
Lemma C6_counterexample :
  ∃ h' t m,
    sameType (ObjConfigMap oldCm) (ObjConfigMap newCm) = true
    ∧ copyAndMerge cmHeap 1 2 = Ok (h', Some t)
    ∧ h' !! t = Some (ObjConfigMap m)
    ∧ lookupM (Labels (cmMeta newCm)) "b" = Some "2"
    ∧ lookupM (Labels (cmMeta m)) "b" = None
    ∧ lookupM (Labels (cmMeta m)) "a" = Some "1".
Proof.
  eexists _, _, _. split; [reflexivity|].
  split; [vm_compute; reflexivity|].
  split; [vm_compute; reflexivity|].
  repeat split; vm_compute; reflexivity.
Qed.

(** Two stateful sets: label [g] takes the new value, label [a] is kept,
    the replica count is the new one, the annotations stay the old ones. *)
Lemma C6_copyAndMerge_fields_witness :
  ∃ h' t m,
    copyAndMerge stsHeap 1 2 = Ok (h', Some t)
    ∧ h' !! t = Some (ObjStatefulSet m)
    ∧ lookupM (Labels (stsMeta m)) "g" = Some "8"
    ∧ lookupM (Labels (stsMeta m)) "a" = Some "1"
    ∧ Replicas (stsSpec m) = Some 5%Z
    ∧ Annotations (stsMeta m) = Annotations (stsMeta oldSts).
Proof.
  destruct (C6_copyAndMerge_fields stsHeap 1 2 (ObjStatefulSet oldSts)
              (ObjStatefulSet newSts) eq_refl eq_refl) as (_ & Hsts & _).
  destruct (Hsts oldSts newSts eq_refl eq_refl)
    as (h' & t & m & Hres & Hm & Hlabels & _ & (_ & _ & Hrep & _)
        & (_ & _ & Hann & _)).
  exists h', t, m. split; [exact Hres|]. split; [exact Hm|].
  split; [rewrite Hlabels; vm_compute; reflexivity|].
  split; [rewrite Hlabels; vm_compute; reflexivity|].
  split; [rewrite Hrep; reflexivity|exact Hann].
Defined.

(** Two pods: the new pod's pointer comes back and both pods are as they
    were. *)
Lemma C10_copyAndMerge_pointers_witness :
  ∃ h', copyAndMerge podHeap 1 2 = Ok (h', Some 2%positive)
        ∧ h' !! 2%positive = Some newPod ∧ h' !! 1%positive = Some oldPod.
Proof.
  destruct (C10_copyAndMerge_pointers podHeap 1 2 oldPod newPod
              eq_refl eq_refl eq_refl)
    as (h' & r & Hres & Hold & _ & Hother & _).
  destruct (Hother eq_refl) as [-> Hnew].
  exists h'. split; [exact Hres|]. split; [exact Hnew|exact Hold].
Defined.

End RSMExamples.

(** * Further properties of the horizontal-scaling handler *)

Section HScaleFurther.
Import HScale.
Context `{Collaborators}.

(** ** filterHorizontalScalingSpec *)

Lemma keepNames_spec (P : string → bool) (l : list string) :
  NoDup (keepNames P l) ∧ ∀ n, n ∈ keepNames P l ↔ n ∈ l ∧ P n = true.
Proof.
  unfold keepNames. split; [apply NoDup_elements|].
  intros n. rewrite elem_of_elements.
  assert (∀ (s : gset string),
            n ∈ foldl (λ (s : gset string) n, if P n then {[n]} ∪ s else s) s l
            ↔ n ∈ s ∨ (n ∈ l ∧ P n = true)) as Hfold.
  { induction l as [|a l IH]; intros s; simpl.
    - rewrite elem_of_nil. tauto.
    - rewrite IH, elem_of_cons. destruct (P a) eqn:Ha.
      + rewrite elem_of_union, elem_of_singleton. naive_solver.
      + split; [tauto|]. intros [?|[[->|?] ?]]; [tauto|congruence|tauto]. }
  rewrite Hfold. set_solver.
Qed.

Lemma filterNames_toOffline (pods : gmap string string) (offs : gset string) hs :
  (∀ n, n ∈ toOffline (filterNames pods offs hs)
        ↔ n ∈ toOffline hs ∧ is_Some (pods !! n))
  ∧ (toOffline hs ≠ [] → NoDup (toOffline (filterNames pods offs hs))).
Proof.
  unfold toOffline, filterNames. simpl.
  destruct (hsScaleIn hs) as [si|]; [|split; [|done]].
  - case_bool_decide as Hl; simpl.
    + split; [|intros _; apply keepNames_spec].
      intros n. rewrite (proj2 (keepNames_spec _ _)), bool_decide_eq_true.
      done.
    + assert (siOnlineInstancesToOffline si = []) as ->
        by (destruct (siOnlineInstancesToOffline si); [done|simpl in Hl; lia]).
      split; [|done]. intros n. rewrite elem_of_nil. tauto.
  - intros n. rewrite elem_of_nil. tauto.
Qed.

Lemma filterNames_toOnline (pods : gmap string string) (offs : gset string) hs :
  (∀ n, n ∈ toOnline (filterNames pods offs hs)
        ↔ n ∈ toOnline hs ∧ n ∈ offs)
  ∧ (toOnline hs ≠ [] → NoDup (toOnline (filterNames pods offs hs))).
Proof.
  unfold toOnline, filterNames. simpl.
  destruct (hsScaleOut hs) as [so|]; [|split; [|done]].
  - case_bool_decide as Hl; simpl.
    + split; [|intros _; apply keepNames_spec].
      intros n. rewrite (proj2 (keepNames_spec _ _)), bool_decide_eq_true.
      done.
    + assert (soOfflineInstancesToOnline so = []) as ->
        by (destruct (soOfflineInstancesToOnline so); [done|simpl in Hl; lia]).
      split; [|done]. intros n. rewrite elem_of_nil. tauto.
  - intros n. rewrite elem_of_nil. tauto.
Qed.

Lemma filterNames_changes (pods : gmap string string) (offs : gset string) hs :
  scaleOutChanges (filterNames pods offs hs) = scaleOutChanges hs
  ∧ scaleInChanges (filterNames pods offs hs) = scaleInChanges hs.
Proof.
  unfold scaleOutChanges, scaleInChanges, filterNames. simpl.
  destruct (hsScaleIn hs) as [si|], (hsScaleOut hs) as [so|];
    repeat case_bool_decide; done.
Qed.

Lemma filterNames_frame (pods : gmap string string) (offs : gset string) hs :
  hsComponentName (filterNames pods offs hs) = hsComponentName hs
  ∧ hsReplicas (filterNames pods offs hs) = hsReplicas hs
  ∧ soReplicaChanger <$> hsScaleOut (filterNames pods offs hs)
    = soReplicaChanger <$> hsScaleOut hs
  ∧ soNewInstances <$> hsScaleOut (filterNames pods offs hs)
    = soNewInstances <$> hsScaleOut hs
  ∧ siReplicaChanger <$> hsScaleIn (filterNames pods offs hs)
    = siReplicaChanger <$> hsScaleIn hs.
Proof.
  unfold filterNames. simpl.
  destruct (hsScaleIn hs) as [si|], (hsScaleOut hs) as [so|];
    repeat case_bool_decide; done.
Qed.

(** X1.  [filterHorizontalScalingSpec] fails exactly when the names of the
    baseline cannot be derived, and then in the way the derivation fails.
    Otherwise the request it returns differs from the one it was given in
    the two lists of names only: the component name, the absolute count,
    the presence of the scale-out and of the scale-in part, their replica
    changers and the new instances are those of the request; an instance
    stays in [onlineInstancesToOffline] exactly when it is one of the
    derived names, and in [offlineInstancesToOnline] exactly when the
    baseline records it offline; a list that was filtered has no
    duplicates. *)
Theorem X1_filter_keeps_real_instances
    (opsRes : OpsResource) (compReplicas : Z) (tpls : list InstanceTemplate)
    (offline : list string) (hs : HorizontalScaling) :
  match GenerateAllPodNamesToSet compReplicas tpls offline
          (clusterName (opsCluster opsRes)) (hsComponentName hs) with
  | Ok pods =>
      ∃ filtered,
        filterHorizontalScalingSpec opsRes compReplicas tpls offline hs
        = Ok filtered
        ∧ hsComponentName filtered = hsComponentName hs
        ∧ hsReplicas filtered = hsReplicas hs
        ∧ soReplicaChanger <$> hsScaleOut filtered
          = soReplicaChanger <$> hsScaleOut hs
        ∧ soNewInstances <$> hsScaleOut filtered
          = soNewInstances <$> hsScaleOut hs
        ∧ siReplicaChanger <$> hsScaleIn filtered
          = siReplicaChanger <$> hsScaleIn hs
        ∧ (∀ n, n ∈ toOffline filtered
                ↔ n ∈ toOffline hs ∧ is_Some (pods !! n))
        ∧ (∀ n, n ∈ toOnline filtered ↔ n ∈ toOnline hs ∧ n ∈ offline)
        ∧ (toOffline hs ≠ [] → NoDup (toOffline filtered))
        ∧ (toOnline hs ≠ [] → NoDup (toOnline filtered))
  | Err e =>
      filterHorizontalScalingSpec opsRes compReplicas tpls offline hs = Err e
  | Panic =>
      filterHorizontalScalingSpec opsRes compReplicas tpls offline hs = Panic
  end.
Proof.
  unfold filterHorizontalScalingSpec.
  destruct (GenerateAllPodNamesToSet _ _ _ _ _) as [pods| |]; simpl;
    [|done..].
  eexists. split; [reflexivity|].
  destruct (filterNames_frame pods (list_to_set offline) hs)
    as (Hn & Hr & Hso & Hnew & Hsi).
  do 5 (split; [done|]).
  split; [apply filterNames_toOffline|].
  split.
  { intros n. rewrite (proj1 (filterNames_toOnline _ _ _)).
    by rewrite elem_of_list_to_set. }
  split; [apply filterNames_toOffline|apply filterNames_toOnline].
Qed.

(** ** getCompExpectedOfflineInstances *)

Lemma handleOfflineInstances_closed (base compared new : list string) :
  handleOfflineInstances base compared new
  = new ++ filter (λ n, n ∉ compared) base.
Proof.
  unfold handleOfflineInstances. revert new.
  induction base as [|a base IH]; intros new; simpl.
  - by rewrite app_nil_r.
  - rewrite IH. case_bool_decide as Ha.
    + apply elem_of_list_to_set in Ha. rewrite filter_cons_False by tauto.
      done.
    + rewrite elem_of_list_to_set in Ha. rewrite filter_cons_True by done.
      by rewrite <- app_assoc.
Qed.

Lemma expected_offline_instances_closed
    (compOffline : list string) (hs : HorizontalScaling) :
  getCompExpectedOfflineInstances compOffline hs
  = filter (λ n, n ∉ toOnline hs)
      (compOffline ++ filter (λ n, n ∉ compOffline) (toOffline hs))
  ∧ (∀ n, n ∈ getCompExpectedOfflineInstances compOffline hs
          ↔ (n ∈ compOffline ∨ n ∈ toOffline hs) ∧ n ∉ toOnline hs)
  ∧ (NoDup compOffline → NoDup (toOffline hs) →
     NoDup (getCompExpectedOfflineInstances compOffline hs)).
Proof.
  assert (getCompExpectedOfflineInstances compOffline hs
          = filter (λ n, n ∉ toOnline hs)
              (compOffline ++ filter (λ n, n ∉ compOffline) (toOffline hs)))
    as Hclosed.
  { unfold getCompExpectedOfflineInstances, toOffline, toOnline.
    assert (∀ l : list string, ¬ 0 < length l → l = []) as Hnil.
    { intros [|??] ?; [done|simpl in *; lia]. }
    assert (∀ l : list string, filter (λ n, n ∉ ([] : list string)) l = l)
      as Hall.
    { intros l. induction l as [|a l IH]; [done|].
      rewrite filter_cons_True by apply not_elem_of_nil. by rewrite IH. }
    destruct (hsScaleIn hs) as [si|], (hsScaleOut hs) as [so|].
    all: repeat case_bool_decide.
    all: repeat match goal with
           | Hl : ¬ 0 < length _ |- _ => apply Hnil in Hl; rewrite Hl
           end.
    all: rewrite ?handleOfflineInstances_closed; simpl.
    all: rewrite ?Hall, ?app_nil_r; done. }
  split; [done|]. rewrite Hclosed. split.
  - intros n. rewrite list_elem_of_filter, elem_of_app, list_elem_of_filter.
    destruct (decide (n ∈ compOffline)); tauto.
  - intros Hc Hin. apply NoDup_filter, NoDup_app. split; [done|].
    split; [|by apply NoDup_filter].
    intros n Hn Hn'. by apply list_elem_of_filter in Hn' as [? _].
Qed.

(** X2.  The expected offline instances in closed form: the offline
    instances of the baseline, in their order, followed by the instances to
    take offline that were not offline yet, all without the instances to
    bring online.  So an instance is expected offline exactly when it was
    offline or is taken offline, and is not brought online; and no
    duplicate appears where the baseline and the request have none. *)
Theorem X2_expected_offline_instances
    (compOffline : list string) (hs : HorizontalScaling) :
  getCompExpectedOfflineInstances compOffline hs
  = filter (λ n, n ∉ toOnline hs)
      (compOffline ++ filter (λ n, n ∉ compOffline) (toOffline hs))
  ∧ (∀ n, n ∈ getCompExpectedOfflineInstances compOffline hs
          ↔ (n ∈ compOffline ∨ n ∈ toOffline hs) ∧ n ∉ toOnline hs)
  ∧ (NoDup compOffline → NoDup (toOffline hs) →
     NoDup (getCompExpectedOfflineInstances compOffline hs)).
Proof. apply expected_offline_instances_closed. Qed.

(** ** getCompExpectedInstances *)

Lemma indexByName_from (f : nat → InstanceTemplate → nat * InstanceTemplate)
    (k : nat) (tpls : list InstanceTemplate) (m0 : gmap string nat)
    (name : string) (i : nat) :
  (∀ j t, f j t = (k + j, t)) →
  foldl (λ m '(i, t), <[tplName t := i]> m) m0 (imap f tpls) !! name = Some i →
  m0 !! name = Some i
  ∨ ∃ j t, i = k + j ∧ tpls !! j = Some t ∧ tplName t = name.
Proof.
  revert f k m0. induction tpls as [|a tpls IH]; intros f k m0 Hf; simpl.
  - by left.
  - rewrite Hf. intros Hl.
    assert (∀ j t, (f ∘ S) j t = (S k + j, t)) as Hf'.
    { intros j t. simpl. rewrite Hf. f_equal. lia. }
    destruct (IH (f ∘ S) (S k) _ Hf' Hl) as [Hm|(j & t & -> & Ht & Hn)].
    + destruct (decide (tplName a = name)) as [<-|Hne].
      * rewrite lookup_insert_eq in Hm. injection Hm as <-.
        right. exists 0, a. split; [lia|done].
      * rewrite lookup_insert_ne in Hm by done. by left.
    + right. exists (S j), t. split; [lia|done].
Qed.

Lemma indexByName_Some (tpls : list InstanceTemplate) (name : string) (i : nat) :
  indexByName tpls !! name = Some i →
  ∃ t, tpls !! i = Some t ∧ tplName t = name.
Proof.
  intros Hl. unfold indexByName in Hl.
  apply (indexByName_from pair 0) in Hl as [Hm|(j & t & -> & Ht & Hn)];
    [by rewrite lookup_empty in Hm| |done].
  exists t. done.
Qed.

Lemma handle_shape set ins b (tpls : list InstanceTemplate) :
  tplName <$> handleInstanceTplReplicaChanges set ins b tpls = tplName <$> tpls
  ∧ tplOverrides <$> handleInstanceTplReplicaChanges set ins b tpls
    = tplOverrides <$> tpls.
Proof.
  unfold handleInstanceTplReplicaChanges. revert tpls.
  induction ins as [|v ins IH]; intros tpls; simpl; [done|].
  destruct (set !! irtName v) as [i|]; [|apply IH].
  destruct (IH (alter (λ t, withReplicas t
                              (if b then sub32 (GetReplicas t) (irtReplicaChanges v)
                               else add32 (GetReplicas t) (irtReplicaChanges v)))
                  i tpls)) as [-> ->].
  split; (rewrite (list_fmap_alter _ _ id); [by rewrite list_alter_id|]);
    by apply Forall_true.
Qed.

Lemma handle_lookup_other (set : gmap string nat) ins b
    (tpls : list InstanceTemplate) (i : nat) :
  (∀ v, v ∈ ins → set !! irtName v ≠ Some i) →
  handleInstanceTplReplicaChanges set ins b tpls !! i = tpls !! i.
Proof.
  unfold handleInstanceTplReplicaChanges. revert tpls.
  induction ins as [|v ins IH]; intros tpls Hv; simpl; [done|].
  rewrite IH by (intros v' Hv'; apply Hv; by right).
  destruct (set !! irtName v) as [k|] eqn:Hk; [|done].
  apply list_lookup_alter_ne. intros ->. by apply (Hv v); [left|].
Qed.

(** X3.  In absolute mode the instance templates are returned as they are.
    In delta mode templates are never dropped or reordered: the result has
    the names (and the fields other than the replicas) of the baseline
    templates, in their order, followed by those of the new instances. *)
Theorem X3_expected_instances_shape
    (tpls : list InstanceTemplate) (hs : HorizontalScaling) :
  (hsReplicas hs ≠ None → getCompExpectedInstances tpls hs = tpls)
  ∧ (hsReplicas hs = None →
     tplName <$> getCompExpectedInstances tpls hs
     = (tplName <$> tpls) ++ (tplName <$> newInstancesOf hs)
     ∧ tplOverrides <$> getCompExpectedInstances tpls hs
       = (tplOverrides <$> tpls) ++ (tplOverrides <$> newInstancesOf hs)
     ∧ length (getCompExpectedInstances tpls hs)
       = length tpls + length (newInstancesOf hs)).
Proof.
  unfold getCompExpectedInstances, newInstancesOf. split.
  - by destruct (hsReplicas hs).
  - intros ->.
    assert (tplName <$> match hsScaleOut hs with
                        | Some so =>
                            handleInstanceTplReplicaChanges (indexByName tpls)
                              (rcInstances (soReplicaChanger so)) false
                              (tpls ++ soNewInstances so)
                        | None => tpls
                        end
            = (tplName <$> tpls)
              ++ (tplName <$> match hsScaleOut hs with
                              | Some so => soNewInstances so
                              | None => []
                              end)
            ∧ tplOverrides <$> match hsScaleOut hs with
                               | Some so =>
                                   handleInstanceTplReplicaChanges (indexByName tpls)
                                     (rcInstances (soReplicaChanger so)) false
                                     (tpls ++ soNewInstances so)
                               | None => tpls
                               end
              = (tplOverrides <$> tpls)
                ++ (tplOverrides <$> match hsScaleOut hs with
                                     | Some so => soNewInstances so
                                     | None => []
                                     end)) as [Hn Ho].
    { destruct (hsScaleOut hs) as [so|]; simpl.
      - destruct (handle_shape (indexByName tpls)
                    (rcInstances (soReplicaChanger so)) false
                    (tpls ++ soNewInstances so)) as [-> ->].
        by rewrite !fmap_app.
      - by rewrite !app_nil_r. }
    assert (∀ l, tplName <$> match hsScaleIn hs with
                             | Some si =>
                                 handleInstanceTplReplicaChanges (indexByName tpls)
                                   (rcInstances (siReplicaChanger si)) true l
                             | None => l
                             end = tplName <$> l
                 ∧ tplOverrides <$> match hsScaleIn hs with
                                    | Some si =>
                                        handleInstanceTplReplicaChanges
                                          (indexByName tpls)
                                          (rcInstances (siReplicaChanger si)) true l
                                    | None => l
                                    end = tplOverrides <$> l) as Hin.
    { intros l. destruct (hsScaleIn hs) as [si|]; [apply handle_shape|done]. }
    split; [|split].
    + by rewrite (proj1 (Hin _)), Hn.
    + by rewrite (proj2 (Hin _)), Ho.
    + rewrite <- (length_fmap tplName), (proj1 (Hin _)), Hn.
      by rewrite length_app, !length_fmap.
Qed.

(** X4.  In delta mode a baseline template that no per-template change of
    the request names is returned as it is, and the new instances are
    appended as the request gives them, a change naming one of them being
    ignored. *)
Theorem X4_expected_instances_untouched
    (tpls : list InstanceTemplate) (hs : HorizontalScaling) :
  hsReplicas hs = None →
  (∀ i t, tpls !! i = Some t →
     (∀ v, v ∈ scaleOutInstances hs ++ scaleInInstances hs →
           irtName v ≠ tplName t) →
     getCompExpectedInstances tpls hs !! i = Some t)
  ∧ (∀ j t, newInstancesOf hs !! j = Some t →
       getCompExpectedInstances tpls hs !! (length tpls + j) = Some t).
Proof.
  intros Hdelta.
  unfold getCompExpectedInstances, newInstancesOf, scaleOutInstances,
    scaleInInstances.
  rewrite Hdelta. split.
  - intros i t Ht Hv.
    assert (∀ ins b l, (∀ v, v ∈ ins → irtName v ≠ tplName t) →
              handleInstanceTplReplicaChanges (indexByName tpls) ins b l !! i
              = l !! i) as Hkeep.
    { intros ins b l Hins. apply handle_lookup_other. intros v Hin Hidx.
      apply indexByName_Some in Hidx as (t' & Ht' & Hname).
      rewrite Ht in Ht'. injection Ht' as <-. by apply (Hins v). }
    destruct (hsScaleIn hs) as [si|], (hsScaleOut hs) as [so|];
      rewrite ?Hkeep; rewrite ?lookup_app_l by (by eapply lookup_lt_Some);
      try done.
    all: intros v Hin; apply Hv; rewrite elem_of_app; auto.
  - intros j t Ht.
    assert (∀ ins b l,
              handleInstanceTplReplicaChanges (indexByName tpls) ins b l
                !! (length tpls + j) = l !! (length tpls + j)) as Hkeep.
    { intros ins b l. apply handle_lookup_other. intros v Hin Hidx.
      apply indexByName_Some in Hidx as (t' & Ht' & Hname).
      apply lookup_lt_Some in Ht'. lia. }
    destruct (hsScaleOut hs) as [so|]; [|by rewrite lookup_nil in Ht].
    destruct (hsScaleIn hs) as [si|]; rewrite ?Hkeep;
      by rewrite lookup_app_r, Nat.add_comm, Nat.add_sub by lia.
Qed.

(** ** autoSyncReplicaChanges *)

Lemma foldl_add32 {A} (g : A → Z) (l : list A) (a0 : Z) :
  int32 a0 →
  foldl (λ a x, add32 a (g x)) a0 l = wrap32 (a0 + foldr Z.add 0%Z (g <$> l)).
Proof.
  revert a0. induction l as [|x l IH]; intros a0 Ha; simpl.
  - rewrite Z.add_0_r. by rewrite wrap32_id.
  - rewrite IH by apply wrap32_range. unfold add32.
    rewrite wrap32_wrap32_add. f_equal. symmetry. apply Z.add_assoc.
Qed.

(** The entries the sync adds for a count map, and the counts it adds up. *)
Lemma sync_fold (names : gset string) (l : list (string * Z))
    (ins0 : list InstanceReplicasTemplate) (acc0 : Z) :
  int32 acc0 →
  foldl (λ '(ins, acc) '(k, v),
           if bool_decide (k = "") then (ins, add32 acc v)
           else if bool_decide (k ∈ names) then (ins, acc)
           else (ins ++ [{| irtName := k; irtReplicaChanges := v |}],
                 add32 acc v))
        (ins0, acc0) l
  = (ins0 ++ omap (λ '(k, v), if bool_decide (k ≠ "" ∧ k ∉ names)
                              then Some {| irtName := k; irtReplicaChanges := v |}
                              else None) l,
     wrap32 (acc0 + foldr Z.add 0%Z
                      ((filter (λ '(k, v), k = "" ∨ k ∉ names) l).*2))).
Proof.
  revert ins0 acc0. induction l as [|[k v] l IH]; intros ins0 acc0 Hacc; simpl.
  - rewrite app_nil_r, Z.add_0_r. by rewrite wrap32_id.
  - case_bool_decide as Hk; [|case_bool_decide as Hn].
    + rewrite IH by apply wrap32_range.
      rewrite bool_decide_eq_false_2 by tauto.
      rewrite filter_cons_True by (by left). simpl. f_equal.
      unfold add32. rewrite wrap32_wrap32_add. f_equal. symmetry.
      apply Z.add_assoc.
    + rewrite IH by done. rewrite bool_decide_eq_false_2 by tauto.
      rewrite filter_cons_False by tauto. done.
    + rewrite IH by apply wrap32_range.
      rewrite bool_decide_eq_true_2 by done.
      rewrite filter_cons_True by (by right). simpl.
      rewrite <- app_assoc. f_equal.
      unfold add32. rewrite wrap32_wrap32_add. f_equal. symmetry.
      apply Z.add_assoc.
Qed.

Lemma synced_names_NoDup (names : gset string) (l : list (string * Z)) :
  NoDup l.*1 →
  NoDup (irtName <$> omap (λ '(k, v), if bool_decide (k ≠ "" ∧ k ∉ names)
                                      then Some {| irtName := k;
                                                   irtReplicaChanges := v |}
                                      else None) l)
  ∧ ∀ n, n ∈ irtName <$> omap (λ '(k, v), if bool_decide (k ≠ "" ∧ k ∉ names)
                                          then Some {| irtName := k;
                                                       irtReplicaChanges := v |}
                                          else None) l → n ∈ l.*1.
Proof.
  induction l as [|[k v] l IH]; simpl.
  - intros _. split; [constructor|]. by intros n ?%elem_of_nil.
  - intros [Hk Hl]%NoDup_cons. destruct (IH Hl) as [IHn IHs].
    case_bool_decide; simpl.
    + split.
      * constructor; [|done]. intros Hin. by apply Hk, IHs.
      * intros n [->|Hn]%elem_of_cons; [left|right; by apply IHs].
    + split; [done|]. intros n Hn. right. by apply IHs.
Qed.

(** X5.  What the sync of one side of a request yields.  The listed
    per-template changes are kept, in order, and one entry is added for
    each template of the count map that is neither the default template
    nor listed, with its count; so every named template of the count map is
    listed afterwards.  The aggregate is the one the request states; where
    it states none, it is the 32-bit sum of the listed changes, of the
    counts of the default and of the unlisted templates, and of the
    replicas of the new instances. *)
Theorem X5_synced_instances_and_changes
    (counts : gmap string Z) (rc : ReplicaChanger)
    (newInstances : list InstanceTemplate) :
  let names : gset string := list_to_set (irtName <$> rcInstances rc) in
  let res := getSyncedInstancesAndReplicaChanges counts rc newInstances in
  (∃ added,
     res.1 = rcInstances rc ++ added
     ∧ NoDup (irtName <$> added)
     ∧ ∀ k v, {| irtName := k; irtReplicaChanges := v |} ∈ added
              ↔ counts !! k = Some v ∧ k ≠ "" ∧ k ∉ names)
  ∧ (∀ k, is_Some (counts !! k) → k ≠ "" → k ∈ irtName <$> res.1)
  ∧ (∀ c, rcReplicaChanges rc = Some c → res.2 = Some c)
  ∧ (rcReplicaChanges rc = None →
     res.2 = Some (wrap32
                     (foldr Z.add 0%Z (irtReplicaChanges <$> rcInstances rc)
                      + foldr Z.add 0%Z
                          ((filter (λ '(k, v), k = "" ∨ k ∉ names)
                              (map_to_list counts)).*2)
                      + foldr Z.add 0%Z (GetReplicas <$> newInstances)))).
Proof.
  intros names res. subst res. unfold getSyncedInstancesAndReplicaChanges.
  fold names.
  assert (int32 0%Z) as H0 by (unfold int32; lia).
  rewrite (foldl_add32 irtReplicaChanges (rcInstances rc) 0%Z H0).
  rewrite sync_fold by apply wrap32_range.
  rewrite (foldl_add32 GetReplicas newInstances _ (wrap32_range _)).
  cbn [fst snd].
  set (added := omap _ (map_to_list counts)).
  assert (∀ k v, {| irtName := k; irtReplicaChanges := v |} ∈ added
                 ↔ counts !! k = Some v ∧ k ≠ "" ∧ k ∉ names) as Hadded.
  { intros k v. subst added. rewrite list_elem_of_omap. split.
    - intros ([k' v'] & Hin & Hf). apply elem_of_map_to_list in Hin.
      case_bool_decide; [|done]. by simplify_eq.
    - intros (Hkv & Hk & Hn). exists (k, v).
      split; [by apply elem_of_map_to_list|].
      by rewrite bool_decide_eq_true_2. }
  split; [|split; [|split]].
  - exists added. split; [done|]. split; [|done].
    apply synced_names_NoDup, NoDup_fst_map_to_list.
  - intros k [v Hkv] Hk. rewrite fmap_app, elem_of_app.
    destruct (decide (k ∈ names)) as [Hin|Hnin].
    + left. by apply elem_of_list_to_set in Hin.
    + right. apply list_elem_of_fmap.
      exists {| irtName := k; irtReplicaChanges := v |}.
      split; [done|]. by apply Hadded.
  - by intros c ->.
  - intros ->. f_equal. rewrite !wrap32_wrap32_add.
    rewrite Z.add_0_l.
    by rewrite <- Z.add_assoc, wrap32_wrap32_add, Z.add_assoc.
Qed.

(** ** getCreateAndDeletePodSet *)

Lemma podsNotIn_self cn full (a : gmap string string) :
  podsNotIn cn full a a = ∅.
Proof. apply dom_empty_iff_L. rewrite dom_podsNotIn. set_solver. Qed.

Lemma lookup_foldl_addPod cn full (m : gmap string string) (l : list string) k v :
  foldl (addPod cn full) m l !! k = Some v →
  m !! k = Some v ∨ v = GetInstanceTemplateName cn full k.
Proof.
  revert m. induction l as [|a l IH]; intros m; simpl; [by left|].
  intros Hl. apply IH in Hl as [Hl|Hl]; [|by right].
  unfold addPod in Hl. destruct (decide (a = k)) as [->|Hne].
  - rewrite lookup_insert_eq in Hl. right. congruence.
  - rewrite lookup_insert_ne in Hl by done. by left.
Qed.

Lemma lookup_podsNotIn cn full (a b : gmap string string) k v :
  podsNotIn cn full a b !! k = Some v → v = GetInstanceTemplateName cn full k.
Proof.
  unfold podsNotIn.
  assert (∀ (l : list string) (m : gmap string string),
            foldl (λ m k, if bool_decide (is_Some (b !! k)) then m
                          else addPod cn full m k) m l !! k = Some v →
            m !! k = Some v ∨ v = GetInstanceTemplateName cn full k) as Hfold.
  { induction l as [|x l IH]; intros m; simpl; [by left|].
    intros Hl. apply IH in Hl as [Hl|Hl]; [|by right].
    case_bool_decide; [by left|]. unfold addPod in Hl.
    destruct (decide (x = k)) as [->|Hne].
    - rewrite lookup_insert_eq in Hl. right. congruence.
    - rewrite lookup_insert_ne in Hl by done. by left. }
  intros Hl. apply Hfold in Hl as [Hl|Hl]; [|done].
  by rewrite lookup_empty in Hl.
Qed.

(** X6.  A delta request that has neither a scale-in nor a scale-out part
    changes nothing: the expected topology is the last configuration, and
    no instance is to be created or deleted. *)
Theorem X6_empty_request_is_a_no_op
    (opsRes : OpsResource) (last : LastComponentConfiguration)
    (cur : ClusterComponentSpec) (hs : HorizontalScaling) (full : string)
    (r : Z) (podsOfComp podsOfFull : gmap string string) :
  hsReplicas hs = None → hsScaleIn hs = None → hsScaleOut hs = None →
  lastReplicas last = Some r →
  GenerateAllPodNamesToSet r (lastInstances last) (lastOfflineInstances last)
    (clusterName (opsCluster opsRes)) (hsComponentName hs) = Ok podsOfComp →
  GenerateAllPodNamesToSet r (lastInstances last) (lastOfflineInstances last)
    (clusterName (opsCluster opsRes)) full = Ok podsOfFull →
  getExpectedCompValues opsRes cur last hs
  = Ok (r, lastInstances last, lastOfflineInstances last)
  ∧ getCreateAndDeletePodSet opsRes last cur hs full = Ok (∅, ∅).
Proof.
  intros Hdelta Hin Hout Hr Hcomp Hfull.
  assert (getExpectedCompValues opsRes cur last hs
          = Ok (r, lastInstances last, lastOfflineInstances last)) as Hexp.
  { unfold getExpectedCompValues, baseline, derefReplicas,
      filterHorizontalScalingSpec.
    rewrite Hdelta, Hr. simpl. rewrite Hcomp. simpl.
    unfold getCompExpectReplicas, getCompExpectedInstances,
      getCompExpectedOfflineInstances, autoSyncReplicaChanges, filterNames.
    simpl. by rewrite Hdelta, Hin, Hout. }
  split; [done|].
  unfold getCreateAndDeletePodSet, derefReplicas.
  rewrite Hr. simpl. rewrite Hfull. simpl. rewrite Hexp. simpl.
  rewrite Hfull. simpl. rewrite Hin, Hout, !podsNotIn_self.
  by destruct (bool_decide _).
Qed.

(** X7.  Each of the two sets maps an instance name to the template name of
    that instance. *)
Theorem X7_pod_sets_carry_template_names
    (opsRes : OpsResource) (last : LastComponentConfiguration)
    (cur : ClusterComponentSpec) (hs : HorizontalScaling) (full : string)
    (created deleted : gmap string string) :
  getCreateAndDeletePodSet opsRes last cur hs full = Ok (created, deleted) →
  ∀ k v, created !! k = Some v ∨ deleted !! k = Some v →
         v = GetInstanceTemplateName (clusterName (opsCluster opsRes)) full k.
Proof.
  unfold getCreateAndDeletePodSet, derefReplicas.
  destruct (lastReplicas last) as [r|]; simpl; [|intros [=]].
  destruct (GenerateAllPodNamesToSet r _ _ _ _) as [lastPodSet| |];
    simpl; [|intros [=]..].
  destruct (getExpectedCompValues _ _ _ _) as [[[er ei] eo]| |];
    simpl; [|intros [=]..].
  destruct (GenerateAllPodNamesToSet er _ _ _ _) as [currPodSet| |];
    simpl; [|intros [=]..].
  set (cn := clusterName (opsCluster opsRes)).
  assert (∀ (o : option (list string)) (m : gmap string string) k v,
            (∀ k v, m !! k = Some v → v = GetInstanceTemplateName cn full k) →
            match o with
            | Some l => if bool_decide (0 < length l)
                        then foldl (addPod cn full) m l else m
            | None => m
            end !! k = Some v →
            v = GetInstanceTemplateName cn full k) as Hnamed.
  { intros [l|] m k v Hm; [|apply Hm]. case_bool_decide; [|apply Hm].
    intros [Hl|Hl]%lookup_foldl_addPod; [by apply Hm|done]. }
  intros Hres k v Hkv.
  assert (∀ k v, (match hsScaleIn hs with
                  | Some si =>
                      if bool_decide (0 < length (siOnlineInstancesToOffline si))
                      then foldl (addPod cn full)
                             (podsNotIn cn full lastPodSet currPodSet)
                             (siOnlineInstancesToOffline si)
                      else podsNotIn cn full lastPodSet currPodSet
                  | None => podsNotIn cn full lastPodSet currPodSet
                  end) !! k = Some v →
                 v = GetInstanceTemplateName cn full k) as HD.
  { intros k' v'.
    destruct (hsScaleIn hs) as [si|];
      [apply (Hnamed (Some (siOnlineInstancesToOffline si)))
      |apply (Hnamed None)]; apply lookup_podsNotIn. }
  assert (∀ k v, (match hsScaleOut hs with
                  | Some so =>
                      if bool_decide (0 < length (soOfflineInstancesToOnline so))
                      then foldl (addPod cn full)
                             (podsNotIn cn full currPodSet lastPodSet)
                             (soOfflineInstancesToOnline so)
                      else podsNotIn cn full currPodSet lastPodSet
                  | None => podsNotIn cn full currPodSet lastPodSet
                  end) !! k = Some v →
                 v = GetInstanceTemplateName cn full k) as HC.
  { intros k' v'.
    destruct (hsScaleOut hs) as [so|];
      [apply (Hnamed (Some (soOfflineInstancesToOnline so)))
      |apply (Hnamed None)]; apply lookup_podsNotIn. }
  destruct (bool_decide (opsPhase (opsRequest opsRes) = OpsCancellingPhase));
    injection Hres as <- <-; destruct Hkv as [Hkv|Hkv]; eauto.
Qed.

(** ** Validation and Action together *)

(** X8.  The offline instances a delta request leaves in the spec once
    Action accepts it: an instance is offline exactly when the last
    configuration had it offline or the request takes it offline and it is
    one of the derived instances, unless the request brings it online from
    being offline.  Under the strict policy, then, every instance named in
    [onlineInstancesToOffline] is offline afterwards and no instance named
    in [offlineInstancesToOnline] is. *)
Theorem X8_action_offline_instances
    (opsRes : OpsResource) (compSpec spec' : ClusterComponentSpec)
    (hs : HorizontalScaling) :
  hsReplicas hs = None →
  Action_update opsRes compSpec hs = (spec', Ok ()) →
  let last := lastConfigurationOf (opsRequest opsRes) (hsComponentName hs) in
  ∃ r pods,
    lastReplicas last = Some r
    ∧ GenerateAllPodNamesToSet r (lastInstances last)
        (lastOfflineInstances last) (clusterName (opsCluster opsRes))
        (hsComponentName hs) = Ok pods
    ∧ (∀ n, n ∈ ccsOfflineInstances spec'
            ↔ (n ∈ lastOfflineInstances last
               ∨ (n ∈ toOffline hs ∧ is_Some (pods !! n)))
              ∧ ¬ (n ∈ toOnline hs ∧ n ∈ lastOfflineInstances last))
    ∧ ((opsAnnotations (opsRequest opsRes) !! HscaleValidatePolicyKey = None
        ∨ opsAnnotations (opsRequest opsRes) !! HscaleValidatePolicyKey
          = Some HscaleValidatePolicyStrict) →
       (∀ n, n ∈ toOffline hs → n ∈ ccsOfflineInstances spec')
       ∧ (∀ n, n ∈ toOnline hs → n ∉ ccsOfflineInstances spec')).
Proof.
  intros Hdelta Hact last.
  destruct (Action_update_Ok _ _ _ _ Hact) as (Hvalid & Hexp & _).
  fold last in Hvalid, Hexp.
  unfold getExpectedCompValues, baseline, derefReplicas,
    filterHorizontalScalingSpec in Hexp.
  rewrite Hdelta in Hexp.
  destruct (lastReplicas last) as [r|] eqn:Hr; simpl in Hexp; [|done].
  destruct (GenerateAllPodNamesToSet r _ _ _ _) as [pods| |] eqn:Hgen;
    simpl in Hexp; [|done..].
  injection Hexp as _ _ Hoff.
  exists r, pods. split; [done|]. split; [done|].
  assert (∀ n, n ∈ ccsOfflineInstances spec'
               ↔ (n ∈ lastOfflineInstances last
                  ∨ (n ∈ toOffline hs ∧ is_Some (pods !! n)))
                 ∧ ¬ (n ∈ toOnline hs ∧ n ∈ lastOfflineInstances last))
    as Hmem.
  { intros n. rewrite <- Hoff.
    rewrite (proj1 (proj2 (expected_offline_instances_closed _ _))).
    rewrite (proj1 (filterNames_toOffline _ _ _)),
      (proj1 (filterNames_toOnline _ _ _)), elem_of_list_to_set.
    tauto. }
  split; [done|]. intros Hpol.
  destruct (validate_strict_Ok opsRes last hs r pods Hr Hgen Hpol Hvalid)
    as [Hon Hoffl].
  split.
  - intros n Hn. apply Hmem. destruct (Hon n Hn) as [Hnotoff Hpod].
    split; [right; done|]. by intros [_ ?].
  - intros n Hn. rewrite Hmem. intros [_ Hneg]. apply Hneg.
    split; [done|]. by apply Hoffl.
Qed.

(** X9.  The classification of the named instances: every name of the list
    falls in exactly one of the three sets, and a name that is recorded
    offline is classed offline even when it is also one of the derived
    instances. *)
Theorem X9_classification_is_a_partition
    (instance : list string) (offlineInstances : gset string)
    (currPodSet : gmap string string) :
  let '(onlined, offlined, notExist) :=
    collectOnlineAndOfflineAndNotExistInstances instance offlineInstances
      currPodSet in
  onlined ∪ offlined ∪ notExist = list_to_set instance
  ∧ onlined ## offlined ∧ onlined ## notExist ∧ offlined ## notExist
  ∧ (∀ n, n ∈ instance → n ∈ offlineInstances → n ∈ offlined).
Proof.
  destruct (collect_spec instance offlineInstances currPodSet)
    as (on & off & ne & -> & Hon & Hoff & Hne).
  cbv beta iota.
  split; [|split; [|split; [|split]]].
  - apply set_eq. intros n.
    rewrite !elem_of_union, Hon, Hoff, Hne, elem_of_list_to_set.
    destruct (decide (n ∈ offlineInstances)) as [Ho|Ho],
      (currPodSet !! n) as [v|] eqn:Hp; split.
    all: try (intros [[(? & ? & ?)|(? & ?)]|(? & ? & ?)]; done).
    all: intros Hn.
    + left. by right.
    + left. by right.
    + left. left. split; [done|]. split; [done|]. by eexists.
    + right. done.
  - intros n. rewrite Hon, Hoff. tauto.
  - intros n. rewrite Hon, Hne. intros (_ & _ & [v Hv]) (_ & _ & Hn).
    congruence.
  - intros n. rewrite Hoff, Hne. tauto.
  - intros n Hn Ho. by apply Hoff.
Qed.

(** X10.  The strict policy is the stronger one: a request that is valid
    with no policy annotation, or with the strict one, is valid under any
    annotation. *)
Theorem X10_strict_validation_implies_any
    (strict other : OpsResource) (last : LastComponentConfiguration)
    (hs : HorizontalScaling) :
  clusterName (opsCluster strict) = clusterName (opsCluster other) →
  (opsAnnotations (opsRequest strict) !! HscaleValidatePolicyKey = None
   ∨ opsAnnotations (opsRequest strict) !! HscaleValidatePolicyKey
     = Some HscaleValidatePolicyStrict) →
  validateHorizontalScalingWithPolicy strict last hs = Ok () →
  validateHorizontalScalingWithPolicy other last hs = Ok ().
Proof.
  intros Hcn Hpol. unfold validateHorizontalScalingWithPolicy.
  rewrite Hcn.
  destruct (derefReplicas last) as [r| |]; simpl; [|done..].
  destruct (GenerateAllPodNamesToSet r _ _ _ _) as [pods| |]; simpl; [|done..].
  destruct (collecteAllTypeOfInstancesFromOps _ _ _) as [[on off] ne].
  case_bool_decide; [done|].
  assert (strictPolicyValidation hs on off = Ok () →
          match opsAnnotations (opsRequest other) !! HscaleValidatePolicyKey with
          | Some policy =>
              if bool_decide (policy ≠ HscaleValidatePolicyStrict) then Ok ()
              else strictPolicyValidation hs on off
          | None => strictPolicyValidation hs on off
          end = Ok ()) as Hother.
  { intros Hs. destruct (opsAnnotations (opsRequest other) !! _);
      [by case_bool_decide|done]. }
  destruct Hpol as [-> | ->]; [done|].
  rewrite bool_decide_eq_false_2; [done|]. by intros Hp; apply Hp.
Qed.

(** ** Failures of Action *)

(** X11.  The update of one component is all or nothing.  Whatever the
    outcome the component keeps its name; an outcome other than success
    leaves the spec exactly as it was, an error of the validation being
    returned as it is, before any expected value is computed. *)
Theorem X11_failed_action_leaves_spec
    (opsRes : OpsResource) (compSpec : ClusterComponentSpec)
    (hs : HorizontalScaling) :
  let last := lastConfigurationOf (opsRequest opsRes) (hsComponentName hs) in
  ccsName (Action_update opsRes compSpec hs).1 = ccsName compSpec
  ∧ ((Action_update opsRes compSpec hs).2 ≠ Ok () →
     (Action_update opsRes compSpec hs).1 = compSpec)
  ∧ (∀ e, validateHorizontalScalingWithPolicy opsRes last hs = Err e →
          Action_update opsRes compSpec hs = (compSpec, Err e))
  ∧ (validateHorizontalScalingWithPolicy opsRes last hs = Panic →
     Action_update opsRes compSpec hs = (compSpec, Panic)).
Proof.
  intros last. unfold Action_update. fold last.
  destruct (validateHorizontalScalingWithPolicy opsRes last hs) as [[]|e|];
    simpl.
  - destruct (getExpectedCompValues _ _ _ _) as [[[r i] o]|e|]; simpl;
      [case_bool_decide; simpl|..]; repeat split; try done.
  - split; [done|]. split; [done|]. split; [|done]. by intros ? [= <-].
  - done.
Qed.

Lemma abortLoop_failure opsRes componentOpsSet earlierOps l r :
  abortLoop opsRes componentOpsSet earlierOps l = r →
  (∀ b, r ≠ Ok b) →
  opsPhase earlierOps ≠ OpsPendingPhase
  ∧ ∃ v curr,
      v ∈ l ∧ componentOpsSet !! hsComponentName v = Some curr
      ∧ hsReplicas curr = None ∧ hsReplicas v = None
      ∧ match r with
        | Ok _ => False
        | Err e => checkIntersectionWithEarlierOps opsRes earlierOps curr v
                   = Err e
        | Panic => checkIntersectionWithEarlierOps opsRes earlierOps curr v
                   = Panic
        end.
Proof.
  intros <-. induction l as [|v rest IH]; simpl; [intros Hf; by destruct (Hf false)|].
  destruct (componentOpsSet !! hsComponentName v) as [curr|] eqn:Hcur;
    [|intros Hf; by destruct (Hf false)].
  case_bool_decide as Habs; [intros Hf; by destruct (Hf true)|].
  case_bool_decide as Hpend; [intros Hf; by destruct (Hf false)|].
  assert (hsReplicas curr = None ∧ hsReplicas v = None) as [Hc Hv].
  { destruct (hsReplicas curr), (hsReplicas v); try done;
      exfalso; apply Habs; auto. }
  destruct (checkIntersectionWithEarlierOps opsRes earlierOps curr v)
    as [[]|e|] eqn:Hchk; simpl.
  - intros Hf. destruct (IH Hf) as (_ & v' & curr' & Hin & Hrest).
    split; [done|]. exists v', curr'. split; [by right|done].
  - intros _. split; [done|]. exists v, curr. split; [left|done].
  - intros _. split; [done|]. exists v, curr. split; [left|done].
Qed.

(** X12.  The abort condition fails only through the intersection check:
    a failure means that the earlier operation is neither a Start nor a
    Stop and is not Pending, and that on some component both operations
    name, both in delta mode, [checkIntersectionWithEarlierOps] fails in
    that way.  So the condition never fails on a Start, a Stop or a
    Pending operation. *)
Theorem X12_abort_condition_failures
    (opsRes : OpsResource) (componentOpsSet : gmap string HorizontalScaling)
    (earlierOps : OpsRequest) (r : result bool) :
  Action_abortCondition opsRes componentOpsSet earlierOps = r →
  (∀ b, r ≠ Ok b) →
  (opsType earlierOps ∉ [StartType; StopType])
  ∧ opsPhase earlierOps ≠ OpsPendingPhase
  ∧ ∃ v curr,
      v ∈ opsHorizontalScalingList earlierOps
      ∧ componentOpsSet !! hsComponentName v = Some curr
      ∧ hsReplicas curr = None ∧ hsReplicas v = None
      ∧ match r with
        | Ok _ => False
        | Err e => checkIntersectionWithEarlierOps opsRes earlierOps curr v
                   = Err e
        | Panic => checkIntersectionWithEarlierOps opsRes earlierOps curr v
                   = Panic
        end.
Proof.
  unfold Action_abortCondition. case_bool_decide as Hty.
  - intros <- Hf. by destruct (Hf true).
  - intros Hr Hf. split; [done|]. by apply abortLoop_failure.
Qed.

End HScaleFurther.

(** ** Further runs of the handler on concrete requests *)

Section HScaleFurtherExamples.
Import HScale HScale.Sample.
#[local] Existing Instance collaborators.

Ltac names_in := cbn; repeat constructor.

Ltac names_not_in :=
  let Hn := fresh in
  intros Hn; cbn in Hn;
  repeat (apply elem_of_cons in Hn as [Hn|Hn]; [discriminate|]);
  by apply elem_of_nil in Hn.

(** Of the two instances to take offline only [c-x-1] exists; of the two
    to bring online only [c-x-7] is offline. *)
Lemma X1_filter_keeps_real_instances_witness :
  ∃ filtered,
    filterHorizontalScalingSpec (resource (spec 3 [] ["c-x-7"]) opsB) 3 []
      ["c-x-7"]
      (request None (Some (scaleOutNames ["c-x-7"; "c-x-1"]))
         (Some (scaleInNames ["c-x-1"; "c-x-9"])))
    = Ok filtered
    ∧ ("c-x-1" ∈ toOffline filtered) ∧ ("c-x-9" ∉ toOffline filtered)
    ∧ ("c-x-7" ∈ toOnline filtered) ∧ ("c-x-1" ∉ toOnline filtered).
Proof.
  pose proof (X1_filter_keeps_real_instances (H:=collaborators)
                (resource (spec 3 [] ["c-x-7"]) opsB) 3 [] ["c-x-7"]
                (request None (Some (scaleOutNames ["c-x-7"; "c-x-1"]))
                   (Some (scaleInNames ["c-x-1"; "c-x-9"])))) as Hx.
  change (GenerateAllPodNamesToSet 3 [] ["c-x-7"]
            (clusterName (opsCluster (resource (spec 3 [] ["c-x-7"]) opsB)))
            (hsComponentName
               (request None (Some (scaleOutNames ["c-x-7"; "c-x-1"]))
                  (Some (scaleInNames ["c-x-1"; "c-x-9"])))))
    with (allPodNames 3 [] ["c-x-7"] "c" "x") in Hx.
  assert (allPodNames 3 [] ["c-x-7"] "c" "x"
          = Ok {[ "c-x-0" := ""; "c-x-1" := ""; "c-x-2" := "" ]}) as Hpods
    by (vm_compute; reflexivity).
  rewrite Hpods in Hx.
  destruct Hx as (filtered & Hres & _ & _ & _ & _ & _ & Hoff & Hon & _).
  exists filtered. split; [exact Hres|].
  split; [apply Hoff; split; [names_in|eexists; vm_compute; reflexivity]|].
  split; [rewrite Hoff; intros [_ [v Hv]]; vm_compute in Hv; discriminate|].
  split; [apply Hon; split; names_in|].
  rewrite Hon. intros [_ Hn]. revert Hn. names_not_in.
Defined.

(** One more replica for template [t]: template [u] stays as it is, and
    the new template [w] comes after the two. *)
Lemma X4_expected_instances_untouched_witness :
  let hs := request None
              (Some {| soReplicaChanger :=
                         {| rcReplicaChanges := Some 2%Z;
                            rcInstances := [ {| irtName := "t";
                                                irtReplicaChanges := 1 |} ] |};
                       soNewInstances := [tpl "w" 1];
                       soOfflineInstancesToOnline := [] |})
              None in
  getCompExpectedInstances [tpl "t" 1; tpl "u" 2] hs !! 1%nat = Some (tpl "u" 2)
  ∧ getCompExpectedInstances [tpl "t" 1; tpl "u" 2] hs !! 2%nat
    = Some (tpl "w" 1).
Proof.
  intros hs.
  destruct (X4_expected_instances_untouched (H:=collaborators)
              [tpl "t" 1; tpl "u" 2] hs eq_refl) as [Hold Hnew].
  split.
  - apply Hold; [reflexivity|].
    intros v Hv. cbn in Hv. apply list_elem_of_singleton in Hv as ->.
    discriminate.
  - apply (Hnew 0%nat). reflexivity.
Defined.

(** A request with no scale-in and no scale-out part. *)
Lemma X6_empty_request_is_a_no_op_witness :
  getExpectedCompValues (resource (spec 3 [] []) opsB) (spec 5 [] ["c-x-0"])
    (getLastComponentInfo (spec 3 [] [])) (request None None None)
  = Ok (3%Z, [], [])
  ∧ getCreateAndDeletePodSet (resource (spec 3 [] []) opsB)
      (getLastComponentInfo (spec 3 [] [])) (spec 5 [] ["c-x-0"])
      (request None None None) "x"
    = Ok (∅, ∅).
Proof.
  apply (X6_empty_request_is_a_no_op (H:=collaborators)
           (resource (spec 3 [] []) opsB) (getLastComponentInfo (spec 3 [] []))
           (spec 5 [] ["c-x-0"]) (request None None None) "x" 3
           {[ "c-x-0" := ""; "c-x-1" := ""; "c-x-2" := "" ]}
           {[ "c-x-0" := ""; "c-x-1" := ""; "c-x-2" := "" ]});
    vm_compute; reflexivity.
Defined.

(** The instance [c-x-2] that is taken offline is an instance of the
    default template. *)
Lemma X7_pod_sets_carry_template_names_witness :
  instanceTemplateName "c" "x" "c-x-2" = "".
Proof.
  symmetry.
  apply (X7_pod_sets_carry_template_names (H:=collaborators)
           (resource (spec 3 [] []) opsB) (getLastComponentInfo (spec 3 [] []))
           (spec 2 [] ["c-x-2"]) (takeOffline "c-x-2") "x"
           ∅ {[ "c-x-2" := "" ]});
    [vm_compute; reflexivity|right; vm_compute; reflexivity].
Defined.

(** Taking [c-x-2] offline under the strict policy. *)
Lemma X8_action_offline_instances_witness :
  Action_update (resource (spec 3 [] []) opsB) (spec 3 [] [])
    (takeOffline "c-x-2")
  = (spec 2 [] ["c-x-2"], Ok ())
  ∧ "c-x-2" ∈ ccsOfflineInstances (spec 2 [] ["c-x-2"]).
Proof.
  assert (Action_update (resource (spec 3 [] []) opsB) (spec 3 [] [])
            (takeOffline "c-x-2")
          = (spec 2 [] ["c-x-2"], Ok ())) as Hact
    by (vm_compute; reflexivity).
  split; [exact Hact|].
  destruct (X8_action_offline_instances (H:=collaborators)
              (resource (spec 3 [] []) opsB) (spec 3 [] [])
              (spec 2 [] ["c-x-2"]) (takeOffline "c-x-2") eq_refl Hact)
    as (r & pods & _ & _ & _ & Hstrict).
  destruct Hstrict as [Hoff _]; [left; vm_compute; reflexivity|].
  apply Hoff. names_in.
Defined.

(** The request that passes the strict validation passes under the policy
    [loose] as well. *)
Lemma X10_strict_validation_implies_any_witness :
  validateHorizontalScalingWithPolicy
    (resource (spec 3 [] [])
       (ops "b" (Some "loose") OpsCreatingPhase (takeOffline "c-x-2")
          (spec 3 [] [])))
    (getLastComponentInfo (spec 3 [] [])) (takeOffline "c-x-2")
  = Ok ().
Proof.
  apply (X10_strict_validation_implies_any (H:=collaborators)
           (resource (spec 3 [] []) opsB));
    [reflexivity|left; vm_compute; reflexivity|vm_compute; reflexivity].
Defined.

(** Operation [b] takes offline the instance operation [a] created: the
    failure of the abort condition is the failure of the intersection
    check on component [x]. *)
Lemma X12_abort_condition_failures_witness :
  opsPhase opsA ≠ OpsPendingPhase
  ∧ ∃ v curr,
      v ∈ opsHorizontalScalingList opsA
      ∧ checkIntersectionWithEarlierOps (resource (spec 3 [] []) opsB) opsA
          curr v
        = Err (FatalError (msgCreatedByOther "c-x-2" "a")).
Proof.
  destruct (X12_abort_condition_failures (H:=collaborators)
              (resource (spec 3 [] []) opsB)
              {[ "x" := takeOffline "c-x-2" ]} opsA
              (Err (FatalError (msgCreatedByOther "c-x-2" "a"))))
    as (_ & Hpend & v & curr & Hin & _ & _ & _ & Hchk);
    [vm_compute; reflexivity|discriminate|].
  split; [exact Hpend|]. exists v, curr. split; [exact Hin|exact Hchk].
Defined.

End HScaleFurtherExamples.

(** * Further properties of the object-generation transformer *)

Section RSMFurther.
Import RSM.

(** ** The merge as a fixed point *)

Lemma mergeMetadataMap_idem (a b : MetaMap) :
  mergeMetadataMap (mergeMetadataMap a b) b = mergeMetadataMap a b.
Proof.
  destruct a as [a|]; [|apply mergeMetadataMap_same].
  unfold mergeMetadataMap. f_equal. apply map_eq. intros k.
  rewrite !merge_fold_lookup. by destruct (default ∅ b !! k).
Qed.

Lemma copyAndMergeSts_idem (os ns : StatefulSet) :
  (copyAndMergeSts (copyAndMergeSts os ns).1 ns).1 = (copyAndMergeSts os ns).1.
Proof.
  unfold copyAndMergeSts, withLabels, withAnnotations. simpl.
  by rewrite !mergeMetadataMap_idem.
Qed.

Lemma copyAndMergeSvc_idem (os ns : Service) :
  (copyAndMergeSvc (copyAndMergeSvc os ns).1 ns).1 = (copyAndMergeSvc os ns).1.
Proof.
  unfold copyAndMergeSvc, withAnnotations. simpl.
  by rewrite !mergeMetadataMap_idem.
Qed.

Lemma sameType_refl (o : Object) : sameType o o = true.
Proof. destruct o; simpl; [done..|]. by apply bool_decide_eq_true_2. Qed.

(** X13.  The merge is idempotent: merging the desired object into the
    result of the merge once more returns that result.  An update that has
    been applied is therefore followed by an update that changes nothing,
    as long as the desired object stays the same. *)
Theorem X13_merge_is_idempotent (o n m : Object) :
  mergedObject o n = Some m → mergedObject m n = Some m.
Proof.
  unfold mergedObject.
  destruct (sameType o n) eqn:Hty; simpl; [|intros [=]].
  destruct o as [os|os|oc|ko mo bo], n as [ns|ns|nc|kn mn bn];
    simpl in Hty; try discriminate; intros [= <-].
  - exact (f_equal (λ x, Some (ObjStatefulSet x)) (copyAndMergeSts_idem os ns)).
  - exact (f_equal (λ x, Some (ObjService x)) (copyAndMergeSvc_idem os ns)).
  - done.
  - simpl. by rewrite bool_decide_eq_true_2.
Qed.

(** ** The desired snapshot *)

Lemma newSnapshotOf_from (objects : list Object) (m : gmap GVKNObjKey Object)
    (k : GVKNObjKey) (obj : Object) :
  foldl (λ m object, <[GetGVKName object := object]> m) m objects !! k
  = Some obj →
  (m !! k = Some obj ∧ ∀ o, o ∈ objects → GetGVKName o ≠ k)
  ∨ (obj ∈ objects ∧ GetGVKName obj = k).
Proof.
  revert m. induction objects as [|x xs IH]; intros m; simpl.
  - intros Hm. left. split; [done|]. by intros o ?%elem_of_nil.
  - intros [[Hm Hxs]|[Hin Hk]]%IH.
    + destruct (decide (GetGVKName x = k)) as [<-|Hne].
      * rewrite lookup_insert_eq in Hm. injection Hm as ->.
        right. split; [left|done].
      * rewrite lookup_insert_ne in Hm by done. left. split; [done|].
        intros o [->|Ho]%elem_of_cons; [done|by apply Hxs].
    + right. split; [by right|done].
Qed.

Lemma newSnapshotOf_last (pre post : list Object) (obj : Object)
    (m : gmap GVKNObjKey Object) :
  (∀ o, o ∈ post → GetGVKName o ≠ GetGVKName obj) →
  foldl (λ m object, <[GetGVKName object := object]> m) m
    (pre ++ obj :: post) !! GetGVKName obj = Some obj.
Proof.
  intros Hpost. rewrite foldl_app. simpl.
  generalize (foldl (λ m object, <[GetGVKName object := object]> m) m pre).
  intros m'.
  assert (<[GetGVKName obj := obj]> m' !! GetGVKName obj = Some obj) as Hm
    by apply lookup_insert_eq.
  revert Hm. generalize (<[GetGVKName obj := obj]> m'). clear m'.
  induction post as [|x xs IH]; intros m' Hm; simpl; [done|].
  apply IH.
  - intros o Ho. apply Hpost. by right.
  - rewrite lookup_insert_ne; [done|]. apply Hpost. left.
Qed.

(** X14.  The desired snapshot holds every generated object under its own
    key and nothing else, and of two generated objects with one key the
    later one.  So an object the plan creates is one of the generated
    objects and was not observed, and a generated object that was not
    observed is created unless a later one has its key. *)
Theorem X14_desired_snapshot_keys
    (compat : bool) (g : Generated) (oldSnapshot : gmap GVKNObjKey Object) :
  (∀ k obj, newSnapshotOf (objectsOf g) !! k = Some obj →
            obj ∈ objectsOf g ∧ GetGVKName obj = k)
  ∧ (∀ pre obj post,
       objectsOf g = pre ++ obj :: post →
       (∀ o, o ∈ post → GetGVKName o ≠ GetGVKName obj) →
       newSnapshotOf (objectsOf g) !! GetGVKName obj = Some obj)
  ∧ (∀ obj, Create obj ∈ Transform false compat g oldSnapshot →
            obj ∈ objectsOf g ∧ oldSnapshot !! GetGVKName obj = None)
  ∧ (∀ pre obj post,
       objectsOf g = pre ++ obj :: post →
       (∀ o, o ∈ post → GetGVKName o ≠ GetGVKName obj) →
       oldSnapshot !! GetGVKName obj = None →
       Create obj ∈ Transform false compat g oldSnapshot).
Proof.
  assert (∀ k obj, newSnapshotOf (objectsOf g) !! k = Some obj →
                   obj ∈ objectsOf g ∧ GetGVKName obj = k) as Hkey.
  { intros k obj Hl. unfold newSnapshotOf in Hl.
    apply newSnapshotOf_from in Hl as [[Hl _]|Hl]; [|done].
    by rewrite lookup_empty in Hl. }
  assert (∀ pre obj post,
            objectsOf g = pre ++ obj :: post →
            (∀ o, o ∈ post → GetGVKName o ≠ GetGVKName obj) →
            newSnapshotOf (objectsOf g) !! GetGVKName obj = Some obj) as Hlast.
  { intros pre obj post -> Hpost. by apply newSnapshotOf_last. }
  split; [done|]. split; [done|]. split.
  - intros obj. rewrite Transform_creates, elem_of_createNewObjects.
    intros (k & Hk & Hl). destruct (Hkey k obj Hl) as [Hin <-].
    split; [done|]. apply not_elem_of_dom. set_solver.
  - intros pre obj post Hobjs Hpost Hold.
    rewrite Transform_creates, elem_of_createNewObjects.
    exists (GetGVKName obj). split; [|by eapply Hlast].
    apply elem_of_difference. split.
    + apply elem_of_dom. eexists. by eapply Hlast.
    + by apply not_elem_of_dom.
Qed.

(** ** The plan in the steady state *)

Lemma mergedObject_same (o : Object) : mergedObject o o = Some o.
Proof.
  unfold mergedObject. rewrite sameType_refl. simpl.
  destruct o as [[[ns nm l a r] [rep [[tns tnm tl ta tr] tspec] us rest] st]
                |[[ns nm l a r] spec st]|[m i d b]|k m b]; simpl.
  - unfold withLabels, withAnnotations. simpl.
    by rewrite !mergeMetadataMap_same.
  - unfold withAnnotations. simpl. by rewrite !mergeMetadataMap_same.
  - done.
  - done.
Qed.

(** X15.  When the observed snapshot is the desired one, the plan creates
    nothing and deletes nothing, and each of its updates replaces a
    generated object by itself. *)
Theorem X15_steady_state_plan (compat : bool) (g : Generated) :
  let plan := Transform false compat g (newSnapshotOf (objectsOf g)) in
  (∀ obj, Create obj ∉ plan)
  ∧ (∀ obj, Delete obj ∉ plan)
  ∧ (∀ o n, Update o n ∈ plan → n = Some o ∧ o ∈ objectsOf g)
  ∧ (∀ k o, newSnapshotOf (objectsOf g) !! k = Some o →
            Update o (Some o) ∈ plan).
Proof.
  intros plan. subst plan. split; [|split; [|split]].
  - intros obj. rewrite Transform_creates, elem_of_createNewObjects.
    intros (k & Hk & _). set_solver.
  - intros obj. rewrite Transform_deletes, elem_of_deleteOrphanObjects.
    intros (k & Hk & _). set_solver.
  - intros o n. rewrite Transform_updates, elem_of_updateObjects.
    intros (k & newObj & _ & Ho & Hn & ->). rewrite Ho in Hn.
    injection Hn as <-. split; [apply mergedObject_same|].
    unfold newSnapshotOf in Ho.
    apply newSnapshotOf_from in Ho as [[Ho _]|[Ho _]]; [|done].
    by rewrite lookup_empty in Ho.
  - intros k o Ho. rewrite Transform_updates, elem_of_updateObjects.
    exists k, o. split; [|by rewrite mergedObject_same].
    apply elem_of_intersection. split; apply elem_of_dom; by eexists.
Qed.

End RSMFurther.

Section RSMFurtherExamples.
Import RSM RSM.Sample.

(** Merging the new stateful set into the merged one changes nothing. *)
Lemma X13_merge_is_idempotent_witness :
  mergedObject (ObjStatefulSet (copyAndMergeSts oldSts newSts).1)
    (ObjStatefulSet newSts)
  = Some (ObjStatefulSet (copyAndMergeSts oldSts newSts).1).
Proof.
  apply (X13_merge_is_idempotent (ObjStatefulSet oldSts)). reflexivity.
Defined.

End RSMFurtherExamples.

(** * Properties of the pod template of the workload *)

Section ProbeProperties.
Import Probe.
Context `{Package}.

(** ** Ports *)

Lemma available_spec (port : Z) (used : list Z) :
  available port used = true ↔ port ∉ used.
Proof.
  induction used as [|u used IH]; simpl.
  - split; [intros _; apply not_elem_of_nil|done].
  - case_bool_decide as Hp.
    + subst. split; [done|]. intros Hn. exfalso. apply Hn. left.
    + rewrite IH. rewrite not_elem_of_cons. tauto.
Qed.

Lemma findAllUsedPorts_from (cs : list Container) (acc : list Z) (p : Z) :
  p ∈ foldl (λ allUsedPorts container,
               foldl (λ allUsedPorts port,
                        allUsedPorts ++ [cpContainerPort port; cpHostPort port])
                     allUsedPorts (Ports container))
            acc cs
  ↔ p ∈ acc ∨ ∃ c port, c ∈ cs ∧ port ∈ Ports c
                        ∧ (p = cpContainerPort port ∨ p = cpHostPort port).
Proof.
  assert (∀ (ps : list ContainerPort) acc,
            p ∈ foldl (λ allUsedPorts port,
                         allUsedPorts ++ [cpContainerPort port; cpHostPort port])
                      acc ps
            ↔ p ∈ acc ∨ ∃ port, port ∈ ps
                 ∧ (p = cpContainerPort port ∨ p = cpHostPort port)) as Hports.
  { induction ps as [|x ps IH]; intros acc'; simpl.
    - split; [by left|]. intros [?|(? & ?%elem_of_nil & _)]; done.
    - rewrite IH, elem_of_app, !elem_of_cons, elem_of_nil. split.
      + intros [[?|[?|[?|[]]]]|(port & Hin & Hp)]; eauto.
        * right. exists x. split; [left|by left].
        * right. exists x. split; [left|by right].
        * right. exists port. split; [by right|done].
      + intros [?|(port & [->|Hin]%elem_of_cons & Hp)]; eauto.
        destruct Hp; auto. }
  revert acc. induction cs as [|c cs IH]; intros acc; simpl.
  - split; [by left|]. intros [?|(? & ? & ?%elem_of_nil & _)]; done.
  - rewrite IH, Hports. split.
    + intros [[?|(port & Hin & Hp)]|(c' & port & Hc & Hin & Hp)]; eauto.
      * right. exists c, port. split; [left|done].
      * right. exists c', port. split; [by right|done].
    + intros [?|(c' & port & [->|Hc]%elem_of_cons & Hin & Hp)]; eauto 8.
Qed.

(** The ports a template uses. *)
Lemma elem_of_findAllUsedPorts (template : PodTemplateSpec) (p : Z) :
  p ∈ findAllUsedPorts template
  ↔ ∃ c port, c ∈ Containers template ∧ port ∈ Ports c
              ∧ (p = cpContainerPort port ∨ p = cpHostPort port).
Proof.
  unfold findAllUsedPorts. rewrite findAllUsedPorts_from.
  split; [intros [?%elem_of_nil|?]; done|by right].
Qed.

Lemma findNextAvailablePort_spec (base : Z) (used : list Z) :
  let first := add32 base 1 in
  let p := findNextAvailablePort base used in
  ((first ≤ p < 65535)%Z ∧ (p ∉ used)
   ∧ ∀ q, (first ≤ q < p)%Z → q ∈ used)
  ∨ (p = 0%Z ∧ ∀ q, (first ≤ q < 65535)%Z → q ∈ used).
Proof.
  intros first p. subst p. unfold findNextAvailablePort. fold first.
  destruct (list_find _ _) as [[i x]|] eqn:Hfind; simpl.
  - left. apply list_find_Some in Hfind as (Hl & Hx & Hmin).
    apply lookup_seqZ in Hl as [-> Hi].
    split; [lia|]. split; [by apply available_spec|].
    intros q Hq. destruct (decide (q ∈ used)) as [|Hn]; [done|].
    exfalso. apply (Hmin (Z.to_nat (q - first)) q).
    + apply lookup_seqZ. lia.
    + lia.
    + by apply available_spec.
  - right. split; [done|]. apply list_find_None in Hfind.
    intros q Hq. destruct (decide (q ∈ used)) as [|Hn]; [done|].
    exfalso. rewrite Forall_forall in Hfind. apply (Hfind q).
    + apply elem_of_seqZ. lia.
    + by apply available_spec.
Qed.

(** X16.  [findNextAvailablePort] returns the least port from [base + 1] up
    to 65534 that is not in use, and 0 exactly when there is none or when 0
    is that port. *)
Theorem X16_next_available_port (base : Z) (used : list Z) :
  let first := add32 base 1 in
  let p := findNextAvailablePort base used in
  (((first ≤ p < 65535)%Z ∧ (p ∉ used)
    ∧ ∀ q, (first ≤ q < p)%Z → q ∈ used)
   ∨ (p = 0%Z ∧ ∀ q, (first ≤ q < 65535)%Z → q ∈ used))
  ∧ (p = 0%Z ↔ (∀ q, (first ≤ q < 65535)%Z → q ∈ used)
               ∨ ((first ≤ 0)%Z ∧ (0%Z ∉ used)
                  ∧ ∀ q, (first ≤ q < 0)%Z → q ∈ used)).
Proof.
  intros first p. pose proof (findNextAvailablePort_spec base used) as Hs.
  cbv zeta in Hs. fold first p in Hs. split; [done|]. split.
  - intros Hp. destruct Hs as [(Hr & Hn & Hmin)|[_ Hall]]; [|by left].
    right. rewrite Hp in *. split; [lia|done].
  - intros [Hall|(Hle & Hn & Hmin)].
    + destruct Hs as [(Hr & Hn & _)|[Hp _]]; [|done].
      exfalso. apply Hn. by apply Hall.
    + destruct Hs as [(Hr & Hn' & Hmin')|[Hp _]]; [|done].
      destruct (Z.lt_trichotomy p 0) as [Hlt|[Heq|Hgt]]; [|done|].
      * exfalso. apply Hn'. apply Hmin. lia.
      * exfalso. apply Hn. apply Hmin'. lia.
Qed.

Lemma actionSvcPorts_fold (actions : list Action) (used : list Z)
    (svcPort : Z) (acc : list Z) :
  ∃ ports,
    snd (foldl (λ '(svcPort, actionSvcPorts) _,
                  let svcPort := findNextAvailablePort svcPort used in
                  (svcPort, actionSvcPorts ++ [svcPort]))
               (svcPort, acc) actions) = acc ++ ports
    ∧ length ports = length actions
    ∧ (∀ p, p ∈ ports → p = 0%Z ∨ (p ∉ used))
    ∧ ((0 ≤ svcPort < 65535)%Z →
       (∀ p, p ∈ ports → (0 ≤ p < 65535)%Z)
       ∧ ((0%Z ∉ ports) → StronglySorted Z.lt (svcPort :: ports))).
Proof.
  revert svcPort acc. induction actions as [|a actions IH];
    intros svcPort acc; simpl.
  - exists []. rewrite app_nil_r. split; [done|]. split; [done|].
    split; [by intros p ?%elem_of_nil|]. intros _.
    split; [by intros p ?%elem_of_nil|]. intros _. repeat constructor.
  - destruct (IH (findNextAvailablePort svcPort used)
                (acc ++ [findNextAvailablePort svcPort used]))
      as (ports & Heq & Hlen & Hfree & Hrange).
    pose proof (findNextAvailablePort_spec svcPort used) as Hs.
    cbv zeta in Hs.
    set (p0 := findNextAvailablePort svcPort used) in *.
    exists (p0 :: ports). split; [rewrite <- app_assoc in Heq; exact Heq|].
    split; [simpl; by rewrite Hlen|].
    split.
    { intros p [->|Hp]%elem_of_cons; [|by apply Hfree].
      destruct Hs as [(_ & Hn & _)|[-> _]]; [by right|by left]. }
    intros Hsvc.
    assert (add32 svcPort 1 = (svcPort + 1)%Z) as Hfirst.
    { unfold add32. apply wrap32_id. unfold int32. lia. }
    rewrite Hfirst in Hs.
    assert (0 ≤ p0 < 65535)%Z as Hp0 by (destruct Hs as [?|[-> _]]; lia).
    destruct (Hrange Hp0) as [Hall Hsorted]. split.
    { intros p [->|Hp]%elem_of_cons; [done|by apply Hall]. }
    intros Hnz. apply not_elem_of_cons in Hnz as [Hnz0 Hnz].
    specialize (Hsorted Hnz).
    assert (svcPort < p0)%Z as Hlt by (destruct Hs as [?|[Hz _]]; [lia|done]).
    constructor; [done|].
    constructor; [done|].
    apply StronglySorted_inv in Hsorted as [_ Hforall].
    eapply Forall_impl; [exact Hforall|]. simpl. intros; lia.
Qed.

(** X17.  The service ports of the probe actions: one port per action; a
    port other than 0 is the container port or the host port of no
    container of the template; and, when the base lies in the port range,
    the ports lie in it too and, unless some search came back with 0,
    increase strictly from the base on. *)
Theorem X17_action_service_ports
    (template : PodTemplateSpec) (actions : list Action) :
  let ports := actionSvcPortsOf actions (findAllUsedPorts template) in
  length ports = length actions
  ∧ (∀ p c port, p ∈ ports → p ≠ 0%Z →
       c ∈ Containers template → port ∈ Ports c →
       cpContainerPort port ≠ p ∧ cpHostPort port ≠ p)
  ∧ ((0 ≤ actionSvcPortBase < 65535)%Z →
     (∀ p, p ∈ ports → (0 ≤ p < 65535)%Z)
     ∧ ((0%Z ∉ ports) → StronglySorted Z.lt (actionSvcPortBase :: ports))).
Proof.
  intros ports.
  destruct (actionSvcPorts_fold actions (findAllUsedPorts template)
              actionSvcPortBase [])
    as (ports' & Heq & Hlen & Hfree & Hrange).
  assert (ports = ports') as -> by exact Heq. clear Heq.
  split; [done|]. split; [|done].
  intros p c port Hp Hnz Hc Hport.
  destruct (Hfree p Hp) as [?|Hn]; [done|].
  split; intros Heq; apply Hn, elem_of_findAllUsedPorts; exists c, port; auto.
Qed.

(** ** The environment of the role probe container *)

Lemma hasEnv_spec (containerEnv : list EnvVar) (e : EnvVar) :
  hasEnv containerEnv e = true ↔ envName e ∈ envName <$> containerEnv.
Proof.
  unfold hasEnv. rewrite existsb_exists, list_elem_of_fmap. split.
  - intros (v & Hin & Hv). apply bool_decide_eq_true_1 in Hv.
    exists v. split; [done|]. by apply list_elem_of_In.
  - intros (v & Hv & Hin). exists v. split; [by apply list_elem_of_In|].
    by apply bool_decide_eq_true_2.
Qed.

Lemma mergeEnv_spec (containerEnv env : list EnvVar) :
  ∃ added,
    mergeEnv containerEnv env = containerEnv ++ added
    ∧ sublist added env
    ∧ NoDup (envName <$> added)
    ∧ (∀ e, e ∈ added → envName e ∉ envName <$> containerEnv)
    ∧ (∀ e, e ∈ env → envName e ∈ envName <$> containerEnv ++ added).
Proof.
  unfold mergeEnv. revert containerEnv.
  induction env as [|e env IH]; intros containerEnv; simpl.
  - exists []. rewrite app_nil_r. split; [done|]. split; [done|].
    split; [constructor|]. split; by intros e ?%elem_of_nil.
  - destruct (hasEnv containerEnv e) eqn:Hhas.
    + destruct (IH containerEnv) as (added & -> & Hsub & Hnd & Hnew & Hall).
      exists added. split; [done|]. split; [by apply sublist_cons|].
      split; [done|]. split; [done|].
      intros e' [->|Hin]%elem_of_cons; [|by apply Hall].
      apply hasEnv_spec in Hhas. rewrite fmap_app, elem_of_app. by left.
    + destruct (IH (containerEnv ++ [e]))
        as (added & -> & Hsub & Hnd & Hnew & Hall).
      assert (envName e ∉ envName <$> containerEnv) as Hne.
      { intros Hin. apply hasEnv_spec in Hin. congruence. }
      exists (e :: added). split; [by rewrite <- app_assoc|].
      split; [by apply sublist_skip|]. split.
      { rewrite fmap_cons. apply NoDup_cons. split; [|done].
        intros (e' & Heq & Hin)%list_elem_of_fmap.
        apply (Hnew e' Hin). rewrite fmap_app, elem_of_app. right.
        rewrite <- Heq. simpl. left. }
      split.
      { intros e' [->|Hin]%elem_of_cons; [done|].
        intros Hc. apply (Hnew e' Hin). rewrite fmap_app, elem_of_app.
        by left. }
      intros e' [->|Hin]%elem_of_cons.
      * rewrite fmap_app, elem_of_app. right. rewrite fmap_cons. left.
      * specialize (Hall e' Hin). by rewrite <- app_assoc in Hall.
Qed.

(** X18.  The variables of the role probe container after the merge: the
    variables it had come first, as they were; what is added is taken from
    [env] in order, one variable for each name the container did not have,
    the first of that name; after the merge every name of [env] is defined,
    and two variables of one name there are only where the container had
    them before. *)
Theorem X18_env_merge_keeps_container_values (containerEnv env : list EnvVar) :
  ∃ added,
    mergeEnv containerEnv env = containerEnv ++ added
    ∧ sublist added env
    ∧ NoDup (envName <$> added)
    ∧ (∀ e, e ∈ added → envName e ∉ envName <$> containerEnv)
    ∧ (∀ e, e ∈ env → envName e ∈ envName <$> mergeEnv containerEnv env)
    ∧ (NoDup (envName <$> containerEnv) →
       NoDup (envName <$> mergeEnv containerEnv env))
    ∧ (∀ i v, containerEnv !! i = Some v →
              mergeEnv containerEnv env !! i = Some v).
Proof.
  destruct (mergeEnv_spec containerEnv env)
    as (added & Heq & Hsub & Hnd & Hnew & Hall).
  exists added. rewrite Heq. split; [done|]. split; [done|]. split; [done|].
  split; [done|]. split; [done|]. split.
  - intros Hc. rewrite fmap_app. apply NoDup_app. split; [done|].
    split; [|done].
    intros n Hn (e & -> & Hin)%list_elem_of_fmap. by apply (Hnew e Hin).
  - intros i v Hi. by apply lookup_app_l_Some.
Qed.

(** ** The containers of the probe actions *)

Lemma injectActionContainers_Ok (actions : list Action) (i : nat)
    (ports : list Z) (cred : list EnvVar) (cs : list Container) :
  i + length actions ≤ length ports →
  ∃ acs,
    injectActionContainers i actions ports cred cs = Ok (cs ++ acs)
    ∧ length acs = length actions
    ∧ ∀ j action, actions !! j = Some action →
        ∃ port, ports !! (i + j) = Some port
                ∧ acs !! j = Some (actionContainer (i + j) action port cred).
Proof.
  revert i cs. induction actions as [|a actions IH]; intros i cs Hlen; simpl.
  - exists []. rewrite app_nil_r. split; [done|]. split; [done|].
    intros j action Hj. by rewrite lookup_nil in Hj.
  - simpl in Hlen.
    destruct (ports !! i) as [port|] eqn:Hport;
      [|apply lookup_ge_None in Hport; lia].
    destruct (IH (S i) (cs ++ [actionContainer i a port cred]))
      as (acs & -> & Hacs & Hall); [lia|].
    exists (actionContainer i a port cred :: acs).
    split; [by rewrite <- app_assoc|]. split; [simpl; by rewrite Hacs|].
    intros [|j] action Hj; simpl in Hj.
    + injection Hj as <-. exists port. by rewrite Nat.add_0_r.
    + destruct (Hall j action Hj) as (port' & Hp' & Hc').
      exists port'. replace (i + S j) with (S i + j) by lia. done.
Qed.

Lemma injectActionContainers_Panic (actions : list Action) (i : nat)
    (ports : list Z) (cred : list EnvVar) (cs : list Container) :
  i ≤ length ports → length ports < i + length actions →
  injectActionContainers i actions ports cred cs = Panic.
Proof.
  revert i cs. induction actions as [|a actions IH]; intros i cs Hi Hlen;
    simpl in *; [lia|].
  destruct (ports !! i) as [port|] eqn:Hport; [|done].
  apply lookup_lt_Some in Hport. apply IH; lia.
Qed.

(** X19.  [injectProbeActionContainer] on a workload with a role probe.
    Given fewer ports than there are probe actions it panics, on the index
    into the ports.  Otherwise it adds one volume, one init container and
    one container for each action, in order and after the containers the
    template had, which stay as they were: the container of action [j] is
    named after [j], serves on port [j] of the list, and runs the image of
    the action or, where the action names none, the default image. *)
Theorem X19_probe_action_containers
    (rsm : ReplicatedStateMachine) (roleProbe : RoleProbe)
    (template : PodTemplateSpec) (actionSvcPorts : list Z)
    (credentialEnv : list EnvVar) :
  rsmRoleProbe rsm = Some roleProbe →
  (length actionSvcPorts < length (ProbeActions roleProbe) →
   injectProbeActionContainer rsm template actionSvcPorts credentialEnv
   = Panic)
  ∧ (length (ProbeActions roleProbe) ≤ length actionSvcPorts →
     ∃ acs,
       injectProbeActionContainer rsm template actionSvcPorts credentialEnv
       = Ok {| Volumes := Volumes template
                          ++ [EmptyDirVolume roleAgentVolumeName];
               InitContainers := InitContainers template ++ [initContainer];
               Containers := Containers template ++ acs;
               templateRest := templateRest template |}
       ∧ length acs = length (ProbeActions roleProbe)
       ∧ ∀ j action, ProbeActions roleProbe !! j = Some action →
           ∃ port c,
             actionSvcPorts !! j = Some port ∧ acs !! j = Some c
             ∧ Name c = "action-" +:+ pretty j
             ∧ Command c
               = [agentPath; "-port"; pretty port; "-export-all-vars";
                  "-form"; shell2httpServePath;
                  joinWith " " (actCommand action)]
             ∧ Image c = (if bool_decide (actImage action = "")
                          then defaultActionImage else actImage action)
             ∧ Env c = credentialEnv ∧ Ports c = [] ∧ EnvFrom c = []
             ∧ ReadinessProbe c = None).
Proof.
  intros Hrp. unfold injectProbeActionContainer. rewrite Hrp. split.
  - intros Hlt. by rewrite injectActionContainers_Panic by (simpl; lia).
  - intros Hle.
    destruct (injectActionContainers_Ok (ProbeActions roleProbe) 0
                actionSvcPorts credentialEnv (Containers template))
      as (acs & -> & Hlen & Hall); [simpl; lia|].
    exists acs. split; [done|]. split; [done|].
    intros j action Hj. destruct (Hall j action Hj) as (port & Hp & Hc).
    simpl in Hp, Hc. exists port, (actionContainer j action port credentialEnv).
    split; [done|]. split; [done|]. split; [done|]. split; [done|].
    split; [|done]. simpl.
    destruct (actImage action); by repeat case_bool_decide.
Qed.

(** ** The role probe container *)

Lemma updateRoleProbeContainer_no_probe image c probe env :
  canProbeRole image (updateRoleProbeContainer c probe env) = false.
Proof.
  unfold canProbeRole. simpl. by rewrite andb_false_r.
Qed.

(** X20.  [injectRoleProbeAgentContainer] on a workload with a role probe
    never returns an error.  The container it takes for the role probe
    container is the first one with the image of the agent, the role probe
    binary as its command and no readiness probe.  If that container has
    fewer than two ports the call panics.  Otherwise only that container
    changes: it gets a readiness probe on its second port and the merged
    environment, so that it would not be taken again.  Where there is no
    such container, one is appended, with the two ports of the agent. *)
Theorem X20_role_probe_agent_container
    (settings : Settings) (rsm : ReplicatedStateMachine) (roleProbe : RoleProbe)
    (template : PodTemplateSpec) (actionSvcList : string)
    (credentialEnv : list EnvVar) :
  rsmRoleProbe rsm = Some roleProbe →
  let image := agentImage settings in
  let cs := Containers template in
  let env := agentEnv rsm roleProbe actionSvcList credentialEnv in
  let res := injectRoleProbeAgentContainer settings rsm template actionSvcList
               credentialEnv in
  (∀ e, res ≠ Err e)
  ∧ (∀ i c, cs !! i = Some c → canProbeRole image c = true →
       (∀ j c', cs !! j = Some c' → j < i → canProbeRole image c' = false) →
       (length (Ports c) < 2 → res = Panic)
       ∧ (∀ grpc, Ports c !! 1%nat = Some grpc →
          ∃ c' probe,
            res = Ok (withContainers template (<[i := c']> cs))
            ∧ Name c' = Name c ∧ Image c' = Image c
            ∧ Command c' = Command c ∧ Ports c' = Ports c
            ∧ EnvFrom c' = EnvFrom c ∧ VolumeMounts c' = VolumeMounts c
            ∧ containerRest c' = containerRest c
            ∧ Env c' = mergeEnv (Env c) env
            ∧ ReadinessProbe c' = Some probe
            ∧ execCommand probe
              = [grpcHealthProbeBinaryPath;
                 grpcHealthProbeArgs (cpContainerPort grpc)]
            ∧ canProbeRole image c' = false))
  ∧ ((∀ c, c ∈ cs → canProbeRole image c = false) →
     ∃ agent probe,
       res = Ok (withContainers template (cs ++ [agent]))
       ∧ Name agent = roleProbeContainerName ∧ Image agent = image
       ∧ Env agent = env ∧ EnvFrom agent = []
       ∧ cpName <$> Ports agent
         = [roleProbeContainerName; roleProbeGRPCPortName]
       ∧ ReadinessProbe agent = Some probe).
Proof.
  intros Hrp image cs env res. subst res.
  unfold injectRoleProbeAgentContainer. rewrite Hrp.
  fold image. cbv zeta. fold env. fold cs.
  unfold tryToGetRoleProbeContainer.
  split; [|split].
  - intros e. destruct (list_find _ cs) as [[i c]|]; [|done].
    by destruct (Ports c !! 1%nat).
  - intros i c Hi Hc Hfirst.
    assert (list_find (λ c, canProbeRole image c = true) cs = Some (i, c))
      as ->.
    { apply list_find_Some. split; [done|]. split; [done|].
      intros j c' Hj Hlt. rewrite (Hfirst j c' Hj Hlt). done. }
    split.
    + intros Hlen. destruct (Ports c !! 1%nat) eqn:Hp; [|done].
      apply lookup_lt_Some in Hp. lia.
    + intros grpc ->. eexists _, _. split; [reflexivity|].
      repeat (split; [reflexivity|]).
      apply updateRoleProbeContainer_no_probe.
  - intros Hnone.
    assert (list_find (λ c, canProbeRole image c = true) cs = None) as ->.
    { apply list_find_None, Forall_forall. intros c Hc.
      rewrite (Hnone c Hc). done. }
    eexists _, _. split; [reflexivity|]. by repeat split.
Qed.

(** ** buildStsPodTemplate *)

Lemma canProbeRole_withEnvConfig (image name : string) (c : Container) :
  canProbeRole image (withEnvConfig name c) = canProbeRole image c.
Proof. done. Qed.

Lemma canProbeRole_actionContainer (image : string) (j : nat)
    (action : Action) (port : Z) (cred : list EnvVar) :
  canProbeRole image (actionContainer j action port cred) = true
  ↔ agentPath = roleProbeBinaryName
    ∧ (if bool_decide (actImage action = "")
       then defaultActionImage else actImage action) = image.
Proof.
  unfold canProbeRole. simpl. rewrite andb_true_r, andb_true_iff.
  rewrite !bool_decide_eq_true.
  destruct (actImage action); repeat case_bool_decide; naive_solver.
Qed.

Lemma injectRoleProbeContainer_cases (settings : Settings)
    (rsm : ReplicatedStateMachine) (roleProbe : RoleProbe)
    (template : PodTemplateSpec) :
  rsmRoleProbe rsm = Some roleProbe →
  ∃ acs,
    length acs = length (ProbeActions roleProbe)
    ∧ (∀ c, c ∈ acs → EnvFrom c = [] ∧ Ports c = [])
    ∧ (∀ j c, acs !! j = Some c →
         ∃ action port,
           ProbeActions roleProbe !! j = Some action
           ∧ c = actionContainer j action port
                   (credentialEnvOf (rsmCredential rsm)))
    ∧ match list_find (λ c, canProbeRole (agentImage settings) c = true)
              (Containers template ++ acs) with
      | Some (i, c) =>
          match Ports c !! 1%nat with
          | None => injectRoleProbeContainer settings rsm template = Panic
          | Some _ =>
              ∃ probe env,
                injectRoleProbeContainer settings rsm template
                = Ok {| Volumes := Volumes template
                                   ++ [EmptyDirVolume roleAgentVolumeName];
                        InitContainers := InitContainers template
                                          ++ [initContainer];
                        Containers :=
                          <[i := updateRoleProbeContainer c probe env]>
                            (Containers template ++ acs);
                        templateRest := templateRest template |}
          end
      | None =>
          ∃ agent,
            EnvFrom agent = []
            ∧ injectRoleProbeContainer settings rsm template
              = Ok {| Volumes := Volumes template
                                 ++ [EmptyDirVolume roleAgentVolumeName];
                      InitContainers := InitContainers template
                                        ++ [initContainer];
                      Containers := (Containers template ++ acs) ++ [agent];
                      templateRest := templateRest template |}
      end.
Proof.
  intros Hrp. unfold injectRoleProbeContainer. rewrite Hrp.
  cbv zeta.
  set (cred := credentialEnvOf (rsmCredential rsm)).
  set (ports := actionSvcPortsOf (ProbeActions roleProbe)
                  (findAllUsedPorts template)).
  assert (length ports = length (ProbeActions roleProbe)) as Hports.
  { subst ports. unfold actionSvcPortsOf.
    destruct (actionSvcPorts_fold (ProbeActions roleProbe)
                (findAllUsedPorts template) actionSvcPortBase [])
      as (ports' & Heq & Hlen & _).
    etrans; [|exact Hlen]. f_equal. exact Heq. }
  unfold injectProbeActionContainer. rewrite Hrp.
  destruct (injectActionContainers_Ok (ProbeActions roleProbe) 0 ports cred
              (Containers template))
    as (acs & -> & Hlen & Hall); [simpl; lia|].
  assert (∀ j c, acs !! j = Some c →
            ∃ action port,
              ProbeActions roleProbe !! j = Some action
              ∧ c = actionContainer j action port cred) as Hacs.
  { intros j c Hj.
    assert (j < length (ProbeActions roleProbe)) as Hlt.
    { rewrite <- Hlen. by eapply lookup_lt_Some. }
    apply lookup_lt_is_Some in Hlt as [action Ha].
    destruct (Hall j action Ha) as (port & _ & Hc). rewrite Hj in Hc.
    injection Hc as ->. by exists action, port. }
  exists acs. split; [done|]. split.
  { intros c (j & Hj)%list_elem_of_lookup.
    by destruct (Hacs j c Hj) as (action & port & _ & ->). }
  split; [done|].
  simpl. unfold injectRoleProbeAgentContainer. rewrite Hrp.
  cbv zeta. unfold tryToGetRoleProbeContainer. simpl.
  destruct (list_find _ _) as [[i c]|]; simpl.
  - destruct (Ports c !! 1%nat); [|done]. eexists _, _. reflexivity.
  - eexists. split; [|reflexivity]. done.
Qed.

(** X21.  The pod template of the stateful set.  Building it never returns
    an error, and the index into the action ports never leaves the list.
    It panics exactly when the workload has a role probe and the container
    taken for the role probe container has fewer than two ports: that is
    the first container of the spec with the image of the agent, the role
    probe binary as its command and no readiness probe, or, when the spec
    has none, the container of a probe action, which has no port (this
    needs the agent path to be the role probe binary and the image of the
    action to be that of the agent).  Without a role probe the template is
    the one of the spec with the env config map added to every container.
    With one, every container of the spec is still there, in its place,
    with its name, image, command and ports, with the env config map as its
    last source of environment and with the variables it had before any
    other; the containers that are injected after them have no such
    source; and there is one more container for each probe action, and one
    for the agent exactly when no container of the spec is taken for the
    role probe container. *)
Theorem X21_sts_pod_template
    (settings : Settings) (rsm : ReplicatedStateMachine)
    (envConfigName : string) :
  let cs := Containers (rsmTemplate rsm) in
  let image := agentImage settings in
  let res := buildStsPodTemplate settings rsm envConfigName in
  (∀ e, res ≠ Err e)
  ∧ (res = Panic ↔
     ∃ roleProbe,
       rsmRoleProbe rsm = Some roleProbe
       ∧ ((∃ i c, cs !! i = Some c ∧ canProbeRole image c = true
                  ∧ (∀ j c', cs !! j = Some c' → j < i →
                             canProbeRole image c' = false)
                  ∧ length (Ports c) < 2)
          ∨ ((∀ c, c ∈ cs → canProbeRole image c = false)
             ∧ ∃ action, action ∈ ProbeActions roleProbe
                 ∧ agentPath = roleProbeBinaryName
                 ∧ (if bool_decide (actImage action = "")
                    then defaultActionImage else actImage action) = image)))
  ∧ (rsmRoleProbe rsm = None →
     res = Ok (withContainers (rsmTemplate rsm)
                 (withEnvConfig envConfigName <$> cs)))
  ∧ (∀ t', res = Ok t' →
       (∀ i c, cs !! i = Some c →
          ∃ c', Containers t' !! i = Some c'
                ∧ EnvFrom c'
                  = EnvFrom c ++ [ConfigMapRef envConfigName (Some false)]
                ∧ Name c' = Name c ∧ Image c' = Image c
                ∧ Command c' = Command c ∧ Ports c' = Ports c
                ∧ ∃ added, Env c' = Env c ++ added)
       ∧ (∀ i c', length cs ≤ i → Containers t' !! i = Some c' →
            EnvFrom c' = [])
       ∧ (∀ roleProbe, rsmRoleProbe rsm = Some roleProbe →
            ((∃ c, c ∈ cs ∧ canProbeRole image c = true) →
             length (Containers t')
             = length cs + length (ProbeActions roleProbe))
            ∧ ((∀ c, c ∈ cs → canProbeRole image c = false) →
               length (Containers t')
               = length cs + length (ProbeActions roleProbe) + 1))).
Proof.
  intros cs image res. subst res. unfold buildStsPodTemplate. cbv zeta.
  remember (withContainers (rsmTemplate rsm)
              (withEnvConfig envConfigName <$> Containers (rsmTemplate rsm)))
    as t0 eqn:Hdef.
  assert (Containers t0 = withEnvConfig envConfigName <$> cs) as Ht0
    by (by rewrite Hdef).
  assert (∀ i c, cs !! i = Some c →
            Containers t0 !! i = Some (withEnvConfig envConfigName c)) as Hcs.
  { intros i c Hi. rewrite Ht0, list_lookup_fmap, Hi. done. }
  assert (length (Containers t0) = length cs) as Hn
    by (by rewrite Ht0, length_fmap).
  assert (∀ i c0, Containers t0 !! i = Some c0 →
            ∃ c, cs !! i = Some c ∧ c0 = withEnvConfig envConfigName c)
    as Hcs'.
  { intros i c0. rewrite Ht0, list_lookup_fmap.
    destruct (cs !! i) as [c|]; [|done]. intros [= <-]. by exists c. }
  destruct (rsmRoleProbe rsm) as [roleProbe|] eqn:Hrp.
  2:{ unfold injectRoleProbeContainer. rewrite Hrp.
      split; [done|]. split; [by split; [|intros (? & ? & _)]|].
      split; [by rewrite Hdef|].
      intros t' [= <-]. split; [|split].
      - intros i c Hi. exists (withEnvConfig envConfigName c).
        split; [by apply Hcs|]. simpl. repeat (split; [done|]).
        exists []. by rewrite app_nil_r.
      - intros i c' Hi Hc'. apply lookup_lt_Some in Hc'. lia.
      - intros roleProbe' [=]. }
  destruct (injectRoleProbeContainer_cases settings rsm roleProbe t0 Hrp)
    as (acs & Hlen & Hacs & Hactions & Hres).
  fold image in Hres.
  (* the container that is found, in terms of the spec *)
  assert (∀ k ck,
            list_find (λ c, canProbeRole image c = true)
              (Containers t0 ++ acs) = Some (k, ck) →
            (k < length cs
             ∧ ∃ c, cs !! k = Some c ∧ ck = withEnvConfig envConfigName c
                    ∧ canProbeRole image c = true
                    ∧ (∀ j c', cs !! j = Some c' → j < k →
                               canProbeRole image c' = false))
            ∨ (length cs ≤ k ∧ Ports ck = []
               ∧ (∀ c, c ∈ cs → canProbeRole image c = false)
               ∧ ∃ action, action ∈ ProbeActions roleProbe
                   ∧ agentPath = roleProbeBinaryName
                   ∧ (if bool_decide (actImage action = "")
                      then defaultActionImage else actImage action) = image))
    as Hfound.
  { intros k ck (Hk & Hck & Hmin)%list_find_Some.
    destruct (decide (k < length cs)) as [Hlt|Hge].
    - left. split; [done|].
      rewrite lookup_app_l in Hk by lia.
      destruct (Hcs' k ck Hk) as (c & Hc & ->).
      exists c. split; [done|]. split; [done|]. split; [done|].
      intros j c' Hj Hjk.
      destruct (canProbeRole image c') eqn:Hc'; [|done].
      exfalso. apply (Hmin j (withEnvConfig envConfigName c')); [|done|done].
      rewrite lookup_app_l by (rewrite Hn; by eapply lookup_lt_Some).
      by apply Hcs.
    - right. split; [lia|].
      rewrite lookup_app_r in Hk by lia.
      split; [apply Hacs; by eapply list_elem_of_lookup_2|].
      split.
      + intros c (j & Hj)%list_elem_of_lookup.
        pose proof (lookup_lt_Some _ _ _ Hj) as Hjlt.
        destruct (canProbeRole image c) eqn:Hc; [|done].
        exfalso. apply (Hmin j (withEnvConfig envConfigName c)); [|lia|done].
        rewrite lookup_app_l by (rewrite Hn; by eapply lookup_lt_Some).
        by apply Hcs.
      + destruct (Hactions _ _ Hk) as (action & port & Ha & ->).
        exists action. split; [by eapply list_elem_of_lookup_2|].
        by apply canProbeRole_actionContainer in Hck. }
  destruct (list_find _ _) as [[k ck]|] eqn:Hfind.
  - destruct (Hfound k ck eq_refl)
      as [(Hlt & c & Hc & -> & Hcan & Hfirst)
         |(Hge & Hports & Hnone & action & Ha & Hpath & Himg)].
    + (* a container of the spec is taken *)
      simpl in Hres.
      destruct (Ports c !! 1%nat) as [grpc|] eqn:Hgrpc.
      * destruct Hres as (probe & env & ->).
        split; [done|]. split.
        { split; [done|]. intros (rp & _ & [Hp|[Hno _]]).
          - destruct Hp as (i & c1 & Hi & Hc1 & Hfirst1 & Hshort).
            assert (i = k) as ->.
            { destruct (Nat.lt_trichotomy i k) as [?|[?|?]]; [|done|].
              - rewrite (Hfirst i c1 Hi) in Hc1 by done. done.
              - rewrite (Hfirst1 k c Hc) in Hcan by done. done. }
            rewrite Hc in Hi. injection Hi as <-.
            apply lookup_lt_Some in Hgrpc. lia.
          - rewrite (Hno c) in Hcan; [done|].
            by eapply list_elem_of_lookup_2. }
        split; [done|].
        intros t' [= <-]. simpl. split; [|split].
        -- intros i c1 Hi. specialize (Hcs i c1 Hi).
           destruct (decide (i = k)) as [->|Hne].
           ++ rewrite Hc in Hi. injection Hi as <-.
              eexists. split.
              { apply list_lookup_insert_eq. rewrite length_app, Hn. lia. }
              simpl. repeat (split; [done|]).
              destruct (mergeEnv_spec (Env c) env) as (added & -> & _).
              by exists added.
           ++ exists (withEnvConfig envConfigName c1).
              split.
              { rewrite list_lookup_insert_ne by done.
                rewrite lookup_app_l by (rewrite Hn; by eapply lookup_lt_Some).
                done. }
              simpl. repeat (split; [done|]). exists []. by rewrite app_nil_r.
        -- intros i c' Hi Hc'.
           rewrite list_lookup_insert_ne in Hc' by lia.
           rewrite lookup_app_r in Hc' by lia.
           apply list_elem_of_lookup_2 in Hc'. by apply Hacs.
        -- intros roleProbe' [= <-]. split.
           ++ intros _. by rewrite length_insert, length_app, Hn, Hlen.
           ++ intros Hno. rewrite (Hno c) in Hcan; [done|].
              by eapply list_elem_of_lookup_2.
      * split; [by rewrite Hres|]. split.
        { split; [|by rewrite Hres]. intros _. exists roleProbe.
          split; [done|]. left. exists k, c.
          split; [done|]. split; [done|]. split; [done|].
          apply lookup_ge_None in Hgrpc. lia. }
        split; [done|]. intros t'. by rewrite Hres.
    + (* the container of a probe action is taken: it has no port *)
      rewrite Hports in Hres. simpl in Hres.
      split; [by rewrite Hres|]. split.
      { split; [|by rewrite Hres]. intros _. exists roleProbe.
        split; [done|]. right. split; [done|]. by exists action. }
      split; [done|]. intros t'. by rewrite Hres.
  - (* no container is taken: the agent is appended *)
    destruct Hres as (agent & Hagent & ->).
    apply list_find_None in Hfind. rewrite Forall_forall in Hfind.
    assert (∀ c, c ∈ cs → canProbeRole image c = false) as Hnone.
    { intros c (j & Hj)%list_elem_of_lookup.
      destruct (canProbeRole image c) eqn:Hc; [|done].
      exfalso. apply (Hfind (withEnvConfig envConfigName c)); [|done].
      apply elem_of_app. left. eapply list_elem_of_lookup_2. by apply Hcs. }
    split; [done|]. split.
    { split; [done|]. intros (rp & Hrp' & [Hp|[_ Ha]]).
      - destruct Hp as (i & c & Hi & Hc & _).
        rewrite (Hnone c) in Hc; [done|]. by eapply list_elem_of_lookup_2.
      - injection Hrp' as <-.
        destruct Ha as (action & (j & Hj)%list_elem_of_lookup & Hpath & Himg).
        assert (j < length acs) as Hlt
          by (rewrite Hlen; by eapply lookup_lt_Some).
        apply lookup_lt_is_Some in Hlt as [c Hc].
        destruct (Hactions j c Hc) as (action' & port & Ha' & ->).
        rewrite Hj in Ha'. injection Ha' as <-.
        exfalso. eapply (Hfind (actionContainer j action port _)).
        + apply elem_of_app. right. by eapply list_elem_of_lookup_2.
        + by apply canProbeRole_actionContainer. }
    split; [done|].
    intros t' [= <-]. simpl. split; [|split].
    + intros i c Hi. specialize (Hcs i c Hi).
      exists (withEnvConfig envConfigName c). split.
      { rewrite <- app_assoc.
        rewrite lookup_app_l by (rewrite Hn; by eapply lookup_lt_Some).
        done. }
      simpl. repeat (split; [done|]). exists []. by rewrite app_nil_r.
    + intros i c' Hi Hc'. rewrite <- app_assoc in Hc'.
      rewrite lookup_app_r in Hc' by lia.
      apply list_elem_of_lookup_2 in Hc'.
      apply elem_of_app in Hc' as [Hc'|Hc']; [by apply Hacs|].
      by apply list_elem_of_singleton in Hc' as ->.
    + intros roleProbe' [= <-]. split.
      * intros (c & Hc & Hcan). by rewrite (Hnone c Hc) in Hcan.
      * intros _. rewrite !length_app, Hn, Hlen. simpl. lia.
Qed.

End ProbeProperties.

(** ** The injection on a concrete workload *)

Section ProbeExamples.
Import Probe Probe.Sample.
#[local] Existing Instance package.

(** Two probe actions and their two ports. *)
Lemma X19_probe_action_containers_witness :
  ∃ acs c,
    injectProbeActionContainer (rsm [mysql] [action "a"; action "b"])
      (template [mysql]) [36503; 36504]%Z []
    = Ok {| Volumes := [EmptyDirVolume "role-agent"];
            InitContainers := [initContainer];
            Containers := mysql :: acs; templateRest := "" |}
    ∧ acs !! 1%nat = Some c ∧ Name c = "action-1"
    ∧ Image c = "busybox:latest"
    ∧ injectProbeActionContainer (rsm [mysql] [action "a"; action "b"])
        (template [mysql]) [36503]%Z []
      = Panic.
Proof.
  destruct (X19_probe_action_containers (H:=package)
              (rsm [mysql] [action "a"; action "b"])
              (roleProbe [action "a"; action "b"]) (template [mysql])
              [36503; 36504]%Z [] eq_refl) as [_ Hok].
  destruct Hok as (acs & Hres & _ & Hall); [simpl; lia|].
  destruct (Hall 1%nat (action "b") eq_refl)
    as (port & c & _ & Hc & Hname & _ & Himage & _).
  exists acs, c. split; [exact Hres|]. split; [exact Hc|].
  split; [exact Hname|]. split; [exact Himage|].
  apply (X19_probe_action_containers (H:=package)
           (rsm [mysql] [action "a"; action "b"])
           (roleProbe [action "a"; action "b"]) (template [mysql])
           [36503]%Z [] eq_refl).
  simpl. lia.
Defined.

(** The container [lorry] is taken for the role probe container and probed
    on its second port; with a single port the call panics. *)
Lemma X20_role_probe_agent_container_witness :
  (∃ c' probe,
     injectRoleProbeAgentContainer settings (rsm [mysql; lorry] [])
       (template [mysql; lorry]) "null" []
     = Ok (template [mysql; c'])
     ∧ ReadinessProbe c' = Some probe
     ∧ execCommand probe = ["/bin/grpc_health_probe"; "-addr=:50002"])
  ∧ injectRoleProbeAgentContainer settings (rsm [mysql; lorry1] [])
      (template [mysql; lorry1]) "null" []
    = Panic.
Proof.
  split.
  - destruct (X20_role_probe_agent_container (H:=package) settings
                (rsm [mysql; lorry] []) (roleProbe []) (template [mysql; lorry])
                "null" [] eq_refl) as (_ & Hfirst & _).
    destruct (Hfirst 1%nat lorry eq_refl eq_refl) as [_ Hok].
    { intros [|[|j]] c' Hj Hlt; [|lia..]. by injection Hj as <-. }
    destruct (Hok (port "grpc" 50002 0) eq_refl)
      as (c' & probe & Hres & _ & _ & _ & _ & _ & _ & _ & _ & Hprobe & Hcmd & _).
    exists c', probe. split; [exact Hres|]. split; [exact Hprobe|exact Hcmd].
  - destruct (X20_role_probe_agent_container (H:=package) settings
                (rsm [mysql; lorry1] []) (roleProbe [])
                (template [mysql; lorry1]) "null" [] eq_refl)
      as (_ & Hfirst & _).
    destruct (Hfirst 1%nat lorry1 eq_refl eq_refl) as [Hpanic _].
    { intros [|[|j]] c' Hj Hlt; [|lia..]. by injection Hj as <-. }
    apply Hpanic. simpl. lia.
Defined.

End ProbeExamples.

(** * De-duplication of resources *)

Section LifecycleProperties.
Import Lifecycle.
Context {Object : Type} `{EqDecision Object}.

Lemma contains_spec (objects : list Object) (resource : Object) :
  contains objects resource = true ↔ resource ∈ objects.
Proof.
  induction objects as [|o objects IH]; simpl.
  - split; [done|by intros ?%elem_of_nil].
  - case_bool_decide as Heq.
    + subst. split; [intros _; left|done].
    + rewrite IH, elem_of_cons. naive_solver.
Qed.

Lemma dedup_fold (resources objects : list Object) :
  ∃ added,
    foldl (λ objects resource,
             if contains objects resource then objects
             else objects ++ [resource])
          objects resources = objects ++ added
    ∧ sublist added resources
    ∧ NoDup added
    ∧ (∀ r, r ∈ added ↔ r ∈ resources ∧ r ∉ objects)
    ∧ (NoDup resources → (∀ r, r ∈ resources → r ∉ objects) →
       added = resources).
Proof.
  revert objects. induction resources as [|x resources IH]; intros objects;
    simpl.
  - exists []. rewrite app_nil_r. split; [done|]. split; [done|].
    split; [constructor|]. split; [|done].
    intros r. split; [by intros ?%elem_of_nil|by intros [?%elem_of_nil _]].
  - destruct (contains objects x) eqn:Hc.
    + apply contains_spec in Hc.
      destruct (IH objects) as (added & -> & Hsub & Hnd & Hin & Hid).
      exists added. split; [done|]. split; [by apply sublist_cons|].
      split; [done|]. split.
      * intros r. rewrite Hin, elem_of_cons. naive_solver.
      * intros _ Hdisj. exfalso. apply (Hdisj x); [left|done].
    + assert (x ∉ objects) as Hx.
      { intros Hin. apply contains_spec in Hin. congruence. }
      destruct (IH (objects ++ [x])) as (added & -> & Hsub & Hnd & Hin & Hid).
      exists (x :: added). split; [by rewrite <- app_assoc|].
      split; [by apply sublist_skip|]. split.
      { apply NoDup_cons. split; [|done]. rewrite Hin.
        intros [_ Hn]. apply Hn. apply elem_of_app. right. left. }
      split.
      * intros r. rewrite !elem_of_cons, Hin, elem_of_app, elem_of_cons,
          elem_of_nil.
        destruct (decide (r = x)) as [->|Hne]; naive_solver.
      * intros [Hnx Hnd']%NoDup_cons Hdisj. f_equal. apply Hid; [done|].
        intros r Hr. rewrite elem_of_app, elem_of_cons, elem_of_nil.
        intros [Ho|[->|[]]]; [|done].
        apply (Hdisj r); [by right|done].
Qed.

(** X22.  [dedupResources] keeps the first of each group of deeply equal
    resources, in the order of the list: the result has no duplicates and
    the elements of the list, is a sublist of it, is the list itself when
    that has no duplicates, and is left as it is by a second pass. *)
Theorem X22_dedup_resources (resources : list Object) :
  NoDup (dedupResources resources)
  ∧ (∀ r, r ∈ dedupResources resources ↔ r ∈ resources)
  ∧ sublist (dedupResources resources) resources
  ∧ (NoDup resources → dedupResources resources = resources)
  ∧ dedupResources (dedupResources resources) = dedupResources resources.
Proof.
  assert (∀ l : list Object,
            NoDup (dedupResources l)
            ∧ (∀ r, r ∈ dedupResources l ↔ r ∈ l)
            ∧ sublist (dedupResources l) l
            ∧ (NoDup l → dedupResources l = l)) as Hall.
  { intros l. unfold dedupResources.
    destruct (dedup_fold l []) as (added & -> & Hsub & Hnd & Hin & Hid).
    simpl. split; [done|]. split.
    - intros r. rewrite Hin. split; [by intros [? _]|].
      intros Hr. split; [done|]. apply not_elem_of_nil.
    - split; [done|]. intros Hl. apply Hid; [done|].
      intros r _. apply not_elem_of_nil. }
  destruct (Hall resources) as (Hnd & Hin & Hsub & Hid).
  split; [done|]. split; [done|]. split; [done|]. split; [done|].
  by apply (Hall (dedupResources resources)).
Qed.

End LifecycleProperties.

(** * Properties of the data of the env config map *)

Section EnvConfigProperties.
Import EnvConfig.
Context `{Package}.

(** ** Strings *)

Lemma list_ascii_app (a b : string) :
  String.list_ascii_of_string (a +:+ b)
  = String.list_ascii_of_string a ++ String.list_ascii_of_string b.
Proof. induction a as [|c a IH]; simpl; [done|by rewrite IH]. Qed.

Lemma string_app_inj_r (a b s : string) : a +:+ s = b +:+ s → a = b.
Proof.
  intros Heq. apply (f_equal String.list_ascii_of_string) in Heq.
  rewrite !list_ascii_app in Heq. apply app_inv_tail in Heq.
  apply (f_equal String.string_of_list_ascii) in Heq.
  by rewrite !String.string_of_list_ascii_of_string in Heq.
Qed.

Lemma string_app_nil (a b : string) : a +:+ b = "" → a = "" ∧ b = "".
Proof. by destruct a. Qed.

Lemma string_length_app (a b : string) :
  String.length (a +:+ b) = String.length a + String.length b.
Proof. induction a as [|c a IH]; simpl; [done|by rewrite IH]. Qed.

Lemma lastChar_app (a b : string) : b ≠ "" → lastChar (a +:+ b) = lastChar b.
Proof.
  intros Hb. induction a as [|c a IH]; [done|].
  change (String c a +:+ b) with (String c (a +:+ b)). simpl.
  destruct (a +:+ b) eqn:Hab; [|done].
  by apply string_app_nil in Hab as [_ ?].
Qed.

Lemma lastChar_ne (a b : string) : lastChar a ≠ lastChar b → a ≠ b.
Proof. by intros Hne ->. Qed.

Lemma substring_all (s : string) : String.substring 0 (String.length s) s = s.
Proof. induction s as [|c s IH]; simpl; [done|by rewrite IH]. Qed.

Lemma substring_suffix (k : nat) (s : string) :
  k ≤ String.length s →
  ∃ pre, s = pre +:+ String.substring k (String.length s - k) s
         ∧ String.length pre = k.
Proof.
  revert s. induction k as [|k IH]; intros s Hk.
  - exists "". by rewrite Nat.sub_0_r, substring_all.
  - destruct s as [|c s]; simpl in Hk; [lia|].
    destruct (IH s) as (pre & Hs & Hpre); [lia|].
    exists (String c pre). split; [|simpl; by rewrite Hpre].
    change (String c s = String c (pre +:+ String.substring k
                                     (String.length s - k) s)).
    by rewrite <- Hs.
Qed.

(** ** The two closures *)

Lemma generateReplicaEnv_other (set : ReplicatedStateMachine) (replicas : Z)
    (prefix key : string) (envData : gmap string string) :
  lastChar key ≠ Some "E"%char →
  generateReplicaEnv set replicas prefix envData !! key = envData !! key.
Proof.
  intros Hkey. unfold generateReplicaEnv. cbv zeta.
  generalize (seqZ 0 replicas). intros l. revert envData.
  induction l as [|i l IH]; intros envData; simpl; [done|].
  rewrite IH. apply lookup_insert_ne. apply lastChar_ne.
  by rewrite lastChar_app.
Qed.

Lemma generateReplicaEnv_lookup (set : ReplicatedStateMachine) (replicas : Z)
    (prefix : string) (envData : gmap string string) (i : Z) :
  (0 ≤ i < replicas)%Z →
  generateReplicaEnv set replicas prefix envData
    !! ((prefix +:+ pretty i) +:+ "_HOSTNAME")
  = Some ((((Name set +:+ "-") +:+ pretty i) +:+ ".")
          +:+ getHeadlessSvcName set).
Proof.
  intros Hi. unfold generateReplicaEnv. cbv zeta.
  assert (i ∈ seqZ 0 replicas) as Hin by (apply elem_of_seqZ; lia).
  revert Hin. generalize (seqZ 0 replicas). intros l. revert envData.
  induction l as [|j l IH] using rev_ind; intros envData Hin.
  - by apply elem_of_nil in Hin.
  - rewrite foldl_app. simpl.
    destruct (decide (i = j)) as [->|Hne]; [by rewrite lookup_insert_eq|].
    rewrite lookup_insert_ne.
    + apply IH. apply elem_of_app in Hin as [?|Hin]; [done|].
      by apply list_elem_of_singleton in Hin.
    + intros Heq. apply string_app_inj_r, String.app_inj in Heq.
      by apply (inj pretty) in Heq.
Qed.

Lemma memberStep_fold_other (prefix key : string) (members : list MemberStatus)
    (envData : gmap string string) (followers : string) :
  key ≠ prefix +:+ "LEADER" →
  (foldl (memberStep prefix) (envData, followers) members).1 !! key
  = envData !! key.
Proof.
  intros Hkey. revert envData followers.
  induction members as [|m members IH]; intros envData followers; simpl;
    [done|].
  case_bool_decide; [apply IH|].
  destruct (IsLeader m); [|destruct (CanVote m); apply IH].
  rewrite IH. by apply lookup_insert_ne.
Qed.

Lemma generateMemberEnv_other (set : ReplicatedStateMachine)
    (prefix key : string) (envData : gmap string string) :
  key ≠ prefix +:+ "LEADER" → key ≠ prefix +:+ "FOLLOWERS" →
  generateMemberEnv set prefix envData !! key = envData !! key.
Proof.
  intros Hl Hf. unfold generateMemberEnv.
  pose proof (memberStep_fold_other prefix key (MembersStatus set) envData ""
                Hl) as Hfold.
  destruct (foldl _ _ _) as [envData' followers]. simpl in Hfold.
  case_bool_decide; [|done]. by rewrite lookup_insert_ne.
Qed.

Lemma generateMemberEnv_other_last (set : ReplicatedStateMachine)
    (prefix key : string) (envData : gmap string string) :
  lastChar key ≠ Some "R"%char → lastChar key ≠ Some "S"%char →
  generateMemberEnv set prefix envData !! key = envData !! key.
Proof.
  intros Hr Hs. apply generateMemberEnv_other; apply lastChar_ne;
    by rewrite lastChar_app.
Qed.

(** ** generateMemberEnv in closed form *)

Lemma string_app_assoc (a b c : string) : (a +:+ b) +:+ c = a +:+ b +:+ c.
Proof.
  induction a as [|x a IH]; [done|].
  change (String x ((a +:+ b) +:+ c) = String x (a +:+ b +:+ c)).
  by rewrite IH.
Qed.

Lemma followers_join_onto (names : list string) (f : string) :
  f ≠ "" → (∀ n, n ∈ names → n ≠ "") →
  foldl (λ followers n,
           (if bool_decide (0 < String.length followers)
            then followers +:+ "," else followers) +:+ n) f names
  = match names with
    | [] => f
    | _ => f +:+ "," +:+ joinWith "," names
    end.
Proof.
  revert f. induction names as [|n rest IH]; intros f Hf Hnames; [done|].
  simpl.
  assert (0 < String.length f) as Hlen.
  { destruct f; [done|simpl; lia]. }
  rewrite bool_decide_eq_true_2 by done.
  rewrite IH.
  - destruct rest as [|r rest]; simpl.
    + by rewrite string_app_assoc.
    + by rewrite !string_app_assoc.
  - intros [Hf' _]%string_app_nil. by apply string_app_nil in Hf' as [? _].
  - intros n' Hn'. apply Hnames. by right.
Qed.

Lemma followers_join (names : list string) :
  (∀ n, n ∈ names → n ≠ "") →
  foldl (λ followers n,
           (if bool_decide (0 < String.length followers)
            then followers +:+ "," else followers) +:+ n) "" names
  = joinWith "," names.
Proof.
  intros Hnames. destruct names as [|n rest]; [done|]. simpl.
  rewrite followers_join_onto.
  - by destruct rest.
  - apply Hnames. left.
  - intros n' Hn'. apply Hnames. by right.
Qed.

Lemma joinWith_nonempty (sep n : string) (rest : list string) :
  n ≠ "" → joinWith sep (n :: rest) ≠ "".
Proof.
  intros Hn. unfold joinWith. simpl. destruct rest; [done|].
  by intros [? _]%string_app_nil.
Qed.

Lemma memberStep_fold (prefix : string) (members : list MemberStatus)
    (envData : gmap string string) (followers : string) :
  foldl (memberStep prefix) (envData, followers) members
  = (match last (filter (λ m, (PodName m ≠ "" ∧ PodName m ≠ defaultPodName)
                              ∧ IsLeader m = true) members) with
     | Some l => <[prefix +:+ "LEADER" := PodName l]> envData
     | None => envData
     end,
     foldl (λ followers n,
              (if bool_decide (0 < String.length followers)
               then followers +:+ "," else followers) +:+ n)
           followers
           (PodName <$> filter (λ m, (PodName m ≠ ""
                                      ∧ PodName m ≠ defaultPodName)
                                     ∧ IsLeader m = false ∧ CanVote m = true)
                          members)).
Proof.
  revert envData followers.
  induction members as [|m members IH]; intros envData followers; [done|].
  cbn [foldl]. unfold memberStep at 2.
  case_bool_decide as Hskip.
  - rewrite IH. rewrite !filter_cons_False; [done|..]; intros [[? ?] _]; tauto.
  - assert (PodName m ≠ "" ∧ PodName m ≠ defaultPodName) as Hvalid by tauto.
    destruct (IsLeader m) eqn:Hl; [|destruct (CanVote m) eqn:Hv]; rewrite IH.
    + rewrite filter_cons_True by done.
      rewrite filter_cons_False by (rewrite Hl; intros (_ & ? & _); done).
      f_equal. rewrite last_cons.
      destruct (last _) as [l|]; [by rewrite insert_insert_eq|done].
    + rewrite filter_cons_False by (rewrite Hl; intros [_ ?]; done).
      by rewrite filter_cons_True by done.
    + rewrite filter_cons_False by (rewrite Hl; intros [_ ?]; done).
      by rewrite filter_cons_False by (rewrite Hv; intros (_ & _ & ?); done).
Qed.

(** X23.  [generateMemberEnv] in closed form.  Of the members, those
    without a pod name and those with the default pod name are left out.
    The key [LEADER] is set to the pod name of the last leader among the
    others, if there is one; the key [FOLLOWERS] is set to the pod names,
    in order and joined by commas, of those that are no leader and can
    vote, if there is one; no other key is touched, and neither of the two
    is removed. *)
Theorem X23_member_env
    (set : ReplicatedStateMachine) (prefix : string)
    (envData : gmap string string) :
  let leaders :=
    filter (λ m, (PodName m ≠ "" ∧ PodName m ≠ defaultPodName)
                 ∧ IsLeader m = true) (MembersStatus set) in
  let followers :=
    filter (λ m, (PodName m ≠ "" ∧ PodName m ≠ defaultPodName)
                 ∧ IsLeader m = false ∧ CanVote m = true)
           (MembersStatus set) in
  let res := generateMemberEnv set prefix envData in
  res !! (prefix +:+ "LEADER")
  = match last leaders with
    | Some l => Some (PodName l)
    | None => envData !! (prefix +:+ "LEADER")
    end
  ∧ res !! (prefix +:+ "FOLLOWERS")
    = match followers with
      | [] => envData !! (prefix +:+ "FOLLOWERS")
      | _ => Some (joinWith "," (PodName <$> followers))
      end
  ∧ ∀ key, key ≠ prefix +:+ "LEADER" → key ≠ prefix +:+ "FOLLOWERS" →
           res !! key = envData !! key.
Proof.
  intros leaders followers res.
  split; [|split; [|intros key; apply generateMemberEnv_other]].
  - subst res. unfold generateMemberEnv. rewrite memberStep_fold.
    fold leaders followers.
    assert (prefix +:+ "LEADER" ≠ prefix +:+ "FOLLOWERS") as Hne
      by (by intros ?%String.app_inj).
    case_bool_decide; rewrite ?lookup_insert_ne by done;
      destruct (last leaders); by rewrite ?lookup_insert_eq.
  - subst res. unfold generateMemberEnv. rewrite memberStep_fold.
    fold leaders followers.
    assert (prefix +:+ "FOLLOWERS" ≠ prefix +:+ "LEADER") as Hne
      by (by intros ?%String.app_inj).
    assert (∀ n, n ∈ PodName <$> followers → n ≠ "") as Hnames.
    { intros n (m & -> & Hm)%list_elem_of_fmap.
      apply list_elem_of_filter in Hm. tauto. }
    rewrite followers_join by done.
    destruct followers as [|m ms] eqn:Hfs.
    + simpl. destruct (last leaders); by rewrite ?lookup_insert_ne.
    + rewrite bool_decide_eq_true_2.
      * by rewrite lookup_insert_eq.
      * rewrite fmap_cons. apply joinWith_nonempty. apply Hnames. left.
Qed.

(** ** buildEnvConfigData *)

Lemma lookup_insert_same_value (m : gmap string string) (k k' v : string) :
  m !! k = Some v → <[k' := v]> m !! k = Some v.
Proof.
  intros Hm. destruct (decide (k' = k)) as [->|Hne];
    [apply lookup_insert_eq|by rewrite lookup_insert_ne].
Qed.

(** Moving a lookup past the writes of the function that end in another
    byte than the key. *)
Ltac past_writes :=
  repeat first
    [ rewrite generateReplicaEnv_other
        by (rewrite lastChar_app by done; simpl; congruence)
    | rewrite generateMemberEnv_other_last
        by (rewrite lastChar_app by done; simpl; congruence)
    | rewrite lookup_insert_ne
        by (apply lastChar_ne; rewrite !lastChar_app by done;
            simpl; congruence) ].

(** X24.  [buildEnvConfigData] panics exactly when the spec has no replica
    count or the UID has fewer than four bytes, and never returns an error.
    Otherwise the data hold the replica count under the three count keys,
    the UID under the three UID keys, under [OWNER_UID_SUFFIX8] the last
    four bytes of the UID, and, for the prefix with the component
    definition name, the host name of every replica. *)
Theorem X24_env_config_data (set : ReplicatedStateMachine) :
  (buildEnvConfigData set = Panic
   ↔ Replicas set = None ∨ String.length (UID set) < 4)
  ∧ (∀ e, buildEnvConfigData set ≠ Err e)
  ∧ (∀ data replicas,
       buildEnvConfigData set = Ok data → Replicas set = Some replicas →
       let p1 := KBPrefix +:+ "_RSM_" in
       let p2 := KBPrefix +:+ "_" in
       let p3 := (p2 +:+ ToUpper (default "" (Labels set !! AppComponentLabelKey)))
                 +:+ "_" in
       data !! (p1 +:+ "N") = Some (pretty replicas)
       ∧ data !! (p2 +:+ "REPLICA_COUNT") = Some (pretty replicas)
       ∧ data !! (p3 +:+ "N") = Some (pretty replicas)
       ∧ data !! (p1 +:+ "OWNER_UID") = Some (UID set)
       ∧ data !! (p2 +:+ "CLUSTER_UID") = Some (UID set)
       ∧ data !! (p3 +:+ "CLUSTER_UID") = Some (UID set)
       ∧ (∃ suffix pre,
            data !! (p1 +:+ "OWNER_UID_SUFFIX8") = Some suffix
            ∧ String.length suffix = 4 ∧ UID set = pre +:+ suffix)
       ∧ (∀ i, (0 ≤ i < replicas)%Z →
            data !! ((p3 +:+ pretty i) +:+ "_HOSTNAME")
            = Some ((((Name set +:+ "-") +:+ pretty i) +:+ ".")
                    +:+ getHeadlessSvcName set))).
Proof.
  unfold buildEnvConfigData. cbv zeta.
  destruct (Replicas set) as [replicas|] eqn:Hrep.
  2:{ split; [split; [by left|done]|]. split; [done|]. by intros ? ? [=]. }
  case_bool_decide as Hlen.
  { split; [split; [by right|done]|]. split; [done|]. by intros ? ? [=]. }
  split.
  { split; [done|]. intros [?|?]; [done|lia]. }
  split; [done|].
  intros data replicas' [= <-] [= <-]. cbv zeta.
  set (p1 := KBPrefix +:+ "_RSM_").
  set (p2 := KBPrefix +:+ "_").
  set (p3 := (p2 +:+ ToUpper (default "" (Labels set !! AppComponentLabelKey)))
             +:+ "_").
  split; [|split; [|split; [|split; [|split; [|split; [|split]]]]]].
  - rewrite lookup_insert_ne
      by (apply lastChar_ne; rewrite !lastChar_app by done; simpl; congruence).
    past_writes. apply lookup_insert_same_value. past_writes.
    apply lookup_insert_eq.
  - past_writes. apply lookup_insert_eq.
  - past_writes. apply lookup_insert_eq.
  - apply lookup_insert_same_value. past_writes.
    apply lookup_insert_same_value. past_writes.
    apply lookup_insert_eq.
  - apply lookup_insert_same_value. past_writes. apply lookup_insert_eq.
  - apply lookup_insert_eq.
  - destruct (substring_suffix (String.length (UID set) - 4) (UID set))
      as (pre & Huid & Hpre); [lia|].
    replace (String.length (UID set) - (String.length (UID set) - 4))
      with 4 in Huid by lia.
    exists (String.substring (String.length (UID set) - 4) 4 (UID set)), pre.
    split; [|split; [|done]].
    + past_writes. apply lookup_insert_eq.
    + apply (f_equal String.length) in Huid.
      rewrite string_length_app, Hpre in Huid. lia.
  - intros i Hi. past_writes. by apply generateReplicaEnv_lookup.
Qed.

End EnvConfigProperties.
